(** * Unified query service: orchestrator, ranking engine and result cache

    A shallow embedding of [src/orchestrator.py], [src/ranking.py],
    [src/cache.py] and the parts of [src/models.py] and [src/config.py]
    they use, followed by the properties the specification states about
    them.

    Conventions of the embedding.
    - Python [float] values are exact real numbers ([R]); comparisons on
      them are decided with [Rlt_dec] and friends.
    - Python [str] values are [string]s of 8-bit characters; case folding
      and whitespace are the ASCII ones.
    - A [dict] whose iteration order is observed is an association list in
      insertion order without repeated keys; a [dict] that is only read
      and written by key is a [gmap].
    - A coroutine is the computation it runs; [asyncio.gather] runs its
      tasks one after the other in argument order.  Exceptions are values
      of [Exn] carried by the result type [Res].
    - Log calls have no effect on the state that is modelled and are
      left out. *)

From Stdlib Require Import Reals Lra Lia ZArith List String Ascii DecimalString Permutation Sorted.
From stdpp Require Import gmap strings list fin_maps sorting.

(* ===================================================================== *)
(** * Python built-ins used by the service *)
(* ===================================================================== *)

Module Py.

(** ** Strings *)

(** [str.lower] on ASCII text. *)
Definition lower_char (c : ascii) : ascii :=
  let n := nat_of_ascii c in
  if (65 <=? n)%nat && (n <=? 90)%nat then ascii_of_nat (n + 32) else c.

Fixpoint lower (s : string) : string :=
  match s with
  | EmptyString => EmptyString
  | String c s' => String (lower_char c) (lower s')
  end.

(** [str.isspace] for one character: tab, line feed, vertical tab, form
    feed, carriage return, the four separators 0x1c-0x1f and space. *)
Definition isspace (c : ascii) : bool :=
  let n := nat_of_ascii c in
  ((9 <=? n)%nat && (n <=? 13)%nat) || ((28 <=? n)%nat && (n <=? 32)%nat).

Fixpoint lstrip (s : string) : string :=
  match s with
  | EmptyString => EmptyString
  | String c s' => if isspace c then lstrip s' else s
  end.

(** Removes trailing whitespace: a character is kept when something that
    is kept follows it, or when it is not whitespace itself. *)
Fixpoint rstrip (s : string) : string :=
  match s with
  | EmptyString => EmptyString
  | String c s' =>
      match rstrip s' with
      | EmptyString => if isspace c then EmptyString else String c EmptyString
      | t => String c t
      end
  end.

(** [str.strip()] *)
Definition strip (s : string) : string := rstrip (lstrip s).

(** [len(s.split())]: the number of maximal runs of non-whitespace
    characters.  [inword] tells whether the previous character belonged to
    a run. *)
Fixpoint count_words (inword : bool) (s : string) : nat :=
  match s with
  | EmptyString => 0
  | String c s' =>
      if isspace c then count_words false s'
      else if inword then count_words true s'
      else S (count_words true s')
  end.

Definition split_len (s : string) : nat := count_words false s.

(** [sub in s] *)
Fixpoint contains (sub s : string) : bool :=
  String.prefix sub s ||
  match s with
  | EmptyString => false
  | String _ s' => contains sub s'
  end.

(** [sep.join(l)] *)
Fixpoint join (sep : string) (l : list string) : string :=
  match l with
  | [] => EmptyString
  | [x] => x
  | x :: rest => x +:+ sep +:+ join sep rest
  end.

(** ** sorted *)

(** [sorted] is a stable sort that compares with [<] only.  [insert]
    places [x], which stood before every element of [l] in the input, in
    front of the first element that is not strictly smaller. *)
Section Sorted.
Context {A : Type} (lt : A -> A -> bool).

Fixpoint insert (x : A) (l : list A) : list A :=
  match l with
  | [] => [x]
  | y :: l' => if lt y x then y :: insert x l' else x :: y :: l'
  end.

Definition sorted (l : list A) : list A := foldr insert [] l.

End Sorted.

(** [sorted(l, key=key, reverse=True)] on real keys: descending, equal
    keys stay in input order. *)
Definition Rltb (x y : R) : bool := if Rlt_dec x y then true else false.

Definition sorted_desc {A : Type} (key : A -> R) (l : list A) : list A :=
  sorted (fun y x => Rltb (key x) (key y)) l.

(** [l[:n]] for an integer [n]: a negative [n] counts from the end. *)
Definition slice_to {A : Type} (n : Z) (l : list A) : list A :=
  if (0 <=? n)%Z then take (Z.to_nat n) l
  else take (length l - Z.to_nat (- n)) l.

End Py.

(* ===================================================================== *)
(** * models.py *)
(* ===================================================================== *)

Inductive QueryMode := UNIFIED | SEQUENTIAL | PARALLEL | SMART.

Definition QueryMode_value (m : QueryMode) : string :=
  match m with
  | UNIFIED => "unified"
  | SEQUENTIAL => "sequential"
  | PARALLEL => "parallel"
  | SMART => "smart"
  end.

Inductive RankingStrategy := RELEVANCE | RECENCY | HYBRID.

Definition RankingStrategy_value (s : RankingStrategy) : string :=
  match s with
  | RELEVANCE => "relevance"
  | RECENCY => "recency"
  | HYBRID => "hybrid"
  end.

(** Result metadata: the free-form map of an adapter result.  The
    orchestrator only reads list-valued entries ("keywords", "entities"). *)
Definition Metadata := list (string * list string).

Record QueryResult := mkQueryResult {
  id : string;
  content : string;
  source : string;
  score : R;
  metadata : Metadata;
  timestamp : R;                       (* seconds, as a datetime *)
  highlights : option (list string)
}.

Definition set_score (r : QueryResult) (s : R) : QueryResult :=
  {| id := id r; content := content r; source := source r; score := s;
     metadata := metadata r; timestamp := timestamp r;
     highlights := highlights r |}.

(** [QueryStats]: the two per-key counters are dicts read and written by
    key. *)
Record QueryStats := mkQueryStats {
  total_queries : nat;
  queries_by_mode : gmap string nat;
  queries_by_source : gmap string nat;
  average_latency : R;
  cache_hit_rate : R;
  error_rate : R
}.

Definition QueryStats_default : QueryStats :=
  {| total_queries := 0; queries_by_mode := ∅; queries_by_source := ∅;
     average_latency := 0%R; cache_hit_rate := 0%R; error_rate := 0%R |}.

(* ===================================================================== *)
(** * Request options *)
(* ===================================================================== *)

(** A value of the options dict ([Dict[str, Any]]).  [VOther] stands for
    an object of any other kind that is neither a number nor an index (a
    nested filter map, a list): the orchestrator does not look into it,
    it is known by its [repr] and its truth value. *)
Inductive OptVal :=
| VNone
| VBool (b : bool)
| VInt (n : Z)
| VStr (s : string)
| VStrategy (s : RankingStrategy)
| VOther (repr : string) (truth : bool).

(** The options dict, in insertion order; keys are pairwise distinct. *)
Definition Options := list (string * OptVal).

Definition dict_wf {V : Type} (d : list (string * V)) : Prop := NoDup (d.*1).

(** [d.get(k)] / [k in d] *)
Fixpoint dict_get {V : Type} (k : string) (d : list (string * V)) : option V :=
  match d with
  | [] => None
  | (k', v) :: d' => if String.eqb k' k then Some v else dict_get k d'
  end.

(** [d[k] = v]: an existing key keeps its position. *)
Fixpoint dict_set {V : Type} (k : string) (v : V) (d : list (string * V))
  : list (string * V) :=
  match d with
  | [] => [(k, v)]
  | (k', v') :: d' =>
      if String.eqb k' k then (k, v) :: d' else (k', v') :: dict_set k v d'
  end.

Module PyVal.

(** [bool(v)] *)
Definition truthy (v : OptVal) : bool :=
  match v with
  | VNone => false
  | VBool b => b
  | VInt n => negb (n =? 0)%Z
  | VStr s => negb (String.eqb s "")
  | VStrategy _ => true
  | VOther _ t => t
  end.

Definition Z_to_string (n : Z) : string :=
  NilZero.string_of_int (Z.to_int n).

(** [repr(v)]; escapes inside string literals are not modelled. *)
Definition repr (v : OptVal) : string :=
  match v with
  | VNone => "None"
  | VBool true => "True"
  | VBool false => "False"
  | VInt n => Z_to_string n
  | VStr s => "'" +:+ s +:+ "'"
  | VStrategy s =>
      match s with
      | RELEVANCE => "<RankingStrategy.RELEVANCE: 'relevance'>"
      | RECENCY => "<RankingStrategy.RECENCY: 'recency'>"
      | HYBRID => "<RankingStrategy.HYBRID: 'hybrid'>"
      end
  | VOther r _ => r
  end.

(** [repr] of a [(key, value)] tuple and [str] of a list of them. *)
Definition repr_item (kv : string * OptVal) : string :=
  "('" +:+ kv.1 +:+ "', " +:+ repr kv.2 +:+ ")".

Definition str_items (l : list (string * OptVal)) : string :=
  "[" +:+ Py.join ", " (map repr_item l) +:+ "]".

(** The string a value of a [str]-based enum or a plain [str] compares
    equal to, if any. *)
Definition as_str (v : OptVal) : option string :=
  match v with
  | VStr s => Some s
  | VStrategy s => Some (RankingStrategy_value s)
  | _ => None
  end.

(** The integer an object stands for where Python wants an index or an
    operand of [<] against an [int]: [bool] is a subclass of [int]. *)
Definition as_int (v : OptVal) : option Z :=
  match v with
  | VInt n => Some n
  | VBool b => Some (if b then 1 else 0)%Z
  | _ => None
  end.

End PyVal.

(* ===================================================================== *)
(** * Exceptions and the orchestrator's state *)
(* ===================================================================== *)

Inductive Exn :=
| TimeoutError                  (* asyncio.wait_for ran out of time *)
| AdapterError (msg : string)   (* anything an adapter's search raises *)
| ValidationError               (* pydantic refuses a QueryResult *)
| RetryError (last : Exn)       (* tenacity gave up after the last attempt *)
| IndexError
| KeyError (k : string)
| AttributeError
| TypeError.

Inductive Res (A : Type) :=
| Ok (a : A)
| Raise (e : Exn).
Arguments Ok {A} a.
Arguments Raise {A} e.

(** What a query returns in its ["results"] entry: a flat list, or, in
    parallel mode, the dict of per-source lists. *)
Inductive Results :=
| Flat (l : list QueryResult)
| Grouped (g : list (string * list QueryResult)).

(** [len(results)] *)
Definition Results_len (r : Results) : nat :=
  match r with
  | Flat l => length l
  | Grouped g => length g
  end.

(** The response dict built by [QueryOrchestrator.query]. *)
Record Response := mkResponse {
  resp_query : string;
  resp_mode : QueryMode;
  resp_results : Results;
  resp_total_results : nat;
  resp_processing_time : R;
  resp_sources_queried : list string;
  resp_cache_hit : bool;               (* metadata["cache_hit"] *)
  resp_timestamp : R                   (* metadata["timestamp"] *)
}.

(** An entry of the cache backend: the stored value and the time at which
    it stops being served. *)
Record CacheEntry := mkCacheEntry {
  entry_value : Response;
  entry_expires : R
}.

(** [QueryCache]: [backend] is the store behind [self.cache], [ttl] the
    default lifetime the backend was created with. *)
Record QueryCache := mkQueryCache {
  backend : gmap string CacheEntry;
  ttl : R;
  max_size : nat;
  hits : nat;
  misses : nat
}.

(** One adapter invocation: source, query text, attempt number. *)
Definition Call : Type := string * string * nat.

(** The orchestrator object together with the two things it observes
    from outside: how many times the clock was read, and which adapter
    calls were made. *)
Record State := mkState {
  adapters : list string;              (* keys of self.adapters, in insertion order *)
  cache : QueryCache;
  stats : QueryStats;
  ticks : nat;
  calls : list Call
}.

Definition M (A : Type) : Type := State -> Res A * State.

Definition ret {A} (a : A) : M A := fun st => (Ok a, st).
Definition raise {A} (e : Exn) : M A := fun st => (Raise e, st).
Definition bind {A B} (m : M A) (f : A -> M B) : M B :=
  fun st => match m st with
            | (Ok a, st') => f a st'
            | (Raise e, st') => (Raise e, st')
            end.
(** [try: m except Exception as e: h e] *)
Definition try_except {A} (m : M A) (h : Exn -> M A) : M A :=
  fun st => match m st with
            | (Ok a, st') => (Ok a, st')
            | (Raise e, st') => h e st'
            end.
(** The outcome of a task collected by [gather(..., return_exceptions=True)]. *)
Definition attempt {A} (m : M A) : M (Res A) :=
  fun st => match m st with
            | (r, st') => (Ok r, st')
            end.
Definition get_state : M State := fun st => (Ok st, st).
Definition put_state (st' : State) : M unit := fun _ => (Ok tt, st').

Notation "x <- m ;; k" := (bind m (fun x => k))
  (at level 100, m at next level, right associativity).
Notation "m ;;; k" := (bind m (fun _ => k))
  (at level 100, right associativity).

(** [for x in l: body x] threading an accumulator. *)
Fixpoint for_each {A B} (l : list A) (acc : B) (body : B -> A -> M B) : M B :=
  match l with
  | [] => ret acc
  | x :: l' => acc' <- body acc x ;; for_each l' acc' body
  end.

(** [[f x for x in l]] with an effectful [f]. *)
Fixpoint mapM {A B} (f : A -> M B) (l : list A) : M (list B) :=
  match l with
  | [] => ret []
  | x :: l' => y <- f x ;; ys <- mapM f l' ;; ret (y :: ys)
  end.

(* ===================================================================== *)
(** * config.py *)
(* ===================================================================== *)

(** An entry of [MEMORY_SYSTEM_CONFIG]; only the keys the orchestrator
    reads. *)
Record SourceConfig := mkSourceConfig {
  cfg_timeout : option R;
  cfg_features : option (list string)
}.

(** An entry of [CACHE_CONFIG]. *)
Record CacheConfig := mkCacheConfig {
  cc_ttl : option R;
  cc_max_size : option nat
}.

Record Settings := mkSettings {
  ENABLED_MEMORY_SYSTEMS : list string;
  MEMORY_SYSTEM_CONFIG : list (string * SourceConfig);
  CACHE_CONFIG : list (string * CacheConfig);
  RANKING_WEIGHTS : gmap string R
}.

(** The values written in [config.py]. *)
Definition default_settings : Settings :=
  {| ENABLED_MEMORY_SYSTEMS := ["cognee"; "memento"; "memos"; "llamacloud"];
     MEMORY_SYSTEM_CONFIG :=
       [ ("cognee", {| cfg_timeout := Some 5%R;
                       cfg_features := Some ["semantic_search"; "graph_traversal"; "concept_linking"] |});
         ("memento", {| cfg_timeout := Some 3%R;
                        cfg_features := Some ["key_value"; "fast_retrieval"; "simple_storage"] |});
         ("memos", {| cfg_timeout := Some 5%R;
                      cfg_features := Some ["multi_type_memory"; "user_context"; "activation_memory"] |});
         ("llamacloud", {| cfg_timeout := Some 10%R;
                           cfg_features := Some ["document_search"; "structured_extraction"; "rag"] |}) ];
     CACHE_CONFIG :=
       [ ("query_cache", {| cc_ttl := Some 300%R; cc_max_size := Some 1000 |});
         ("document_cache", {| cc_ttl := Some 3600%R; cc_max_size := Some 100 |});
         ("embedding_cache", {| cc_ttl := Some 86400%R; cc_max_size := Some (10 * 1000) |}) ];
     RANKING_WEIGHTS :=
       <["relevance" := 0.4%R]> (<["recency" := 0.2%R]>
       (<["source_trust" := 0.2%R]> (<["user_preference" := 0.2%R]> ∅))) |}.

(* ===================================================================== *)
(** * The adapter interface *)
(* ===================================================================== *)

(** One element of the list an adapter's [search] returns: a dict in
    which each of the five keys may be missing. *)
Record RawResult := mkRawResult {
  raw_id : option string;
  raw_content : option string;
  raw_score : option R;
  raw_metadata : option Metadata;
  raw_highlights : option (list string)
}.

(** What awaiting [adapter.search(query, options)] under the source's
    timeout ends in. *)
Inductive Outcome :=
| Returned (results : list RawResult)
| TimedOut
| Failed (msg : string).

(* ===================================================================== *)
(** * State accessors *)
(* ===================================================================== *)

Definition with_cache (c : QueryCache) (st : State) : State :=
  {| adapters := adapters st; cache := c; stats := stats st;
     ticks := ticks st; calls := calls st |}.
Definition with_stats (s : QueryStats) (st : State) : State :=
  {| adapters := adapters st; cache := cache st; stats := s;
     ticks := ticks st; calls := calls st |}.
Definition with_adapters (a : list string) (st : State) : State :=
  {| adapters := a; cache := cache st; stats := stats st;
     ticks := ticks st; calls := calls st |}.
Definition with_ticks (n : nat) (st : State) : State :=
  {| adapters := adapters st; cache := cache st; stats := stats st;
     ticks := n; calls := calls st |}.
Definition with_calls (l : list Call) (st : State) : State :=
  {| adapters := adapters st; cache := cache st; stats := stats st;
     ticks := ticks st; calls := l |}.

Definition modify (f : State -> State) : M unit := fun st => (Ok tt, f st).

#[global] Instance Rlt_decision : RelDecision Rlt := Rlt_dec.
#[global] Instance Rle_decision : RelDecision Rle := Rle_dec.
#[global] Instance R_eq_decision : EqDecision R := Req_dec_T.
#[global] Instance QueryMode_eq_decision : EqDecision QueryMode.
Proof. solve_decision. Defined.

(** [x in l] for a list of strings. *)
Definition str_in (x : string) (l : list string) : bool :=
  existsb (String.eqb x) l.

(* ===================================================================== *)
(** * The service *)
(* ===================================================================== *)

Section Service.

(** The environment of the process: its settings, the readings of the
    clock ([clock n] is what the [n]-th reading returns), what each
    adapter answers (per source, query text, options and attempt number),
    the interpreter's string hash, and the order in which a set of
    strings is iterated. *)
Variable settings : Settings.
Variable clock : nat -> R.
Variable search : string -> string -> option Options -> nat -> Outcome.
Variable hash : string -> Z.
Variable set_to_list : list string -> list string.

(** [time.time()] / [datetime.utcnow()] *)
Definition utcnow : M R :=
  fun st => (Ok (clock (ticks st)), with_ticks (S (ticks st)) st).

(* --------------------------------------------------------------------- *)
(** ** cache.py *)
(* --------------------------------------------------------------------- *)

(** Modelled from the spec: the store behind [self.cache] is the
    third-party cache client, which is not part of the repository.  It is
    taken as the key-value store with expiry of section 4.3: [set] files
    the value under the key with a lifetime (the client's default when
    none is given), [get] serves a value until its lifetime is over.
    [QueryCache.__init__] hands the client the [ttl] entry and a
    serializer; [max_size] stays in the [QueryCache] object.  Writing a
    value and reading it back is taken to give the value itself. *)
Definition backend_get (key : string) (now : R) (b : gmap string CacheEntry)
  : option Response :=
  match b !! key with
  | Some e => if Rlt_dec now (entry_expires e) then Some (entry_value e) else None
  | None => None
  end.

Definition backend_set (key : string) (value : Response) (lifetime : R) (now : R)
    (b : gmap string CacheEntry) : gmap string CacheEntry :=
  <[key := {| entry_value := value; entry_expires := (now + lifetime)%R |}]> b.

(** The entries the store still serves at time [now]. *)
Definition live_entries (now : R) (b : gmap string CacheEntry)
  : gmap string CacheEntry :=
  filter (fun kv => (now < entry_expires kv.2)%R) b.

(** [QueryCache.__init__] *)
Definition QueryCache_init : QueryCache :=
  let cache_config :=
    default {| cc_ttl := None; cc_max_size := None |}
            (dict_get "query_cache" (CACHE_CONFIG settings)) in
  {| backend := ∅;
     ttl := default 300%R (cc_ttl cache_config);
     max_size := default 1000 (cc_max_size cache_config);
     hits := 0;
     misses := 0 |}.

(** [QueryCache.get] *)
Definition QueryCache_get (key : string) : M (option Response) :=
  now <- utcnow ;;
  st <- get_state ;;
  let c := cache st in
  let result := backend_get key now (backend c) in
  match result with
  | Some _ =>
      put_state (with_cache {| backend := backend c; ttl := ttl c;
                               max_size := max_size c;
                               hits := hits c + 1; misses := misses c |} st)
  | None =>
      put_state (with_cache {| backend := backend c; ttl := ttl c;
                               max_size := max_size c;
                               hits := hits c; misses := misses c + 1 |} st)
  end ;;;
  ret result.

(** [QueryCache.set] *)
Definition QueryCache_set (key : string) (value : Response) (ttl_arg : option R)
  : M unit :=
  now <- utcnow ;;
  st <- get_state ;;
  let c := cache st in
  put_state (with_cache {| backend := backend_set key value (default (ttl c) ttl_arg)
                                                  now (backend c);
                           ttl := ttl c; max_size := max_size c;
                           hits := hits c; misses := misses c |} st).

(* --------------------------------------------------------------------- *)
(** ** ranking.py *)
(* --------------------------------------------------------------------- *)

(** [RankingEngine._get_source_trust] *)
Definition _get_source_trust (source : string) : R :=
  let trust_scores :=
    [ ("cognee", 0.9%R); ("llamacloud", 0.85%R);
      ("memos", 0.8%R); ("memento", 0.7%R) ] in
  default 0.5%R (dict_get source trust_scores).

(** [weights[k]] *)
Definition weight (weights : gmap string R) (k : string) : M R :=
  match weights !! k with
  | Some w => ret w
  | None => raise (KeyError k)
  end.

(** The body of the loop of [_rank_hybrid]: the composite score of one
    result, written into the result. *)
Definition hybrid_score (weights : gmap string R) (result : QueryResult)
  : M QueryResult :=
  w_relevance <- weight weights "relevance" ;;
  let relevance_score := (score result * w_relevance)%R in
  now <- utcnow ;;
  let age_hours := ((now - timestamp result) / 3600)%R in
  w_recency <- weight weights "recency" ;;
  let recency_score := (exp (- age_hours / 168) * w_recency)%R in
  let source_trust := _get_source_trust (source result) in
  w_trust <- weight weights "source_trust" ;;
  let trust_score := (source_trust * w_trust)%R in
  w_user <- weight weights "user_preference" ;;
  let preference_score := (0.5 * w_user)%R in
  ret (set_score result
         (relevance_score + recency_score + trust_score + preference_score)%R).

(** [RankingEngine._rank_hybrid] *)
Definition _rank_hybrid (results : list QueryResult) (weights : gmap string R)
  : M (list QueryResult) :=
  scored <- mapM (hybrid_score weights) results ;;
  ret (Py.sorted_desc score scored).

(** [RankingEngine._rank_by_relevance] *)
Definition _rank_by_relevance (results : list QueryResult) : list QueryResult :=
  Py.sorted_desc score results.

(** [RankingEngine._rank_by_recency] *)
Definition _rank_by_recency (results : list QueryResult) : list QueryResult :=
  Py.sorted_desc timestamp results.

Definition default_weights : gmap string R :=
  <["relevance" := 0.4%R]> (<["recency" := 0.2%R]>
  (<["source_trust" := 0.2%R]> (<["user_preference" := 0.2%R]> ∅))).

(** [strategy == member] for a member of the [str]-based enum. *)
Definition strategy_is (strategy : OptVal) (member : RankingStrategy) : bool :=
  match PyVal.as_str strategy with
  | Some s => String.eqb s (RankingStrategy_value member)
  | None => false
  end.

(** [RankingEngine.rank] *)
Definition rank (results : list QueryResult) (strategy : OptVal)
    (weights : option (gmap string R)) : M (list QueryResult) :=
  match results with
  | [] => ret results
  | _ =>
      let weights := default default_weights weights in
      if strategy_is strategy RELEVANCE then ret (_rank_by_relevance results)
      else if strategy_is strategy RECENCY then ret (_rank_by_recency results)
      else _rank_hybrid results weights
  end.

(* --------------------------------------------------------------------- *)
(** ** orchestrator.py *)
(* --------------------------------------------------------------------- *)

(** [QueryOrchestrator.__init__] *)
Definition QueryOrchestrator_init : State :=
  {| adapters := []; cache := QueryCache_init; stats := QueryStats_default;
     ticks := 0; calls := [] |}.

(** [self.adapters[name] = ...] on the keys of the dict. *)
Definition add_adapter (name : string) (a : list string) : list string :=
  if str_in name a then a else a ++ [name].

(** [QueryOrchestrator.initialize]: which adapters exist afterwards.  The
    adapters' own [initialize] is outside the orchestrator. *)
Definition initialize : M unit :=
  modify (fun st =>
    let enable name a :=
      if str_in name (ENABLED_MEMORY_SYSTEMS settings)
      then add_adapter name a else a in
    with_adapters
      (enable "llamacloud" (enable "memos" (enable "memento"
        (enable "cognee" (adapters st))))) st).

(** [options.get(k, d)]; [options] may be [None], which has no [get]. *)
Definition options_get (options : option Options) (k : string) (d : OptVal)
  : M OptVal :=
  match options with
  | None => raise AttributeError
  | Some o => ret (default d (dict_get k o))
  end.

(** The tuples of [options.items()] are compared on their first
    components: the keys of a dict are pairwise distinct, so the values
    are never looked at. *)
Definition item_lt (a b : string * OptVal) : bool := String.ltb a.1 b.1.

(** [QueryOrchestrator._generate_cache_key].  The mode is formatted as
    its value; an interpreter that formats the member name instead
    changes the same part of every key in the same way. *)
Definition _generate_cache_key (query : string) (mode : QueryMode)
    (sources : option (list string)) (options : option Options) : string :=
  let sources_str := Py.join "," (Py.sorted String.ltb (default [] sources)) in
  let options_str :=
    match options with
    | Some ((_ :: _) as o) => PyVal.str_items (Py.sorted item_lt o)
    | _ => ""
    end in
  query +:+ ":" +:+ QueryMode_value mode +:+ ":" +:+ sources_str
        +:+ ":" +:+ options_str.

(** The members of the [MemorySource] enum, which the [source] field of a
    [QueryResult] must be one of. *)
Definition MemorySource_values : list string :=
  ["cognee"; "memento"; "memos"; "llamacloud"].

(** [QueryResult(id=..., ..., timestamp=datetime.utcnow(), ...)]: the
    arguments are evaluated, then the model validates them. *)
Definition make_result (source : string) (result : RawResult) : M QueryResult :=
  now <- utcnow ;;
  let s := default 0%R (raw_score result) in
  if bool_decide (0 <= s)%R && bool_decide (s <= 1)%R
     && str_in source MemorySource_values
  then ret {| id := default "" (raw_id result);
              content := default "" (raw_content result);
              source := source;
              score := s;
              metadata := default [] (raw_metadata result);
              timestamp := now;
              highlights := raw_highlights result |}
  else raise ValidationError.

(** The body of [_query_single_source], run as attempt number [k]. *)
Definition single_source_attempt (source query : string)
    (options : option Options) (k : nat) : M (list QueryResult) :=
  st <- get_state ;;
  if negb (str_in source (adapters st)) then ret []
  else
    modify (fun st => with_calls (calls st ++ [(source, query, k)]) st) ;;;
    match search source query options k with
    | Returned results => mapM (make_result source) results
    | TimedOut => raise TimeoutError
    | Failed msg => raise (AdapterError msg)
    end.

(** [@retry(stop=stop_after_attempt(n), ...)]: [retry_from more k body]
    runs [body] as attempt [k]; when it raises, the next attempt follows
    if [more] attempts are left, otherwise the decorator gives up. *)
Fixpoint retry_from {A} (more : nat) (k : nat) (body : nat -> M A) : M A :=
  try_except (body k)
    (fun e => match more with
              | 0 => raise (RetryError e)
              | S more' => retry_from more' (S k) body
              end).

Definition retry {A} (stop_after_attempt : nat) (body : nat -> M A) : M A :=
  retry_from (stop_after_attempt - 1) 0 body.

(** [QueryOrchestrator._query_single_source] *)
Definition _query_single_source (source query : string)
    (options : option Options) : M (list QueryResult) :=
  retry 3 (single_source_attempt source query options).

(** The loop of [_query_unified] over the gathered outcomes. *)
Fixpoint flatten_results (results : list (Res (list QueryResult)))
    (all_results : list QueryResult) : list QueryResult :=
  match results with
  | [] => all_results
  | Raise _ :: rest => flatten_results rest all_results
  | Ok source_results :: rest =>
      flatten_results rest (all_results ++ source_results)
  end.

(** [QueryOrchestrator._query_unified] *)
Definition _query_unified (query : string) (sources : list string)
    (options : option Options) : M (list QueryResult) :=
  results <- mapM (fun source =>
                     attempt (_query_single_source source query options))
                  sources ;;
  ret (flatten_results results []).

(** The context dict of a sequential query. *)
Definition Context := list (string * list string).

(** [QueryOrchestrator._enhance_query_with_context] *)
Definition _enhance_query_with_context (query : string) (context : Context)
  : string :=
  match context with
  | [] => query
  | _ =>
      let key_terms := default [] (dict_get "key_terms" context) in
      let entities := default [] (dict_get "entities" context) in
      let enhancements :=
        (match key_terms with
         | [] => []
         | _ => ["Related to: " +:+ Py.join ", " (take 5 key_terms)]
         end) ++
        (match entities with
         | [] => []
         | _ => ["Involving: " +:+ Py.join ", " (take 5 entities)]
         end) in
      match enhancements with
      | [] => query
      | _ => query +:+ " (" +:+ Py.join "; " enhancements +:+ ")"
      end
  end.

(** [context.setdefault(k, []).extend(l)] *)
Definition context_extend (k : string) (l : list string) (context : Context)
  : Context :=
  dict_set k (default [] (dict_get k context) ++ l) context.

(** [QueryOrchestrator._update_context] *)
Definition _update_context (context : Context) (results : list QueryResult)
  : Context :=
  let step (context : Context) (result : QueryResult) :=
    let metadata := metadata result in
    let context :=
      match dict_get "keywords" metadata with
      | Some kw => context_extend "key_terms" kw context
      | None => context
      end in
    match dict_get "entities" metadata with
    | Some en => context_extend "entities" en context
    | None => context
    end in
  let context := fold_left step (take 5 results) context in
  let context :=
    match dict_get "key_terms" context with
    | Some l => dict_set "key_terms" (take 10 (set_to_list l)) context
    | None => context
    end in
  match dict_get "entities" context with
  | Some l => dict_set "entities" (take 10 (set_to_list l)) context
  | None => context
  end.

(** [QueryOrchestrator._query_sequential]; the accumulator of the loop is
    [(all_results, context)]. *)
Definition _query_sequential (query : string) (sources : list string)
    (options : option Options) : M (list QueryResult) :=
  acc <- for_each sources ([], [])
           (fun '(all_results, context) source =>
              let enhanced_query := _enhance_query_with_context query context in
              try_except
                (results <- _query_single_source source enhanced_query options ;;
                 ret (all_results ++ results, _update_context context results))
                (fun _ => ret (all_results, context))) ;;
  ret acc.1.

(** [QueryOrchestrator._query_parallel].  A source named twice has one
    entry in [tasks], so one coroutine, which [gather] runs once and
    whose outcome it reports at both positions. *)
Definition _query_parallel (query : string) (sources : list string)
    (options : option Options) : M (list (string * list QueryResult)) :=
  let tasks := fold_left (fun tasks source => dict_set source tt tasks) sources [] in
  results <- mapM (fun source =>
                     r <- attempt (_query_single_source source query options) ;;
                     ret (source, r))
                  (tasks.*1) ;;
  ret (fold_left
         (fun grouped_results source =>
            match dict_get source results with
            | Some (Ok l) => dict_set source l grouped_results
            | _ => dict_set source [] grouped_results
            end)
         sources []).

(** The dict returned by [analyze_query]. *)
Record Analysis := mkAnalysis {
  query_type : string;
  complexity : string;
  requires_context : bool;
  broad_search : bool;
  recommended_sources : list string;
  features_needed : list string;
  analysis_mode : QueryMode
}.

(** [any(term in text for term in terms)] *)
Definition any_in (terms : list string) (text : string) : bool :=
  existsb (fun term => Py.contains term text) terms.

(** [QueryOrchestrator.analyze_query] *)
Definition analyze_query (query : string) : Analysis :=
  let query_lower := Py.lower query in
  (* Detect query type *)
  let '(query_type, requires_context) :=
    if any_in ["how"; "why"; "explain"] query_lower then ("explanatory", true)
    else if any_in ["when"; "date"; "time"] query_lower then ("temporal", false)
    else if any_in ["who"; "person"; "user"] query_lower then ("entity", false)
    else if any_in ["document"; "file"; "pdf"] query_lower then ("document", false)
    else ("general", false) in
  (* Detect complexity *)
  let '(complexity, broad_search) :=
    if (10 <? Py.split_len query)%nat || any_in ["AND"; "OR"; "NOT"] query
    then ("complex", true) else ("simple", false) in
  (* Recommend sources based on query type *)
  let '(recommended_sources, features_needed) :=
    if String.eqb query_type "explanatory"
    then (["cognee"; "llamacloud"], ["semantic_search"; "concept_linking"])
    else if String.eqb query_type "document"
    then (["llamacloud"; "memos"], ["document_search"; "structured_extraction"])
    else if String.eqb query_type "entity"
    then (["memos"; "cognee"], ["user_context"; "graph_traversal"])
    else (["cognee"; "llamacloud"; "memos"], ["semantic_search"; "fast_retrieval"]) in
  (* Set mode recommendation *)
  let mode :=
    if requires_context then SEQUENTIAL
    else if broad_search then UNIFIED
    else SMART in
  {| query_type := query_type; complexity := complexity;
     requires_context := requires_context; broad_search := broad_search;
     recommended_sources := recommended_sources;
     features_needed := features_needed; analysis_mode := mode |}.

(** [QueryOrchestrator._select_sources_for_query] *)
Definition _select_sources_for_query (adapters : list string)
    (analysis : Analysis) (available_sources : list string) : list string :=
  let recommended := recommended_sources analysis in
  let features_needed := features_needed analysis in
  (* First, add recommended sources that are available *)
  let selected :=
    fold_left
      (fun selected source =>
         if str_in source available_sources && str_in source adapters
         then selected ++ [source] else selected)
      recommended [] in
  (* Then add other sources that have needed features *)
  let selected :=
    fold_left
      (fun selected '(source, config) =>
         if str_in source available_sources && negb (str_in source selected)
         then
           let source_features := default [] (cfg_features config) in
           if existsb (fun feature => str_in feature source_features) features_needed
           then selected ++ [source] else selected
         else selected)
      (MEMORY_SYSTEM_CONFIG settings) selected in
  (* If no sources selected, use all available *)
  match selected with
  | [] => available_sources
  | _ => selected
  end.

(** [n < v] for an [int] [n] and an object [v]. *)
Definition int_lt (n : Z) (v : OptVal) : M bool :=
  match PyVal.as_int v with
  | Some m => ret (n <? m)%Z
  | None => raise TypeError
  end.

(** [QueryOrchestrator._query_smart] *)
Definition _query_smart (query : string) (sources : list string)
    (options : option Options) : M (list QueryResult) :=
  let analysis := analyze_query query in
  st <- get_state ;;
  let selected_sources := _select_sources_for_query (adapters st) analysis sources in
  if requires_context analysis then
    _query_sequential query selected_sources options
  else if broad_search analysis then
    _query_unified query selected_sources options
  else
    match selected_sources with
    | [] => raise IndexError
    | primary_source :: others =>
        results <- _query_single_source primary_source query options ;;
        max_results <- options_get options "max_results" (VInt 10) ;;
        insufficient <- int_lt (Z.of_nat (length results)) max_results ;;
        if insufficient then
          additional_results <- _query_unified query others options ;;
          ret (results ++ additional_results)
        else ret results
    end.

(** The key under which [_deduplicate_results] files a result. *)
Definition content_hash (result : QueryResult) : Z :=
  hash (Py.strip (Py.lower (content result))).

(** The loop of [_deduplicate_results]. *)
Fixpoint dedup_loop (results : list QueryResult) (seen : gset Z)
    (unique_results : list QueryResult) : list QueryResult :=
  match results with
  | [] => unique_results
  | result :: rest =>
      if decide (content_hash result ∈ seen)
      then dedup_loop rest seen unique_results
      else dedup_loop rest ({[content_hash result]} ∪ seen)
                      (unique_results ++ [result])
  end.

(** [QueryOrchestrator._deduplicate_results] *)
Definition _deduplicate_results (results : list QueryResult) : list QueryResult :=
  dedup_loop results ∅ [].

(** [results[:max_results]] *)
Definition slice_results (max_results : OptVal) (results : list QueryResult)
  : M (list QueryResult) :=
  match max_results with
  | VNone => ret results
  | _ => match PyVal.as_int max_results with
         | Some n => ret (Py.slice_to n results)
         | None => raise TypeError
         end
  end.

(** [QueryOrchestrator._process_results] *)
Definition _process_results (results : list QueryResult)
    (options : option Options) : M (list QueryResult) :=
  match results with
  | [] => ret []
  | _ =>
      deduplicate <- options_get options "deduplicate" (VBool true) ;;
      let results :=
        if PyVal.truthy deduplicate then _deduplicate_results results
        else results in
      ranking_strategy <- options_get options "ranking_strategy" (VStr "hybrid") ;;
      results <- rank results ranking_strategy (Some (RANKING_WEIGHTS settings)) ;;
      max_results <- options_get options "max_results" (VInt 10) ;;
      slice_results max_results results
  end.

(** [d[k] = d.get(k, 0) + 1] *)
Definition count_up (k : string) (d : gmap string nat) : gmap string nat :=
  <[k := default 0 (d !! k) + 1]> d.

(** [QueryOrchestrator._update_stats], on the statistics object. *)
Definition _update_stats (mode : QueryMode) (sources : list string)
    (latency : R) (s : QueryStats) : QueryStats :=
  let total_queries := total_queries s + 1 in
  let queries_by_mode := count_up (QueryMode_value mode) (queries_by_mode s) in
  let queries_by_source :=
    fold_left (fun d source => count_up source d) sources (queries_by_source s) in
  let average_latency :=
    ((average_latency s * INR (total_queries - 1) + latency)
     / INR total_queries)%R in
  {| total_queries := total_queries;
     queries_by_mode := queries_by_mode;
     queries_by_source := queries_by_source;
     average_latency := average_latency;
     cache_hit_rate := cache_hit_rate s;
     error_rate := error_rate s |}.

(** [self.stats.cache_hit_rate += 1] *)
Definition count_cache_hit (s : QueryStats) : QueryStats :=
  {| total_queries := total_queries s;
     queries_by_mode := queries_by_mode s;
     queries_by_source := queries_by_source s;
     average_latency := average_latency s;
     cache_hit_rate := (cache_hit_rate s + 1)%R;
     error_rate := error_rate s |}.

(** The source set [query] settles on. *)
Definition resolve_sources (adapters : list string)
    (sources : option (list string)) : list string :=
  match sources with
  | None | Some [] => adapters
  | Some sources => filter (fun s => str_in s adapters = true) sources
  end.

(** [QueryOrchestrator.query] *)
Definition query (query : string) (mode : QueryMode)
    (sources : option (list string)) (options : option Options) : M Response :=
  start_time <- utcnow ;;
  (* Check cache first *)
  let cache_key := _generate_cache_key query mode sources options in
  cached_result <- QueryCache_get cache_key ;;
  match cached_result with
  | Some cached =>
      modify (fun st => with_stats (count_cache_hit (stats st)) st) ;;;
      ret cached
  | None =>
      (* Determine which sources to query *)
      st <- get_state ;;
      let sources := resolve_sources (adapters st) sources in
      (* Execute query based on mode *)
      results <-
        match mode with
        | UNIFIED => l <- _query_unified query sources options ;; ret (Flat l)
        | SEQUENTIAL => l <- _query_sequential query sources options ;; ret (Flat l)
        | PARALLEL => g <- _query_parallel query sources options ;; ret (Grouped g)
        | SMART => l <- _query_smart query sources options ;; ret (Flat l)
        end ;;
      (* Process and rank results *)
      results <-
        match results with
        | Flat l => l' <- _process_results l options ;; ret (Flat l')
        | Grouped g => ret (Grouped g)
        end ;;
      (* Prepare response *)
      t_response <- utcnow ;;
      t_stamp <- utcnow ;;
      let response :=
        {| resp_query := query;
           resp_mode := mode;
           resp_results := results;
           resp_total_results := Results_len results;
           resp_processing_time := (t_response - start_time)%R;
           resp_sources_queried := sources;
           resp_cache_hit := false;
           resp_timestamp := t_stamp |} in
      (* Cache the result *)
      QueryCache_set cache_key response None ;;;
      (* Update statistics *)
      t_stats <- utcnow ;;
      modify (fun st =>
        with_stats (_update_stats mode sources (t_stats - start_time)%R (stats st)) st) ;;;
      ret response
  end.

End Service.

(* ===================================================================== *)
(** * The rest of the service: cache statistics, health, endpoints *)
(* ===================================================================== *)

(** The dict returned by [QueryCache.get_stats]. *)
Record CacheStats := mkCacheStats {
  cs_hits : nat;
  cs_misses : nat;
  cs_hit_rate : R;
  cs_total_requests : nat
}.

(** [QueryCache.get_stats] *)
Definition QueryCache_get_stats (c : QueryCache) : CacheStats :=
  let total_requests := hits c + misses c in
  let hit_rate :=
    if (0 <? total_requests)%nat then (INR (hits c) / INR total_requests)%R
    else 0%R in
  {| cs_hits := hits c; cs_misses := misses c; cs_hit_rate := hit_rate;
     cs_total_requests := total_requests |}.

(** [QueryCache.clear]: the client empties its store. *)
Definition QueryCache_clear : M unit :=
  modify (fun st =>
    let c := cache st in
    with_cache {| backend := ∅; ttl := ttl c; max_size := max_size c;
                  hits := hits c; misses := misses c |} st).

(** What awaiting [adapter.health_check()] ends in. *)
Inductive HealthOutcome :=
| HealthReturned (is_healthy : bool)
| HealthRaised (msg : string).

(** An entry of the ["systems"] list of a health report. *)
Record SystemHealth := mkSystemHealth {
  sys_name : string;
  sys_status : string;
  sys_latency : R;
  sys_last_check : R;
  sys_error : option string
}.

(** The dict returned by [check_health]. *)
Record HealthReport := mkHealthReport {
  hr_service : string;
  hr_status : string;
  hr_version : string;
  hr_systems : list SystemHealth;
  hr_healthy_systems : nat;
  hr_total_systems : nat
}.

(** What an endpoint answers: the body with status 200, or an
    [HTTPException] with its status code. *)
Inductive Reply (A : Type) :=
| Reply200 (body : A)
| ReplyError (status_code : nat).
Arguments Reply200 {A} body.
Arguments ReplyError {A} status_code.

(** [QueryOptions] of [models.py] and the bounds on its [max_results]. *)
Record QueryOptions := mkQueryOptions {
  opt_max_results : Z;
  opt_include_metadata : bool;
  opt_ranking_strategy : RankingStrategy;
  opt_filters : option (string * bool);   (* repr and truth of the filter map *)
  opt_boost_recent : bool;
  opt_deduplicate : bool
}.

Definition QueryOptions_valid (o : QueryOptions) : Prop :=
  (1 <= opt_max_results o <= 100)%Z.

(** [options.dict()]: the fields in declaration order. *)
Definition QueryOptions_dict (o : QueryOptions) : Options :=
  [ ("max_results", VInt (opt_max_results o));
    ("include_metadata", VBool (opt_include_metadata o));
    ("ranking_strategy", VStrategy (opt_ranking_strategy o));
    ("filters", match opt_filters o with
                | None => VNone
                | Some (r, t) => VOther r t
                end);
    ("boost_recent", VBool (opt_boost_recent o));
    ("deduplicate", VBool (opt_deduplicate o)) ].

(** [QueryRequest] of [models.py], with the fields the query endpoint
    reads, and what the model accepts. *)
Record QueryRequest := mkQueryRequest {
  req_query : string;
  req_mode : QueryMode;
  req_sources : option (list string);
  req_options : option QueryOptions
}.

Definition QueryRequest_valid (r : QueryRequest) : Prop :=
  1 <= String.length (req_query r) <= 1000 ∧
  (∀ l, req_sources r = Some l → Forall (λ s, s ∈ MemorySource_values) l) ∧
  (∀ o, req_options r = Some o → QueryOptions_valid o).

(** [QueryResponse] built from the result dict: the ["results"] entry
    must be a list and the queried sources members of [MemorySource];
    results that are [QueryResult] objects already are taken as they
    are. *)
Definition QueryResponse_validate (result : Response) : M Response :=
  match resp_results result with
  | Flat _ =>
      if forallb (fun s => str_in s MemorySource_values)
                 (resp_sources_queried result)
      then ret result else raise ValidationError
  | Grouped _ => raise ValidationError
  end.

(** One key of the dict [analyze_query] returns, as the analysis
    endpoint reads it: a list of strings where the key holds one. *)
Definition Analysis_get_list (analysis : Analysis) (k : string)
  : option (list string) :=
  if String.eqb k "recommended_sources" then Some (recommended_sources analysis)
  else if String.eqb k "features_needed" then Some (features_needed analysis)
  else None.

(** [analysis.get("mode", "smart")] *)
Definition Analysis_get_mode (analysis : Analysis) : string :=
  QueryMode_value (analysis_mode analysis).

(** The answer of the analysis endpoint. *)
Record AnalyzeReply := mkAnalyzeReply {
  ar_query : string;
  ar_analysis : Analysis;
  ar_recommended_mode : string;
  ar_recommended_sources : list string
}.

(** [analyze_query] of [main.py] *)
Definition analyze_endpoint (query : string) : AnalyzeReply :=
  let analysis := analyze_query query in
  {| ar_query := query;
     ar_analysis := analysis;
     ar_recommended_mode := Analysis_get_mode analysis;
     ar_recommended_sources := default [] (Analysis_get_list analysis "sources") |}.

Section Endpoints.

Variable settings : Settings.
Variable clock : nat -> R.
Variable search : string -> string -> option Options -> nat -> Outcome.
Variable hash : string -> Z.
Variable set_to_list : list string -> list string.
(** What the health check of an adapter answers when it is awaited at
    a given reading count of the clock. *)
Variable health_check : string -> nat -> HealthOutcome.

(** The body of the loop of [check_health] for one adapter. *)
Definition check_adapter (name : string) : M SystemHealth :=
  start_time <- utcnow clock ;;
  st <- get_state ;;
  match health_check name (ticks st) with
  | HealthReturned is_healthy =>
      t <- utcnow clock ;;
      last_check <- utcnow clock ;;
      ret {| sys_name := name;
             sys_status := if is_healthy then "healthy" else "unhealthy";
             sys_latency := (t - start_time)%R;
             sys_last_check := last_check;
             sys_error := None |}
  | HealthRaised msg =>
      t <- utcnow clock ;;
      last_check <- utcnow clock ;;
      ret {| sys_name := name;
             sys_status := "error";
             sys_latency := (t - start_time)%R;
             sys_last_check := last_check;
             sys_error := Some msg |}
  end.

(** [QueryOrchestrator.check_health] *)
Definition check_health : M HealthReport :=
  st <- get_state ;;
  health_checks <- for_each (adapters st) []
                     (fun health_checks name =>
                        h <- check_adapter name ;;
                        ret (health_checks ++ [h])) ;;
  let healthy_count :=
    length (filter (λ h, sys_status h = "healthy") health_checks) in
  let overall_status :=
    if (0 <? healthy_count)%nat then "healthy" else "unhealthy" in
  ret {| hr_service := "unified-query-service";
         hr_status := overall_status;
         hr_version := "1.0.0";
         hr_systems := health_checks;
         hr_healthy_systems := healthy_count;
         hr_total_systems := length health_checks |}.

(** [health_check] of [main.py] *)
Definition health_endpoint : M (Reply HealthReport) :=
  health_status <- check_health ;;
  let overall_healthy :=
    existsb (fun system => String.eqb (sys_status system) "healthy")
            (hr_systems health_status) in
  if negb overall_healthy then ret (ReplyError 503)
  else ret (Reply200 health_status).

(** [unified_query] of [main.py]: any exception becomes a reply with
    status 500. *)
Definition unified_query (request : QueryRequest) : M (Reply Response) :=
  try_except
    (result <- query settings clock search hash set_to_list
                 (req_query request) (req_mode request) (req_sources request)
                 (Some (match req_options request with
                        | Some o => QueryOptions_dict o
                        | None => []
                        end)) ;;
     response <- QueryResponse_validate result ;;
     ret (Reply200 response))
    (fun _ => ret (ReplyError 500)).

End Endpoints.

(* ===================================================================== *)
(** * Vocabulary of the properties *)
(* ===================================================================== *)

(** ** Order and reordering *)

(** "[a] may stand before [b]" in a list sorted with [lt]: [b] is not
    strictly smaller. *)
Definition not_after {A : Type} (lt : A -> A -> bool) (a b : A) : Prop :=
  lt b a = false.

(** Two optional lists that differ at most in the order of their
    elements. *)
Definition reordered {A : Type} (a b : option (list A)) : Prop :=
  match a, b with
  | Some x, Some y => x ≡ₚ y
  | None, None => True
  | _, _ => False
  end.

(** ** Deduplication *)

(** The normalized content of a result: lower-cased, surrounding
    whitespace removed. *)
Definition normalized_content (r : QueryResult) : string :=
  Py.strip (Py.lower (content r)).

(** [hash] tells apart the normalized contents that occur in [l]. *)
Definition collision_free (hash : string -> Z) (l : list QueryResult) : Prop :=
  ∀ r1 r2, r1 ∈ l → r2 ∈ l →
    hash (normalized_content r1) = hash (normalized_content r2) →
    normalized_content r1 = normalized_content r2.

(** [r] stands in [l] at a position before which no element has the same
    [key]: it is the first of its class. *)
Definition first_of_class {K : Type} (key : QueryResult -> K)
    (l : list QueryResult) (r : QueryResult) : Prop :=
  ∃ i, l !! i = Some r ∧
       ∀ j r', j < i → l !! j = Some r' → key r' ≠ key r.

(** ** Hybrid ranking *)

(** The composite score in the words of the specification:
    [score*w_relevance + recency_decay*w_recency + trust(source)*w_source_trust
     + preference*w_user], with [recency_decay = exp(-age_hours / 168)] and the
    neutral preference 0.5. *)
Definition recency_decay (age_hours : R) : R := exp (- age_hours / 168).

Definition composite (w_relevance w_recency w_source_trust w_user : R)
    (score age_hours trust : R) : R :=
  (score * w_relevance + recency_decay age_hours * w_recency
   + trust * w_source_trust + 0.5 * w_user)%R.

(** The age in hours of a result at time [now]. *)
Definition age_hours (now : R) (r : QueryResult) : R :=
  ((now - timestamp r) / 3600)%R.

(** The weight map holds the four weights the hybrid strategy reads. *)
Definition has_weights (weights : gmap string R)
    (w_relevance w_recency w_source_trust w_user : R) : Prop :=
  weights !! "relevance" = Some w_relevance ∧
  weights !! "recency" = Some w_recency ∧
  weights !! "source_trust" = Some w_source_trust ∧
  weights !! "user_preference" = Some w_user.

(** The results with their composite scores written in, in input order;
    the [i]-th result is scored at the clock reading [t + i]. *)
Fixpoint hybrid_scored (clock : nat -> R)
    (w_relevance w_recency w_source_trust w_user : R)
    (t : nat) (results : list QueryResult) : list QueryResult :=
  match results with
  | [] => []
  | r :: rest =>
      set_score r (composite w_relevance w_recency w_source_trust w_user
                     (score r) (age_hours (clock t) r)
                     (_get_source_trust (source r)))
      :: hybrid_scored clock w_relevance w_recency w_source_trust w_user (S t) rest
  end.

(** ** Statistics *)

(** How often a source is named in a source list. *)
Definition times_listed (src : string) (sources : list string) : nat :=
  length (filter (λ s, s = src) sources).

(** The counter a statistics dict holds for a key ([0] when absent). *)
Definition counter (d : gmap string nat) (k : string) : nat :=
  default 0 (d !! k).

(** ** The cache *)

(** A sequence of cache [set] operations, one per key, each with the
    default lifetime. *)
Definition cache_sets (clock : nat -> R) (value : Response) (keys : list string)
  : M unit :=
  for_each keys tt (fun _ key => QueryCache_set clock key value None).

(** The state after a cache hit: the hit is counted in the cache and in
    the statistics, the clock was read twice, nothing else moved. *)
Definition after_cache_hit (st : State) : State :=
  {| adapters := adapters st;
     cache := {| backend := backend (cache st); ttl := ttl (cache st);
                 max_size := max_size (cache st);
                 hits := hits (cache st) + 1; misses := misses (cache st) |};
     stats := count_cache_hit (stats st);
     ticks := S (S (ticks st));
     calls := calls st |}.

(** The state once [query] has read the clock and missed the cache. *)
Definition after_cache_miss (st : State) : State :=
  {| adapters := adapters st;
     cache := {| backend := backend (cache st); ttl := ttl (cache st);
                 max_size := max_size (cache st);
                 hits := hits (cache st); misses := misses (cache st) + 1 |};
     stats := stats st;
     ticks := S (S (ticks st));
     calls := calls st |}.

(** ** Running a query *)

(** The response [query] builds from the final results, when the clock
    showed [t0] at the start and the state is [st] after post-processing,
    and the state it leaves behind: the response is filed under [key] and
    the statistics are updated. *)
Definition built_response (clock : nat -> R) (text : string) (mode : QueryMode)
    (results : Results) (srcs : list string) (t0 : R) (st : State) : Response :=
  {| resp_query := text; resp_mode := mode; resp_results := results;
     resp_total_results := Results_len results;
     resp_processing_time := (clock (ticks st) - t0)%R;
     resp_sources_queried := srcs; resp_cache_hit := false;
     resp_timestamp := clock (S (ticks st)) |}.

Definition after_response (clock : nat -> R) (key : string) (response : Response)
    (mode : QueryMode) (srcs : list string) (t0 : R) (st : State) : State :=
  {| adapters := adapters st;
     cache := {| backend := backend_set key response (ttl (cache st))
                                        (clock (S (S (ticks st))))
                                        (backend (cache st));
                 ttl := ttl (cache st); max_size := max_size (cache st);
                 hits := hits (cache st); misses := misses (cache st) |};
     stats := _update_stats mode srcs (clock (S (S (S (ticks st)))) - t0)%R
                            (stats st);
     ticks := S (S (S (S (ticks st))));
     calls := calls st |}.

(** [r] is [r0] with another score. *)
Definition rescored (r0 r : QueryResult) : Prop := r = set_score r0 (score r).


(** The orchestrator after construction and [initialize]. *)
Definition started (settings : Settings) : State :=
  (initialize settings (QueryOrchestrator_init settings)).2.

(** ** Failing and answering sources *)

(** The exception an adapter call ends in, if it does. *)
Definition outcome_error (o : Outcome) : option Exn :=
  match o with
  | Returned _ => None
  | TimedOut => Some TimeoutError
  | Failed msg => Some (AdapterError msg)
  end.

(** An adapter result passes the validation of [QueryResult] for a
    given source. *)
Definition raw_valid (source : string) (raw : RawResult) : Prop :=
  (0 <= default 0 (raw_score raw) <= 1)%R ∧
  str_in source MemorySource_values = true.

(** Attempt [k] on a source ends in an exception: the adapter call times
    out or raises, or one of the results it returns is refused. *)
Definition attempt_fails
    (search : string -> string -> option Options -> nat -> Outcome)
    (source text : string) (options : option Options) (k : nat) : Prop :=
  match search source text options k with
  | Returned raws => ¬ Forall (raw_valid source) raws
  | TimedOut | Failed _ => True
  end.

(** A source fails when its three attempts all do. *)
Definition source_fails
    (search : string -> string -> option Options -> nat -> Outcome)
    (source text : string) (options : option Options) : Prop :=
  ∀ k, k < 3 → attempt_fails search source text options k.


(** ** Concrete environments and inputs *)

(** A clock that stands still. *)
Definition frozen_clock (t : R) : nat -> R := fun _ => t.

(** A hash that is the length of the text, sets iterated in list order,
    an adapter answer with one result, a backend in which the graph
    source always times out, one in which every source answers, and
    settings in which only the graph source is enabled. *)
Definition length_hash (s : string) : Z := Z.of_nat (String.length s).

Definition list_order (l : list string) : list string := l.

Definition one_result (text : string) : list RawResult :=
  [ {| raw_id := Some "1"; raw_content := Some text; raw_score := Some 0.5%R;
       raw_metadata := None; raw_highlights := None |} ].

Definition cognee_down (source query : string) (options : option Options)
    (k : nat) : Outcome :=
  if String.eqb source "cognee" then TimedOut else Returned (one_result source).

Definition all_up (source query : string) (options : option Options)
    (k : nat) : Outcome :=
  Returned (one_result source).

Definition cognee_only : Settings :=
  {| ENABLED_MEMORY_SYSTEMS := ["cognee"];
     MEMORY_SYSTEM_CONFIG := MEMORY_SYSTEM_CONFIG default_settings;
     CACHE_CONFIG := CACHE_CONFIG default_settings;
     RANKING_WEIGHTS := RANKING_WEIGHTS default_settings |}.

(** Pairwise distinct keys: the text of [n] letters. *)
Fixpoint nth_key (n : nat) : string :=
  match n with
  | 0 => ""
  | S n' => String "a" (nth_key n')
  end.

(** A response to store. *)
Definition sample_response : Response :=
  {| resp_query := "q"; resp_mode := UNIFIED; resp_results := Flat [];
     resp_total_results := 0; resp_processing_time := 0%R;
     resp_sources_queried := []; resp_cache_hit := false;
     resp_timestamp := 0%R |}.

(** Sample results. *)
Definition sample_result (ident text src : string) (s t : R) : QueryResult :=
  {| id := ident; content := text; source := src; score := s;
     metadata := []; timestamp := t; highlights := None |}.

Definition three_results : list QueryResult :=
  [ sample_result "1" " Hello" "cognee" 0%R 0%R;
    sample_result "2" "hello " "memos" 0%R 0%R;
    sample_result "3" "World!" "memos" 0%R 0%R ].

Definition fresh_strong : QueryResult :=
  sample_result "a" "fresh" "cognee" 0.9%R 0%R.

Definition week_old_weak : QueryResult :=
  sample_result "b" "old" "elsewhere" 0.8%R (-604800)%R.

(** A started orchestrator whose cache holds [sample_response], good
    until time 10, under the key of the unified query "q". *)
Definition warm_state : State :=
  with_cache
    {| backend := {[ _generate_cache_key "q" UNIFIED None None :=
                       {| entry_value := sample_response; entry_expires := 10%R |} ]};
       ttl := 300%R; max_size := 1000; hits := 0; misses := 0 |}
    (started default_settings).

(** ** What a computation may touch *)

(** [st'] is [st] after clock readings and at most [n] adapter calls:
    the adapters, the cache and the statistics are the same. *)
Definition extends (n : nat) (st st' : State) : Prop :=
  adapters st' = adapters st ∧ cache st' = cache st ∧ stats st' = stats st ∧
  ticks st <= ticks st' ∧
  ∃ l, calls st' = calls st ++ l ∧ length l <= n.

(** A run that touches nothing but the clock and the call log. *)
Definition framed (st st' : State) : Prop := ∃ n, extends n st st'.

(** [m] only reads the clock and makes at most [n] adapter calls, and
    what it returns satisfies [P]. *)
Definition observes {A : Type} (n : nat) (m : M A) (P : A -> Prop) : Prop :=
  ∀ st r st', m st = (r, st') →
    extends n st st' ∧ match r with Ok a => P a | Raise _ => True end.

(** [m] never raises. *)
Definition returns {A : Type} (m : M A) : Prop :=
  ∀ st, ∃ a st', m st = (Ok a, st').

(** A result as [_query_single_source] builds it for a source. *)
Definition valid_result (src : string) (r : QueryResult) : Prop :=
  source r = src ∧ (0 <= score r <= 1)%R.

(** A result of one of the listed sources. *)
Definition result_of (sources : list string) (r : QueryResult) : Prop :=
  ∃ s, s ∈ sources ∧ valid_result s r.

(** The log entries of the first [n] attempts on a source. *)
Definition attempt_calls (src text : string) (n : nat) : list Call :=
  (λ k, (src, text, k)) <$> seq 0 n.

(** The statistics after a run of updates, one per answered request, and
    the sum of the latencies of the run. *)
Definition stats_after (updates : list (QueryMode * list string * R))
    (s : QueryStats) : QueryStats :=
  fold_left (λ s u, _update_stats u.1.1 u.1.2 u.2 s) updates s.

Definition total_latency (updates : list (QueryMode * list string * R)) : R :=
  foldr (λ u acc, (u.2 + acc)%R) 0%R updates.

(** The entry [check_health] writes for an adapter whose check starts
    when the clock has been read [t] times: the check is awaited after one
    more reading, the latency and the time of the check are the next two
    readings. *)
Definition health_entry (clock : nat -> R)
    (health_check : string -> nat -> HealthOutcome) (name : string) (t : nat)
  : SystemHealth :=
  {| sys_name := name;
     sys_status := match health_check name (S t) with
                   | HealthReturned true => "healthy"
                   | HealthReturned false => "unhealthy"
                   | HealthRaised _ => "error"
                   end;
     sys_latency := (clock (S t) - clock t)%R;
     sys_last_check := clock (S (S t));
     sys_error := match health_check name (S t) with
                  | HealthReturned _ => None
                  | HealthRaised msg => Some msg
                  end |}.

(** Some adapter answers its health check with true during a round of
    checks that starts at reading [t]. *)
Definition some_healthy (health_check : string -> nat -> HealthOutcome)
    (names : list string) (t : nat) : Prop :=
  ∃ i name, names !! i = Some name ∧
            health_check name (S (t + 3 * i)) = HealthReturned true.

(** One step of [initialize]: the adapter is created when its system is
    enabled. *)
Definition enable_adapter (settings : Settings) (name : string)
    (a : list string) : list string :=
  if str_in name (ENABLED_MEMORY_SYSTEMS settings)
  then add_adapter name a else a.




(** What a collected task tells about its source: its results, if it
    returned, are the source's own, and it raised exactly when the source
    has an adapter and fails. *)
Definition collected
    (search : string -> string -> option Options -> nat -> Outcome)
    (configured : list string) (text : string) (options : option Options)
    (task : string * Res (list QueryResult)) : Prop :=
  match task.2 with
  | Ok l =>
      Forall (valid_result task.1) l ∧
      (str_in task.1 configured = true →
       ¬ source_fails search task.1 text options) ∧
      (str_in task.1 configured = false → l = [])
  | Raise _ =>
      str_in task.1 configured = true ∧
      source_fails search task.1 text options
  end.

(** The list a parallel query files under a source. *)
Definition group_of (results : list (string * Res (list QueryResult)))
    (source : string) : list QueryResult :=
  match dict_get source results with
  | Some (Ok l) => l
  | _ => []
  end.

(* ===================================================================== *)
(** * Facts about the built-ins *)
(* ===================================================================== *)

Section SortedFacts.
Context {A : Type} (lt : A -> A -> bool).

Lemma insert_Permutation (x : A) (l : list A) : Py.insert lt x l ≡ₚ x :: l.
Proof.
  induction l as [|y l IH]; simpl; [done|].
  destruct (lt y x); [|done].
  rewrite IH. apply Permutation_swap.
Qed.

Lemma sorted_Permutation (l : list A) : Py.sorted lt l ≡ₚ l.
Proof.
  induction l as [|x l IH]; simpl; [done|].
  fold (Py.sorted lt l). by rewrite insert_Permutation, IH.
Qed.


Lemma elem_of_sorted (x : A) (l : list A) : x ∈ Py.sorted lt l ↔ x ∈ l.
Proof. by rewrite sorted_Permutation. Qed.

(** With an asymmetric [lt] whose complement is transitive, insertion
    keeps a list ordered. *)
Lemma insert_StronglySorted (x : A) (l : list A) :
  (∀ a b, lt a b = true → lt b a = false) →
  Transitive (not_after lt) →
  StronglySorted (not_after lt) l → StronglySorted (not_after lt) (Py.insert lt x l).
Proof.
  intros Hasym Htrans. induction 1 as [|y l Hl IH Hy]; simpl.
  - repeat constructor.
  - destruct (lt y x) eqn:Hyx.
    + constructor; [done|].
      rewrite insert_Permutation. constructor; [|done].
      unfold not_after. by apply Hasym.
    + constructor; [by constructor|].
      constructor; [done|].
      eapply Forall_impl; [exact Hy|].
      intros z Hz. by transitivity y.
Qed.

Lemma sorted_StronglySorted (l : list A) :
  (∀ a b, lt a b = true → lt b a = false) →
  Transitive (not_after lt) →
  StronglySorted (not_after lt) (Py.sorted lt l).
Proof.
  intros Hasym Htrans. induction l as [|x l IH]; simpl; [constructor|].
  by apply insert_StronglySorted.
Qed.

(** The sorted list is a function of the elements alone when no two
    distinct elements are equivalent for the order. *)
Lemma sorted_reorder (l1 l2 : list A) :
  (∀ a b, lt a b = true → lt b a = false) →
  Transitive (not_after lt) →
  (∀ a b, a ∈ l1 → b ∈ l1 → lt a b = false → lt b a = false → a = b) →
  l1 ≡ₚ l2 → Py.sorted lt l1 = Py.sorted lt l2.
Proof.
  intros Hasym Htrans Hanti Hperm.
  apply (StronglySorted_unique_strong (not_after lt)).
  - intros a b Ha Hb Hab Hba.
    rewrite elem_of_sorted in Ha. rewrite elem_of_sorted, <- Hperm in Hb.
    by apply Hanti.
  - by apply sorted_StronglySorted.
  - by apply sorted_StronglySorted.
  - by rewrite !sorted_Permutation.
Qed.

(** Stability: elements that the order does not separate keep their
    input order.  [P] selects a class of such elements. *)
Lemma filter_insert (P : A -> Prop) `{!∀ a, Decision (P a)} (x : A) (l : list A) :
  (∀ y, lt y x = true → P x → P y → False) →
  filter P (Py.insert lt x l) = filter P (x :: l).
Proof.
  intros Hsep. induction l as [|y l IH]; simpl; [done|].
  destruct (lt y x) eqn:Hyx; [|done].
  rewrite (filter_cons P y), IH, !filter_cons.
  destruct (decide (P y)) as [Hy|]; [|done].
  destruct (decide (P x)) as [Hx|]; [|done].
  destruct (Hsep y Hyx Hx Hy).
Qed.

Lemma filter_sorted (P : A -> Prop) `{!∀ a, Decision (P a)} (l : list A) :
  (∀ x y, lt y x = true → P x → P y → False) →
  filter P (Py.sorted lt l) = filter P l.
Proof.
  intros Hsep. induction l as [|x l IH]; simpl; [done|].
  fold (Py.sorted lt l).
  rewrite filter_insert by eauto. by rewrite !filter_cons, IH.
Qed.

End SortedFacts.

(** ** Order on strings *)

Lemma String_ltb_leb (a b : string) : String.ltb b a = false ↔ String.leb a b = true.
Proof.
  unfold String.ltb, String.leb. rewrite (String.compare_antisym b a).
  destruct (String.compare a b); simpl; intuition congruence.
Qed.

Lemma String_ltb_asym (a b : string) : String.ltb a b = true → String.ltb b a = false.
Proof.
  unfold String.ltb. rewrite (String.compare_antisym b a).
  destruct (String.compare a b); simpl; congruence.
Qed.

Lemma String_not_after_trans : Transitive (not_after String.ltb).
Proof.
  intros a b c. unfold not_after. rewrite !String_ltb_leb.
  rewrite <- !Is_true_true. intros Hab Hbc.
  exact (transitivity (R := String.le) Hab Hbc).
Qed.

Lemma String_ltb_antisym (a b : string) :
  String.ltb a b = false → String.ltb b a = false → a = b.
Proof.
  rewrite !String_ltb_leb. intros H1 H2. by apply String.leb_antisym.
Qed.

Lemma sorted_strings_reorder (l1 l2 : list string) :
  l1 ≡ₚ l2 → Py.sorted String.ltb l1 = Py.sorted String.ltb l2.
Proof.
  apply sorted_reorder.
  - apply String_ltb_asym.
  - apply String_not_after_trans.
  - intros a b _ _. apply String_ltb_antisym.
Qed.

(** ** Dicts as association lists *)

Lemma dict_wf_key_inj {V : Type} (d : list (string * V)) (a b : string * V) :
  dict_wf d → a ∈ d → b ∈ d → a.1 = b.1 → a = b.
Proof.
  unfold dict_wf. induction d as [|x d IH]; intros Hnd Ha Hb Heq.
  { by apply elem_of_nil in Ha. }
  rewrite fmap_cons in Hnd. apply NoDup_cons in Hnd as [Hx Hnd].
  apply elem_of_cons in Ha as [->|Ha]; apply elem_of_cons in Hb as [->|Hb].
  - done.
  - destruct Hx. rewrite Heq. apply list_elem_of_fmap. by exists b.
  - destruct Hx. rewrite <- Heq. apply list_elem_of_fmap. by exists a.
  - by apply IH.
Qed.

Lemma sorted_items_reorder (o1 o2 : Options) :
  dict_wf o1 → o1 ≡ₚ o2 → Py.sorted item_lt o1 = Py.sorted item_lt o2.
Proof.
  intros Hwf. apply sorted_reorder.
  - intros a b. apply String_ltb_asym.
  - intros a b c. unfold not_after, item_lt. apply String_not_after_trans.
  - intros a b Ha Hb Hab Hba. apply (dict_wf_key_inj o1); [done..|].
    by apply String_ltb_antisym.
Qed.

(* ===================================================================== *)
(** * Properties of the orchestrator, the ranking engine and the cache *)
(* ===================================================================== *)

(** ** Cache keys *)

(** C5.  Two requests with the same query text and mode whose source
    lists are reorderings of each other and whose options dicts hold the
    same entries in a different insertion order get the same cache key,
    character for character. *)
Theorem cache_key_order_independent
    (query : string) (mode : QueryMode)
    (sources sources' : option (list string)) (options options' : option Options) :
  reordered sources sources' →
  reordered options options' →
  (∀ o, options = Some o → dict_wf o) →
  _generate_cache_key query mode sources options
  = _generate_cache_key query mode sources' options'.
Proof.
  intros Hs Ho Hwf. unfold _generate_cache_key.
  assert (Py.sorted String.ltb (default [] sources)
          = Py.sorted String.ltb (default [] sources')) as ->.
  { destruct sources as [l|], sources' as [l'|]; simpl in *; try done.
    by apply sorted_strings_reorder. }
  destruct options as [o|], options' as [o'|]; simpl in Ho; try done.
  assert (Py.sorted item_lt o = Py.sorted item_lt o') as Hitems.
  { apply sorted_items_reorder; [by apply Hwf|done]. }
  destruct o as [|x o], o' as [|x' o'].
  - done.
  - by apply Permutation_nil_cons in Ho.
  - symmetry in Ho. by apply Permutation_nil_cons in Ho.
  - cbv beta iota zeta. by rewrite Hitems.
Qed.

(** ** Deduplication *)

Section Dedup.
Variable hash : string -> Z.

Lemma dedup_loop_acc (l : list QueryResult) (seen : gset Z) (acc : list QueryResult) :
  dedup_loop hash l seen acc = acc ++ dedup_loop hash l seen [].
Proof.
  revert seen acc. induction l as [|r l IH]; intros seen acc; simpl.
  - by rewrite app_nil_r.
  - destruct (decide (content_hash hash r ∈ seen)); [apply IH|].
    rewrite (IH _ (acc ++ [r])), (IH _ ([] ++ [r])). by rewrite <- app_assoc.
Qed.

Lemma dedup_loop_cons (r : QueryResult) (l : list QueryResult) (seen : gset Z) :
  dedup_loop hash (r :: l) seen [] =
  if decide (content_hash hash r ∈ seen) then dedup_loop hash l seen []
  else r :: dedup_loop hash l ({[content_hash hash r]} ∪ seen) [].
Proof.
  simpl. destruct (decide (content_hash hash r ∈ seen)); [done|].
  by rewrite dedup_loop_acc.
Qed.

Lemma dedup_loop_sublist (l : list QueryResult) (seen : gset Z) :
  sublist (dedup_loop hash l seen []) l.
Proof.
  revert seen. induction l as [|r l IH]; intros seen; [done|].
  rewrite dedup_loop_cons. destruct (decide (content_hash hash r ∈ seen)).
  - by apply sublist_cons.
  - by apply sublist_skip.
Qed.

Lemma dedup_loop_unseen (l : list QueryResult) (seen : gset Z) (r : QueryResult) :
  r ∈ dedup_loop hash l seen [] → content_hash hash r ∉ seen.
Proof.
  revert seen. induction l as [|x l IH]; intros seen.
  { simpl. by intros ?%elem_of_nil. }
  rewrite dedup_loop_cons. destruct (decide (content_hash hash x ∈ seen)); [by apply IH|].
  intros [->|Hr%IH]%elem_of_cons; [done|]. set_solver.
Qed.

Lemma dedup_loop_NoDup (l : list QueryResult) (seen : gset Z) :
  NoDup (content_hash hash <$> dedup_loop hash l seen []).
Proof.
  revert seen. induction l as [|x l IH]; intros seen.
  { simpl. constructor. }
  rewrite dedup_loop_cons. destruct (decide (content_hash hash x ∈ seen)); [by apply IH|].
  rewrite fmap_cons. constructor; [|by apply IH].
  intros (r & Hk & Hr%dedup_loop_unseen)%list_elem_of_fmap. set_solver.
Qed.

(** The loop keeps exactly the results whose key is new and which come
    first among the results with that content_hash hash. *)
Lemma dedup_loop_first (l : list QueryResult) (seen : gset Z) (r : QueryResult) :
  r ∈ dedup_loop hash l seen [] ↔
  ((content_hash hash r ∉ seen) ∧ first_of_class (content_hash hash) l r).
Proof.
  revert seen. induction l as [|x l IH]; intros seen.
  { simpl. split; [by intros ?%elem_of_nil|].
    intros (_ & i & Hi & _). by rewrite lookup_nil in Hi. }
  rewrite dedup_loop_cons. destruct (decide (content_hash hash x ∈ seen)) as [Hx|Hx].
  - rewrite IH. split.
    + intros (Hr & i & Hi & Hfirst). split; [done|].
      exists (S i). split; [done|]. intros [|j] r' Hj Hr'; simpl in Hr'.
      * injection Hr' as <-. congruence.
      * apply (Hfirst j); [lia|done].
    + intros (Hr & [|i] & Hi & Hfirst); simpl in Hi.
      * injection Hi as <-. done.
      * split; [done|]. exists i. split; [done|].
        intros j r' Hj Hr'. apply (Hfirst (S j)); [lia|done].
  - rewrite elem_of_cons, IH. split.
    + intros [->|(Hr & i & Hi & Hfirst)].
      * split; [done|]. exists 0. split; [done|]. intros; lia.
      * apply not_elem_of_union in Hr as [Hne Hr].
        rewrite elem_of_singleton in Hne.
        split; [done|]. exists (S i). split; [done|].
        intros [|j] r' Hj Hr'; simpl in Hr'.
        -- injection Hr' as <-. congruence.
        -- apply (Hfirst j); [lia|done].
    + intros (Hr & [|i] & Hi & Hfirst); simpl in Hi.
      * injection Hi as <-. by left.
      * right. split.
        -- apply not_elem_of_union. split; [|done].
           rewrite elem_of_singleton. intros Heq.
           apply (Hfirst 0 x); [lia|done|done].
        -- exists i. split; [done|].
           intros j r' Hj Hr'. apply (Hfirst (S j)); [lia|done].
Qed.

(** A list that is already free of repeated keys goes through the loop
    unchanged. *)
Lemma dedup_loop_fixed (l : list QueryResult) (seen : gset Z) :
  NoDup (content_hash hash <$> l) → (∀ r, r ∈ l → content_hash hash r ∉ seen) → dedup_loop hash l seen [] = l.
Proof.
  revert seen. induction l as [|x l IH]; intros seen Hnd Hseen; [done|].
  rewrite fmap_cons in Hnd. apply NoDup_cons in Hnd as [Hx Hnd].
  rewrite dedup_loop_cons. destruct (decide (content_hash hash x ∈ seen)) as [Hin|_].
  { destruct (Hseen x); [by left|done]. }
  f_equal. apply IH; [done|].
  intros r Hr. apply not_elem_of_union. split; [|apply Hseen; by right].
  rewrite elem_of_singleton. intros Heq. apply Hx.
  rewrite <- Heq. apply list_elem_of_fmap. by exists r.
Qed.

Lemma deduplicate_idempotent (l : list QueryResult) :
  _deduplicate_results hash (_deduplicate_results hash l)
  = _deduplicate_results hash l.
Proof.
  unfold _deduplicate_results. apply dedup_loop_fixed.
  - apply dedup_loop_NoDup.
  - intros r _. apply not_elem_of_empty.
Qed.

End Dedup.

(** C6.  Deduplicating twice gives what deduplicating once gives.  The
    output is a subsequence of the input (input order is kept), holds no
    two results with the same hash of the normalized content, and
    consists of exactly those results that stand first in the input among
    the results with their hash.  When the hash tells the normalized
    contents of the input apart, this reads: the output holds no two
    results with the same normalized content and consists of exactly the
    first occurrence of each class of results with identical normalized
    content; all later members of a class are dropped. *)
Theorem deduplicate_keeps_first_occurrences
    (hash : string -> Z) (results : list QueryResult) :
  let unique_results := _deduplicate_results hash results in
  _deduplicate_results hash unique_results = unique_results ∧
  sublist unique_results results ∧
  NoDup (content_hash hash <$> unique_results) ∧
  (∀ r, r ∈ unique_results ↔ first_of_class (content_hash hash) results r) ∧
  (collision_free hash results →
     NoDup (normalized_content <$> unique_results) ∧
     ∀ r, r ∈ unique_results ↔ first_of_class normalized_content results r).
Proof.
  intros unique_results.
  assert (Hsub : sublist unique_results results) by apply dedup_loop_sublist.
  assert (Hin : ∀ r, r ∈ unique_results → r ∈ results).
  { intros r Hr. by eapply elem_of_sublist. }
  assert (Hnd : NoDup (content_hash hash <$> unique_results))
    by apply dedup_loop_NoDup.
  assert (Hfirst : ∀ r, r ∈ unique_results ↔
                        first_of_class (content_hash hash) results r).
  { intros r. unfold unique_results, _deduplicate_results.
    rewrite dedup_loop_first. split; [by intros [_ ?]|].
    intros ?. split; [apply not_elem_of_empty|done]. }
  split; [apply deduplicate_idempotent|].
  split; [done|]. split; [done|]. split; [done|].
  intros Hfree. split.
  - clear Hsub Hfirst. clearbody unique_results.
    induction unique_results as [|x l IH]; [constructor|].
    rewrite fmap_cons in Hnd. apply NoDup_cons in Hnd as [Hx Hnd].
    rewrite fmap_cons. constructor.
    + intros (r & Hk & Hr)%list_elem_of_fmap. apply Hx.
      apply list_elem_of_fmap. exists r. split; [|done].
      unfold content_hash. fold (normalized_content x) (normalized_content r).
      by rewrite Hk.
    + apply IH; [|done]. intros r Hr. apply Hin. by right.
  - intros r. rewrite Hfirst. split.
    + intros (i & Hi & Hbefore). exists i. split; [done|].
      intros j r' Hj Hr' Heq. apply (Hbefore j r' Hj Hr').
      unfold content_hash. fold (normalized_content r') (normalized_content r).
      by rewrite Heq.
    + intros (i & Hi & Hbefore). exists i. split; [done|].
      intros j r' Hj Hr' Heq. apply (Hbefore j r' Hj Hr').
      apply Hfree; [by eapply list_elem_of_lookup_2..|done].
Qed.

(** ** The state monad *)

Lemma bind_ok {A B} (m : M A) (f : A -> M B) (st st' : State) (a : A) :
  m st = (Ok a, st') → bind m f st = f a st'.
Proof. unfold bind. by intros ->. Qed.

(** ** Statistics *)

Lemma counter_count_up (k k' : string) (d : gmap string nat) :
  counter (count_up k d) k' = counter d k' + (if decide (k = k') then 1 else 0).
Proof.
  unfold counter, count_up. destruct (decide (k = k')) as [->|Hne].
  - by rewrite lookup_insert_eq.
  - rewrite lookup_insert_ne by done. lia.
Qed.

Lemma counter_fold_count_up (sources : list string) (d : gmap string nat) (src : string) :
  counter (fold_left (fun d source => count_up source d) sources d) src
  = counter d src + times_listed src sources.
Proof.
  unfold times_listed. revert d.
  induction sources as [|s sources IH]; intros d; simpl; [lia|].
  rewrite IH, counter_count_up, filter_cons.
  destruct (decide (s = src)); simpl; lia.
Qed.

Lemma times_listed_NoDup (src : string) (sources : list string) :
  NoDup sources → src ∈ sources → times_listed src sources = 1.
Proof.
  unfold times_listed. induction 1 as [|s sources Hs Hnd IH]; intros Hin.
  { by apply elem_of_nil in Hin. }
  rewrite filter_cons. destruct (decide (s = src)) as [->|Hne]; simpl.
  - f_equal. apply length_zero_iff_nil, elem_of_nil_inv.
    intros x [-> Hx]%list_elem_of_filter. done.
  - apply IH. by apply elem_of_cons in Hin as [->|Hin].
Qed.

Lemma QueryMode_value_inj (m1 m2 : QueryMode) :
  QueryMode_value m1 = QueryMode_value m2 → m1 = m2.
Proof. by destruct m1, m2. Qed.

(** C9.  One statistics update adds one to the total, one to the counter
    of the mode, and one to the counter of a source for each time the
    source list names it (so exactly one for each source of a list
    without repetitions); the counters of the other modes, of the sources
    that were not queried, and the hit and error figures stay as they
    were.  Over exact arithmetic the new average latency is
    [avg + (latency - avg) / n], [n] being the new total. *)
Theorem update_stats_incremental
    (mode : QueryMode) (sources : list string) (latency : R) (s : QueryStats) :
  let s' := _update_stats mode sources latency s in
  let n := INR (total_queries s') in
  total_queries s' = total_queries s + 1 ∧
  average_latency s'
    = (average_latency s + (latency - average_latency s) / n)%R ∧
  counter (queries_by_mode s') (QueryMode_value mode)
    = counter (queries_by_mode s) (QueryMode_value mode) + 1 ∧
  (∀ m, m ≠ mode →
     counter (queries_by_mode s') (QueryMode_value m)
     = counter (queries_by_mode s) (QueryMode_value m)) ∧
  (∀ src, counter (queries_by_source s') src
          = counter (queries_by_source s) src + times_listed src sources) ∧
  (NoDup sources → ∀ src, src ∈ sources →
     counter (queries_by_source s') src = counter (queries_by_source s) src + 1) ∧
  (∀ src, src ∉ sources →
     counter (queries_by_source s') src = counter (queries_by_source s) src) ∧
  cache_hit_rate s' = cache_hit_rate s ∧
  error_rate s' = error_rate s.
Proof.
  intros s' n. subst s' n. unfold _update_stats. simpl.
  repeat split.
  - replace (total_queries s + 1 - 1) with (total_queries s) by lia.
    rewrite plus_INR. simpl (INR 1).
    pose proof (pos_INR (total_queries s)). field. lra.
  - rewrite counter_count_up. by rewrite decide_True.
  - intros m Hm. rewrite counter_count_up. rewrite decide_False; [lia|].
    intros Heq. by apply QueryMode_value_inj in Heq.
  - intros src. apply counter_fold_count_up.
  - intros Hnd src Hin.
    by rewrite counter_fold_count_up, times_listed_NoDup.
  - intros src Hout. rewrite counter_fold_count_up.
    unfold times_listed.
    replace (filter (λ s0, s0 = src) sources) with (@nil string); [simpl; lia|].
    symmetry. apply elem_of_nil_inv.
    intros x [-> Hx]%list_elem_of_filter. done.
Qed.

(** ** Hybrid ranking *)

Lemma with_ticks_with_ticks (n m : nat) (st : State) :
  with_ticks n (with_ticks m st) = with_ticks n st.
Proof. done. Qed.

Lemma with_ticks_same (st : State) : with_ticks (ticks st) st = st.
Proof. by destruct st. Qed.

Lemma source_trust_bounds (source : string) :
  (0 <= _get_source_trust source <= 1)%R.
Proof.
  unfold _get_source_trust, dict_get.
  repeat match goal with
         | |- context [String.eqb ?a ?b] => destruct (String.eqb a b)
         end; unfold from_option, Datatypes.id; lra.
Qed.

Lemma recency_decay_bounds (age : R) :
  (0 <= age)%R → (0 < recency_decay age <= 1)%R.
Proof.
  intros Hage. unfold recency_decay. split; [apply exp_pos|].
  rewrite <- exp_0.
  destruct (Req_dec age 0) as [->|Hne].
  - right. f_equal. lra.
  - left. apply exp_increasing. lra.
Qed.

Lemma composite_bounds (w1 w2 w3 w4 s age trust : R) :
  (0 <= w1)%R → (0 <= w2)%R → (0 <= w3)%R → (0 <= w4)%R →
  (w1 + w2 + w3 + w4 = 1)%R →
  (0 <= s <= 1)%R → (0 <= age)%R → (0 <= trust <= 1)%R →
  (0 <= composite w1 w2 w3 w4 s age trust <= 1)%R.
Proof.
  intros H1 H2 H3 H4 Hsum Hs Hage Htrust.
  pose proof (recency_decay_bounds age Hage) as Hd.
  unfold composite. set (d := recency_decay age) in *. clearbody d.
  assert (0 <= s * w1 <= w1)%R by nra.
  assert (0 <= d * w2 <= w2)%R by nra.
  assert (0 <= trust * w3 <= w3)%R by nra.
  lra.
Qed.

Section Hybrid.
Variable clock : nat -> R.
Variables (weights : gmap string R) (w1 w2 w3 w4 : R).
Hypothesis Hweights : has_weights weights w1 w2 w3 w4.

Lemma hybrid_score_ok (r : QueryResult) (st : State) :
  hybrid_score clock weights r st
  = (Ok (set_score r (composite w1 w2 w3 w4 (score r)
                        (age_hours (clock (ticks st)) r)
                        (_get_source_trust (source r)))),
     with_ticks (S (ticks st)) st).
Proof using Hweights.
  destruct Hweights as (Hw1 & Hw2 & Hw3 & Hw4).
  unfold hybrid_score, weight, bind, utcnow, ret.
  by rewrite Hw1, Hw2, Hw3, Hw4.
Qed.

Lemma mapM_hybrid_score (results : list QueryResult) (st : State) :
  mapM (hybrid_score clock weights) results st
  = (Ok (hybrid_scored clock w1 w2 w3 w4 (ticks st) results),
     with_ticks (ticks st + length results) st).
Proof using Hweights.
  revert st. induction results as [|r results IH]; intros st; simpl.
  - unfold ret. by rewrite Nat.add_0_r, with_ticks_same.
  - erewrite bind_ok by apply hybrid_score_ok.
    erewrite bind_ok by apply IH.
    unfold ret. simpl. rewrite with_ticks_with_ticks.
    by replace (ticks st + S (length results)) with (S (ticks st + length results)) by lia.
Qed.

Lemma rank_hybrid_ok (results : list QueryResult) (st : State) :
  _rank_hybrid clock results weights st
  = (Ok (Py.sorted_desc score
           (hybrid_scored clock w1 w2 w3 w4 (ticks st) results)),
     with_ticks (ticks st + length results) st).
Proof using Hweights.
  unfold _rank_hybrid. by erewrite bind_ok by apply mapM_hybrid_score.
Qed.

Lemma hybrid_scored_bounded (results : list QueryResult) (t : nat) :
  (0 <= w1)%R → (0 <= w2)%R → (0 <= w3)%R → (0 <= w4)%R →
  (w1 + w2 + w3 + w4 = 1)%R →
  (∀ i r, results !! i = Some r →
     (0 <= score r <= 1)%R ∧ (0 <= age_hours (clock (t + i)%nat) r)%R) →
  Forall (λ r, (0 <= score r <= 1)%R) (hybrid_scored clock w1 w2 w3 w4 t results).
Proof.
  intros H1 H2 H3 H4 Hsum. revert t.
  induction results as [|r results IH]; intros t Hres; simpl; constructor.
  - destruct (Hres 0 r eq_refl) as [Hs Hage]. rewrite Nat.add_0_r in Hage.
    simpl. apply composite_bounds; auto using source_trust_bounds.
  - apply IH. intros i r' Hi. specialize (Hres (S i) r' Hi).
    by replace (S t + i) with (t + S i) by lia.
Qed.

End Hybrid.

(** C7.  When the weight map holds four non-negative weights that sum to
    one, and every result has a relevance score in [0,1] and a
    non-negative age when it is scored, hybrid ranking returns, and every
    result it returns carries a composite score in [0,1].  (The recency
    decay, the trust of the source and the preference constant lie in
    [0,1] by themselves.) *)
Theorem hybrid_score_in_unit_interval
    (clock : nat -> R) (weights : gmap string R) (w1 w2 w3 w4 : R)
    (results : list QueryResult) (st : State) :
  has_weights weights w1 w2 w3 w4 →
  (0 <= w1)%R → (0 <= w2)%R → (0 <= w3)%R → (0 <= w4)%R →
  (w1 + w2 + w3 + w4 = 1)%R →
  (∀ i r, results !! i = Some r →
     (0 <= score r <= 1)%R ∧ (0 <= age_hours (clock (ticks st + i)%nat) r)%R) →
  ∃ ranked st',
    _rank_hybrid clock results weights st = (Ok ranked, st') ∧
    ranked ≡ₚ hybrid_scored clock w1 w2 w3 w4 (ticks st) results ∧
    Forall (λ r, (0 <= score r <= 1)%R) ranked.
Proof.
  intros Hw H1 H2 H3 H4 Hsum Hres.
  eexists _, _. split; [by apply rank_hybrid_ok|].
  split; [apply sorted_Permutation|].
  unfold Py.sorted_desc. rewrite sorted_Permutation.
  by apply hybrid_scored_bounded.
Qed.

Lemma Rltb_true (x y : R) : Py.Rltb x y = true ↔ (x < y)%R.
Proof. unfold Py.Rltb. destruct (Rlt_dec x y); intuition congruence. Qed.

Lemma Rltb_false (x y : R) : Py.Rltb x y = false ↔ (y <= x)%R.
Proof. unfold Py.Rltb. destruct (Rlt_dec x y); split; try done; lra. Qed.

Lemma StronglySorted_weaken {A : Type} (R1 R2 : relation A) (l : list A) :
  (∀ a b, R1 a b → R2 a b) → StronglySorted R1 l → StronglySorted R2 l.
Proof.
  intros Himpl. induction 1 as [|x l Hl IH Hx]; constructor; [done|].
  eapply Forall_impl; [exact Hx|]. intros y. apply Himpl.
Qed.

Lemma sorted_desc_StronglySorted {A : Type} (key : A -> R) (l : list A) :
  StronglySorted (λ a b, (key b <= key a)%R) (Py.sorted_desc key l).
Proof.
  unfold Py.sorted_desc.
  eapply StronglySorted_weaken; [|apply sorted_StronglySorted].
  - intros a b. unfold not_after. by rewrite Rltb_false.
  - intros a b. rewrite Rltb_true, Rltb_false. lra.
  - intros a b c. unfold not_after. rewrite !Rltb_false. lra.
Qed.

Lemma sorted_desc_stable {A : Type} (key : A -> R) (v : R) (l : list A) :
  filter (λ a, key a = v) (Py.sorted_desc key l) = filter (λ a, key a = v) l.
Proof.
  unfold Py.sorted_desc. apply filter_sorted.
  intros x y Hlt%Rltb_true Hx Hy. lra.
Qed.

Lemma default_weights_has :
  has_weights default_weights 0.4%R 0.2%R 0.2%R 0.2%R.
Proof. unfold has_weights, default_weights. by simplify_map_eq. Qed.

(** C8.  With the default weights, a result with score 0.9, age 0 hours
    and source trust 0.9 gets the composite score 0.84, a result with
    score 0.8, age 168 hours and source trust 0.5 gets
    [0.52 + 0.2 * exp(-1)], which is strictly less, and hybrid ranking
    puts the first before the second whichever way round they come in.
    For any weights and results, the ranked list is the list of scored
    results rearranged in descending order of composite score, and the
    results with one and the same composite score stand in it in their
    input order. *)
Theorem hybrid_order_deterministic (clock : nat -> R) :
  (∀ (r1 r2 : QueryResult) (st : State) (results : list QueryResult),
     score r1 = 0.9%R → _get_source_trust (source r1) = 0.9%R →
     score r2 = 0.8%R → _get_source_trust (source r2) = 0.5%R →
     (results = [r1; r2] ∧
        age_hours (clock (ticks st)) r1 = 0%R ∧
        age_hours (clock (S (ticks st))) r2 = 168%R) ∨
     (results = [r2; r1] ∧
        age_hours (clock (ticks st)) r2 = 168%R ∧
        age_hours (clock (S (ticks st))) r1 = 0%R) →
     ∃ r1' r2' st',
       _rank_hybrid clock results default_weights st = (Ok [r1'; r2'], st') ∧
       r1' = set_score r1 0.84%R ∧
       r2' = set_score r2 (0.52 + 0.2 * exp (-1))%R ∧
       (score r1' > score r2')%R) ∧
  (∀ (weights : gmap string R) (w1 w2 w3 w4 : R)
     (results : list QueryResult) (st : State),
     has_weights weights w1 w2 w3 w4 →
     ∃ ranked st',
       _rank_hybrid clock results weights st = (Ok ranked, st') ∧
       ranked ≡ₚ hybrid_scored clock w1 w2 w3 w4 (ticks st) results ∧
       StronglySorted (λ a b, (score b <= score a)%R) ranked ∧
       ∀ v, filter (λ r, score r = v) ranked
            = filter (λ r, score r = v)
                     (hybrid_scored clock w1 w2 w3 w4 (ticks st) results)).
Proof.
  split.
  - intros r1 r2 st results Hs1 Ht1 Hs2 Ht2 Hcase.
    assert (He : (exp (-1) < 1)%R).
    { rewrite <- exp_0. apply exp_increasing. lra. }
    assert (Hc1 : ∀ t, age_hours (clock t) r1 = 0%R →
              composite 0.4 0.2 0.2 0.2 (score r1) (age_hours (clock t) r1)
                        (_get_source_trust (source r1)) = 0.84%R).
    { intros t ->. rewrite Hs1, Ht1. unfold composite, recency_decay.
      replace (exp (Ropp 0 / 168)) with (exp 0) by (f_equal; lra).
      rewrite exp_0. lra. }
    assert (Hc2 : ∀ t, age_hours (clock t) r2 = 168%R →
              composite 0.4 0.2 0.2 0.2 (score r2) (age_hours (clock t) r2)
                        (_get_source_trust (source r2))
              = (0.52 + 0.2 * exp (-1))%R).
    { intros t ->. rewrite Hs2, Ht2. unfold composite, recency_decay.
      replace (exp (Ropp 168 / 168)) with (exp (-1)) by (f_equal; lra). lra. }
    exists (set_score r1 0.84%R), (set_score r2 (0.52 + 0.2 * exp (-1))%R).
    eexists. split; [|split; [done|split; [done|simpl; lra]]].
    rewrite (rank_hybrid_ok clock _ _ _ _ _ default_weights_has).
    f_equal. f_equal.
    destruct Hcase as [(-> & Ha1 & Ha2)|(-> & Ha2 & Ha1)]; simpl;
      rewrite (Hc1 _ Ha1), (Hc2 _ Ha2);
      unfold Py.sorted_desc, Py.sorted; simpl.
    + replace (Py.Rltb 0.84 (0.52 + 0.2 * exp (-1))) with false; [done|].
      symmetry. apply Rltb_false. lra.
    + replace (Py.Rltb (0.52 + 0.2 * exp (-1)) 0.84) with true; [done|].
      symmetry. apply Rltb_true. lra.
  - intros weights w1 w2 w3 w4 results st Hw.
    eexists _, _. split; [by apply rank_hybrid_ok|].
    split; [apply sorted_Permutation|].
    split; [apply sorted_desc_StronglySorted|].
    intros v. apply sorted_desc_stable.
Qed.

(** ** The cache *)

Section CacheFacts.
Variable clock : nat -> R.

Lemma QueryCache_set_run (key : string) (value : Response) (st : State) :
  QueryCache_set clock key value None st
  = (Ok tt,
     with_cache
       {| backend := backend_set key value (ttl (cache st)) (clock (ticks st))
                                 (backend (cache st));
          ttl := ttl (cache st); max_size := max_size (cache st);
          hits := hits (cache st); misses := misses (cache st) |}
       (with_ticks (S (ticks st)) st)).
Proof. done. Qed.

(** [set] never removes anything: every sequence of [set]s on fresh,
    pairwise distinct keys makes the store grow by one entry per key,
    whatever [max_size] is, and leaves [max_size] and [ttl] as they
    were. *)
Lemma cache_sets_grow (value : Response) (keys : list string) (st : State) :
  NoDup keys →
  (∀ k, k ∈ keys → backend (cache st) !! k = None) →
  ∃ st', cache_sets clock value keys st = (Ok tt, st') ∧
         size (backend (cache st')) = size (backend (cache st)) + length keys ∧
         max_size (cache st') = max_size (cache st) ∧
         ttl (cache st') = ttl (cache st) ∧
         (∀ k e, backend (cache st') !! k = Some e →
            backend (cache st) !! k = Some e ∨
            ∃ n, entry_expires e = (clock n + ttl (cache st))%R).
Proof.
  unfold cache_sets. revert st.
  induction keys as [|key keys IH]; intros st Hnd Hfresh; simpl.
  { exists st. repeat split; [lia|]. intros k e He. by left. }
  apply NoDup_cons in Hnd as [Hkey Hnd].
  erewrite bind_ok by apply QueryCache_set_run.
  edestruct IH as (st' & Hrun & Hsize & Hmax & Httl & Hexp); [done| |].
  2: { exists st'. split; [exact Hrun|]. simpl in *.
       rewrite Hsize, Hmax, Httl. unfold backend_set.
       rewrite map_size_insert_None by (apply Hfresh; by left).
       repeat split; [lia|].
       intros k e He. destruct (Hexp k e He) as [Hold|Hnew]; [|by right].
       unfold backend_set in Hold.
       destruct (decide (key = k)) as [->|Hne].
       - rewrite lookup_insert_eq in Hold. injection Hold as <-.
         right. by eexists.
       - rewrite lookup_insert_ne in Hold by done. by left. }
  intros k Hk. simpl. unfold backend_set.
  rewrite lookup_insert_ne; [apply Hfresh; by right|].
  intros ->. done.
Qed.

End CacheFacts.

Lemma nth_key_length (n : nat) : String.length (nth_key n) = n.
Proof. induction n; simpl; congruence. Qed.

Lemma nth_key_NoDup (n : nat) : NoDup (nth_key <$> seq 0 n).
Proof.
  apply NoDup_fmap_2; [|apply NoDup_seq].
  intros a b Heq. by rewrite <- (nth_key_length a), <- (nth_key_length b), Heq.
Qed.

(** C3.  The property asked for: the cache never holds more than
    [max_size] live entries.  The code departs from it: with the settings
    of [config.py] the cache is created with [max_size = 1000], and
    storing responses under 1001 distinct keys, the clock standing still,
    leaves 1001 live entries in the store. *)
Theorem cache_exceeds_max_size :
  let st := QueryOrchestrator_init default_settings in
  let keys := nth_key <$> seq 0 1001 in
  ∃ st', cache_sets (frozen_clock 0) sample_response keys st = (Ok tt, st') ∧
         max_size (cache st') = 1000 ∧
         size (live_entries 0 (backend (cache st'))) = 1001.
Proof.
  intros st keys.
  assert (Hempty : backend (cache st) = ∅) by done.
  assert (Hlife : ttl (cache st) = 300%R) by done.
  assert (Hbound : max_size (cache st) = 1000) by done.
  destruct (cache_sets_grow (frozen_clock 0) sample_response keys st)
    as (st' & Hrun & Hsize & Hmax & Httl & Hexp).
  { apply nth_key_NoDup. }
  { intros k _. rewrite Hempty. apply lookup_empty. }
  exists st'. split; [done|]. split; [congruence|].
  unfold live_entries. rewrite map_filter_id.
  - rewrite Hsize, Hempty, map_size_empty. unfold keys.
    by rewrite length_fmap, length_seq.
  - intros k e He. destruct (Hexp k e He) as [Hold|[n Hn]].
    + by rewrite Hempty, lookup_empty in Hold.
    + simpl. rewrite Hn, Hlife. unfold frozen_clock. lra.
Qed.

(** C10.  When the cache serves the key of the request, [query] returns
    the cached response; no adapter is called, the store is not written,
    and of the statistics only the hit figures move: the cache's [hits]
    and the statistics' [cache_hit_rate] go up by one. *)
Theorem cache_hit_frame
    (settings : Settings) (clock : nat -> R)
    (search : string -> string -> option Options -> nat -> Outcome)
    (hash : string -> Z) (set_to_list : list string -> list string)
    (text : string) (mode : QueryMode) (sources : option (list string))
    (options : option Options) (st : State) (cached : Response) :
  backend_get (_generate_cache_key text mode sources options)
              (clock (S (ticks st))) (backend (cache st)) = Some cached →
  let out := query settings clock search hash set_to_list
                   text mode sources options st in
  out = (Ok cached, after_cache_hit st) ∧
  calls out.2 = calls st ∧
  backend (cache out.2) = backend (cache st) ∧
  total_queries (stats out.2) = total_queries (stats st) ∧
  queries_by_mode (stats out.2) = queries_by_mode (stats st) ∧
  queries_by_source (stats out.2) = queries_by_source (stats st) ∧
  average_latency (stats out.2) = average_latency (stats st) ∧
  error_rate (stats out.2) = error_rate (stats st) ∧
  cache_hit_rate (stats out.2) = (cache_hit_rate (stats st) + 1)%R ∧
  hits (cache out.2) = hits (cache st) + 1 ∧
  misses (cache out.2) = misses (cache st).
Proof.
  intros Hhit out.
  assert (Hout : out = (Ok cached, after_cache_hit st)).
  { subst out. unfold query, QueryCache_get, bind, utcnow, get_state,
      put_state, modify, ret. simpl. by rewrite Hhit. }
  by rewrite Hout.
Qed.

(** ** Running a query *)

Section QueryFacts.
Variable settings : Settings.
Variable clock : nat -> R.
Variable search : string -> string -> option Options -> nat -> Outcome.
Variable hash : string -> Z.
Variable set_to_list : list string -> list string.

Lemma QueryCache_get_miss (key : string) (st : State) :
  backend_get key (clock (ticks st)) (backend (cache st)) = None →
  QueryCache_get clock key st
  = (Ok None,
     with_cache {| backend := backend (cache st); ttl := ttl (cache st);
                   max_size := max_size (cache st);
                   hits := hits (cache st);
                   misses := misses (cache st) + 1 |}
                (with_ticks (S (ticks st)) st)).
Proof.
  intros Hmiss. unfold QueryCache_get, bind, utcnow, get_state, put_state, ret.
  simpl. by rewrite Hmiss.
Qed.

(** What is left of [query] once the cache has missed: the fan-out
    [dispatch], the post-processing [post] and the bookkeeping. *)
Lemma query_miss (text : string) (mode : QueryMode)
    (sources : option (list string)) (options : option Options) (st : State) :
  backend_get (_generate_cache_key text mode sources options)
              (clock (S (ticks st))) (backend (cache st)) = None →
  query settings clock search hash set_to_list text mode sources options st
  = (let srcs := resolve_sources (adapters st) sources in
     let cache_key := _generate_cache_key text mode sources options in
     results <-
       match mode with
       | UNIFIED => l <- _query_unified clock search text srcs options ;; ret (Flat l)
       | SEQUENTIAL =>
           l <- _query_sequential clock search set_to_list text srcs options ;;
           ret (Flat l)
       | PARALLEL => g <- _query_parallel clock search text srcs options ;; ret (Grouped g)
       | SMART =>
           l <- _query_smart settings clock search set_to_list text srcs options ;;
           ret (Flat l)
       end ;;
     results <-
       match results with
       | Flat l => l' <- _process_results settings clock hash l options ;; ret (Flat l')
       | Grouped g => ret (Grouped g)
       end ;;
     t_response <- utcnow clock ;;
     t_stamp <- utcnow clock ;;
     let response :=
       {| resp_query := text; resp_mode := mode; resp_results := results;
          resp_total_results := Results_len results;
          resp_processing_time := (t_response - clock (ticks st))%R;
          resp_sources_queried := srcs; resp_cache_hit := false;
          resp_timestamp := t_stamp |} in
     QueryCache_set clock cache_key response None ;;;
     t_stats <- utcnow clock ;;
     modify (fun st' =>
       with_stats (_update_stats mode srcs (t_stats - clock (ticks st))%R
                                 (stats st')) st') ;;;
     ret response) (after_cache_miss st).
Proof.
  intros Hmiss. unfold query.
  unfold bind at 1. unfold utcnow at 1.
  unfold bind at 1. rewrite QueryCache_get_miss by done.
  unfold bind at 1. unfold get_state at 1.
  reflexivity.
Qed.

(** The bookkeeping at the end of [query]. *)
Lemma query_finish (text : string) (mode : QueryMode) (key : string)
    (results : Results) (srcs : list string) (t0 : R) (st : State) :
  (t_response <- utcnow clock ;;
   t_stamp <- utcnow clock ;;
   let response :=
     {| resp_query := text; resp_mode := mode; resp_results := results;
        resp_total_results := Results_len results;
        resp_processing_time := (t_response - t0)%R;
        resp_sources_queried := srcs; resp_cache_hit := false;
        resp_timestamp := t_stamp |} in
   QueryCache_set clock key response None ;;;
   t_stats <- utcnow clock ;;
   modify (fun st' =>
     with_stats (_update_stats mode srcs (t_stats - t0)%R (stats st')) st') ;;;
   ret response) st
  = (Ok (built_response clock text mode results srcs t0 st),
     after_response clock key (built_response clock text mode results srcs t0 st)
                    mode srcs t0 st).
Proof. done. Qed.

Lemma select_sources_none (adapters : list string) (analysis : Analysis) :
  _select_sources_for_query settings adapters analysis [] = [].
Proof.
  unfold _select_sources_for_query.
  assert (H1 : ∀ l, fold_left
            (fun selected source =>
               if str_in source [] && str_in source adapters
               then selected ++ [source] else selected) l [] = []).
  { induction l as [|x l IH]; [done|]. simpl. apply IH. }
  rewrite H1.
  assert (H2 : ∀ l : list (string * SourceConfig), fold_left
            (fun selected '(source, config) =>
               if str_in source [] && negb (str_in source selected)
               then
                 let source_features := default [] (cfg_features config) in
                 if existsb (fun feature => str_in feature source_features)
                            (features_needed analysis)
                 then selected ++ [source] else selected
               else selected) l [] = []).
  { induction l as [|[x c] l IH]; [done|]. simpl. apply IH. }
  by rewrite H2.
Qed.

(** With no source to query, the unified, sequential and parallel modes,
    and the smart mode when the analysis asks for context or for a broad
    search, answer with an empty response and call no adapter. *)
Lemma empty_sources_response (text : string) (mode : QueryMode)
    (sources : option (list string)) (options : option Options) (st : State) :
  backend_get (_generate_cache_key text mode sources options)
              (clock (S (ticks st))) (backend (cache st)) = None →
  resolve_sources (adapters st) sources = [] →
  mode ≠ SMART ∨ requires_context (analyze_query text) = true
               ∨ broad_search (analyze_query text) = true →
  ∃ response st',
    query settings clock search hash set_to_list text mode sources options st
    = (Ok response, st') ∧
    resp_results response = (if decide (mode = PARALLEL) then Grouped [] else Flat []) ∧
    resp_total_results response = 0 ∧
    resp_sources_queried response = [] ∧
    calls st' = calls st.
Proof.
  intros Hmiss Hnone Hmode. rewrite query_miss by done. rewrite Hnone.
  cbv zeta. destruct mode.
  - eexists _, _. split; [reflexivity|]. by rewrite decide_False.
  - eexists _, _. split; [reflexivity|]. by rewrite decide_False.
  - eexists _, _. split; [reflexivity|]. by rewrite decide_True.
  - destruct Hmode as [?|Hmode]; [done|].
    eexists _, _. split.
    + unfold _query_smart. unfold bind at 1. unfold bind at 1. unfold bind at 1.
      unfold get_state at 1. rewrite select_sources_none.
      destruct Hmode as [->| ->]; [reflexivity|].
      destruct (requires_context (analyze_query text)); reflexivity.
    + by rewrite decide_False.
Qed.

(** The smart mode in the remaining case indexes the empty selection. *)
Lemma smart_no_sources_raises (text : string)
    (sources : option (list string)) (options : option Options) (st : State) :
  backend_get (_generate_cache_key text SMART sources options)
              (clock (S (ticks st))) (backend (cache st)) = None →
  resolve_sources (adapters st) sources = [] →
  requires_context (analyze_query text) = false →
  broad_search (analyze_query text) = false →
  query settings clock search hash set_to_list text SMART sources options st
  = (Raise IndexError, after_cache_miss st).
Proof.
  intros Hmiss Hnone Hctx Hbroad. rewrite query_miss by done. rewrite Hnone.
  cbv zeta. unfold _query_smart.
  unfold bind at 1. unfold bind at 1. unfold bind at 1.
  unfold get_state at 1. by rewrite select_sources_none, Hctx, Hbroad.
Qed.

(** An attempt on a configured source whose adapter call ends in an
    exception raises it, after noting the call. *)
Lemma single_source_attempt_raises (source text : string)
    (options : option Options) (k : nat) (e : Exn) (st : State) :
  str_in source (adapters st) = true →
  outcome_error (search source text options k) = Some e →
  single_source_attempt clock search source text options k st
  = (Raise e, with_calls (calls st ++ [(source, text, k)]) st).
Proof.
  intros Hin Herr. unfold single_source_attempt.
  unfold bind at 1. unfold get_state at 1. rewrite Hin. simpl negb. cbv iota.
  unfold bind at 1. unfold modify at 1.
  destruct (search source text options k); simpl in Herr;
    by simplify_eq.
Qed.

(** When the three attempts on a source all end in an exception, the
    single-source query gives up and raises. *)
Lemma single_source_down (source text : string) (options : option Options)
    (st : State) :
  str_in source (adapters st) = true →
  (∀ k, k < 3 → is_Some (outcome_error (search source text options k))) →
  ∃ e, _query_single_source clock search source text options st
       = (Raise (RetryError e),
          with_calls (calls st ++ [(source, text, 0); (source, text, 1);
                                   (source, text, 2)]) st).
Proof.
  intros Hin Hdown.
  destruct (Hdown 0) as [e0 He0]; [lia|].
  destruct (Hdown 1) as [e1 He1]; [lia|].
  destruct (Hdown 2) as [e2 He2]; [lia|].
  exists e2. unfold _query_single_source, retry. simpl.
  unfold try_except at 1.
  rewrite (single_source_attempt_raises _ _ _ _ e0) by done.
  unfold try_except at 1.
  rewrite (single_source_attempt_raises _ _ _ _ e1) by done.
  unfold try_except at 1.
  rewrite (single_source_attempt_raises _ _ _ _ e2) by done.
  unfold raise, with_calls. simpl. by rewrite <- !app_assoc.
Qed.

(** The smart mode, when the analysis asks neither for context nor for a
    broad search, lets the failure of the first selected source escape. *)
Lemma smart_primary_down (text : string) (sources : option (list string))
    (options : option Options) (st : State) (primary : string)
    (others : list string) :
  backend_get (_generate_cache_key text SMART sources options)
              (clock (S (ticks st))) (backend (cache st)) = None →
  requires_context (analyze_query text) = false →
  broad_search (analyze_query text) = false →
  _select_sources_for_query settings (adapters st) (analyze_query text)
    (resolve_sources (adapters st) sources) = primary :: others →
  str_in primary (adapters st) = true →
  (∀ k, k < 3 → is_Some (outcome_error (search primary text options k))) →
  ∃ e st',
    query settings clock search hash set_to_list text SMART sources options st
    = (Raise (RetryError e), st').
Proof.
  intros Hmiss Hctx Hbroad Hsel Hin Hdown.
  destruct (single_source_down primary text options (after_cache_miss st))
    as [e He]; [done..|].
  exists e. eexists. rewrite query_miss by done. cbv zeta.
  unfold _query_smart.
  unfold bind at 1. unfold bind at 1. unfold bind at 1.
  unfold get_state at 1.
  change (adapters (after_cache_miss st)) with (adapters st).
  rewrite Hsel, Hctx, Hbroad.
  unfold bind at 1. rewrite He. reflexivity.
Qed.

End QueryFacts.

(** ** Failures in smart mode *)

(** C1.  The property asked for: in smart mode a failure of the first
    single-source call does not fail the request.  The code departs from
    it: the four adapters are configured, the cache is empty, and the
    graph source times out on every attempt while the other sources
    answer.  The query "hello" asks neither for context nor for a broad
    search, so smart mode queries the first recommended source, the graph
    source, alone: its three attempts are made and the retry failure
    comes out of [query] as an exception. *)
Theorem smart_primary_failure_escapes :
  let out := query default_settings (frozen_clock 0) cognee_down length_hash
                   list_order "hello" SMART None (Some [])
                   (started default_settings) in
  requires_context (analyze_query "hello") = false ∧
  broad_search (analyze_query "hello") = false ∧
  out.1 = Raise (RetryError TimeoutError) ∧
  calls out.2 = [("cognee", "hello", 0); ("cognee", "hello", 1);
                 ("cognee", "hello", 2)].
Proof. vm_compute. done. Qed.

(** C2.  The property asked for: in every mode an empty resolved source
    set gives an empty response, not an error.  The code departs from it
    in smart mode: only the graph source is enabled and the request
    names the key-value source, so the resolved source set is empty; the
    query "hello" asks neither for context nor for a broad search, and
    smart mode raises [IndexError] instead of returning an empty
    response. *)
Theorem smart_empty_sources_raises :
  let st := started cognee_only in
  let out := query cognee_only (frozen_clock 0) all_up length_hash
                   list_order "hello" SMART (Some ["memento"]) (Some []) st in
  resolve_sources (adapters st) (Some ["memento"]) = [] ∧
  out.1 = Raise IndexError ∧
  calls out.2 = [].
Proof. vm_compute. done. Qed.

(** ** Unified fan-out *)

Section UnifiedFacts.
Variable settings : Settings.
Variable clock : nat -> R.
Variable search : string -> string -> option Options -> nat -> Outcome.
Variable hash : string -> Z.
Variable set_to_list : list string -> list string.




(** ** Post-processing *)

Lemma rescored_refl (r : QueryResult) : rescored r r.
Proof. by destruct r. Qed.




Lemma slice_to_sublist {A : Type} (n : Z) (l : list A) :
  sublist (Py.slice_to n l) l.
Proof. unfold Py.slice_to. destruct (0 <=? n)%Z; apply sublist_take. Qed.



(** Without an options dict there is nothing to call [get] on: as soon
    as there is a result to process, post-processing raises. *)
Lemma process_results_without_options (x : QueryResult)
    (results : list QueryResult) (st : State) :
  _process_results settings clock hash (x :: results) None st
  = (Raise AttributeError, st).
Proof. done. Qed.

End UnifiedFacts.

(** ** Failing and answering sources *)

Section SourceFacts.
Variable clock : nat -> R.
Variable search : string -> string -> option Options -> nat -> Outcome.

Lemma make_result_run (src : string) (raw : RawResult) (st : State) :
  (raw_valid src raw ∧
   ∃ r, make_result clock src raw st = (Ok r, with_ticks (S (ticks st)) st)
        ∧ source r = src) ∨
  (¬ raw_valid src raw ∧
   make_result clock src raw st
   = (Raise ValidationError, with_ticks (S (ticks st)) st)).
Proof.
  unfold make_result, raw_valid, bind, utcnow.
  destruct (bool_decide (0 <= default 0%R (raw_score raw))%R) eqn:H0;
    destruct (bool_decide (default 0%R (raw_score raw) <= 1)%R) eqn:H1;
    destruct (str_in src MemorySource_values) eqn:Hs; simpl;
    try apply bool_decide_eq_true in H0; try apply bool_decide_eq_true in H1;
    try apply bool_decide_eq_false in H0; try apply bool_decide_eq_false in H1;
    first [ left; split; [done|]; eexists; split; [reflexivity|done]
          | right; split; [|done]; intros [[??] ?]; done ].
Qed.

(** Converting the results of an adapter returns exactly when all of
    them are valid; it leaves everything but the clock as it was, and the
    results it builds carry the source's name. *)
Lemma mapM_make_result (src : string) (raws : list RawResult) (st : State) :
  ∃ n,
    (Forall (raw_valid src) raws ∧
     ∃ l, mapM (make_result clock src) raws st = (Ok l, with_ticks n st)
          ∧ Forall (λ r, source r = src) l) ∨
    (¬ Forall (raw_valid src) raws ∧
     mapM (make_result clock src) raws st
     = (Raise ValidationError, with_ticks n st)).
Proof.
  revert st. induction raws as [|raw raws IH]; intros st; simpl.
  { exists (ticks st). left. split; [done|]. exists [].
    by rewrite with_ticks_same. }
  unfold bind.
  destruct (make_result_run src raw st) as [(Hv & r & -> & Hr)|(Hv & ->)].
  - destruct (IH (with_ticks (S (ticks st)) st)) as [n [(Hvs & l & Hl & Hsrc)|(Hvs & Hl)]];
      exists n; rewrite Hl, with_ticks_with_ticks.
    + left. split; [by constructor|]. exists (r :: l). split; [done|].
      by constructor.
    + right. split; [|done]. by intros [_ ?]%Forall_cons.
  - exists (S (ticks st)). right. split; [|done]. by intros [? _]%Forall_cons.
Qed.

(** One attempt touches nothing but the clock and the call log; when it
    returns, the results carry the source's name; and on a configured
    source it raises exactly when the attempt fails. *)
Lemma single_source_attempt_run (src text : string)
    (options : option Options) (k : nat) (st : State) :
  ∃ res st',
    single_source_attempt clock search src text options k st = (res, st') ∧
    adapters st' = adapters st ∧
    match res with
    | Ok l => Forall (λ r, source r = src) l ∧
              (str_in src (adapters st) = true →
               ¬ attempt_fails search src text options k)
    | Raise _ => str_in src (adapters st) = true ∧
                 attempt_fails search src text options k
    end.
Proof.
  unfold single_source_attempt, attempt_fails.
  unfold bind at 1. unfold get_state at 1.
  destruct (str_in src (adapters st)) eqn:Hin.
  2: { eexists _, _. split; [reflexivity|]. split; [done|]. by split. }
  change (negb true) with false. cbv beta iota.
  unfold bind at 1. unfold modify at 1. cbv beta iota.
  set (st1 := with_calls (calls st ++ [(src, text, k)]) st).
  destruct (search src text options k) as [raws| |msg].
  - destruct (mapM_make_result src raws st1) as [n [(Hv & l & -> & Hl)|(Hv & ->)]];
      eexists _, _; (split; [reflexivity|]); split; try done; split; try done.
    intros _ Hnot. by apply Hnot.
  - eexists _, _. split; [reflexivity|]. done.
  - eexists _, _. split; [reflexivity|]. done.
Qed.

(** The single-source query with its retries: same frame, and it raises
    exactly when the source is configured and fails. *)
Lemma query_single_source_run (src text : string)
    (options : option Options) (st : State) :
  ∃ res st',
    _query_single_source clock search src text options st = (res, st') ∧
    adapters st' = adapters st ∧
    match res with
    | Ok l => Forall (λ r, source r = src) l ∧
              (str_in src (adapters st) = true →
               ¬ source_fails search src text options)
    | Raise _ => str_in src (adapters st) = true ∧
                 source_fails search src text options
    end.
Proof.
  unfold _query_single_source, retry. simpl.
  unfold try_except at 1.
  destruct (single_source_attempt_run src text options 0 st)
    as ([l|e] & st1 & -> & Ha1 & H1).
  { eexists _, _. split; [reflexivity|]. split; [done|].
    destruct H1 as [Hsrc Hnot]. split; [done|].
    intros Hin Hfails. apply (Hnot Hin), Hfails. lia. }
  unfold try_except at 1.
  destruct (single_source_attempt_run src text options 1 st1)
    as ([l|e'] & st2 & -> & Ha2 & H2).
  { eexists _, _. split; [reflexivity|]. split; [congruence|].
    destruct H2 as [Hsrc Hnot]. split; [done|].
    intros Hin Hfails. rewrite Ha1 in Hnot. apply (Hnot Hin), Hfails. lia. }
  unfold try_except at 1.
  destruct (single_source_attempt_run src text options 2 st2)
    as ([l|e''] & st3 & -> & Ha3 & H3).
  { eexists _, _. split; [reflexivity|]. split; [congruence|].
    destruct H3 as [Hsrc Hnot]. split; [done|].
    intros Hin Hfails. rewrite Ha2, Ha1 in Hnot. apply (Hnot Hin), Hfails. lia. }
  eexists _, _. split; [reflexivity|]. split; [congruence|].
  destruct H1 as [Hin H1], H2 as [_ H2], H3 as [_ H3]. split; [done|].
  intros [|[|[|k]]] Hk; [done..|lia].
Qed.


End SourceFacts.

Lemma str_in_true (x : string) (l : list string) : str_in x l = true ↔ x ∈ l.
Proof.
  unfold str_in. rewrite existsb_exists. split.
  - intros (y & Hy & ->%String.eqb_eq). by apply list_elem_of_In.
  - intros Hx. exists x. split; [by apply list_elem_of_In|apply String.eqb_refl].
Qed.


(** ** Partial failure in unified mode *)

(* ===================================================================== *)
(** * The properties at concrete inputs *)
(* ===================================================================== *)

Example lower_strip_example : Py.strip (Py.lower "  Hello World  ") = "hello world".
Proof. reflexivity. Qed.

Example cache_key_example :
  _generate_cache_key "q" UNIFIED (Some ["memos"; "cognee"])
    (Some [("max_results", VInt 5); ("deduplicate", VBool true)])
  = "q:unified:cognee,memos:[('deduplicate', True), ('max_results', 5)]".
Proof. reflexivity. Qed.

Example analyze_why_example :
  requires_context (analyze_query "why is the sky blue") = true ∧
  analysis_mode (analyze_query "why is the sky blue") = SEQUENTIAL.
Proof. split; reflexivity. Qed.

Example select_sources_example :
  _select_sources_for_query default_settings
    ["cognee"; "memento"; "memos"; "llamacloud"] (analyze_query "hello")
    ["cognee"; "memento"; "memos"; "llamacloud"]
  = ["cognee"; "llamacloud"; "memos"; "memento"].
Proof. reflexivity. Qed.

Example deduplicate_example :
  _deduplicate_results length_hash three_results
  = [ sample_result "1" " Hello" "cognee" 0%R 0%R;
      sample_result "3" "World!" "memos" 0%R 0%R ].
Proof. vm_compute. reflexivity. Qed.

Example started_adapters :
  adapters (started default_settings) = ["cognee"; "memento"; "memos"; "llamacloud"].
Proof. reflexivity. Qed.

Lemma cache_key_order_independent_witness :
  reordered (Some ["memos"; "cognee"]) (Some ["cognee"; "memos"]) ∧
  reordered (Some [("max_results", VInt 5); ("deduplicate", VBool true)])
            (Some [("deduplicate", VBool true); ("max_results", VInt 5)]) ∧
  _generate_cache_key "q" UNIFIED (Some ["memos"; "cognee"])
    (Some [("max_results", VInt 5); ("deduplicate", VBool true)])
  = _generate_cache_key "q" UNIFIED (Some ["cognee"; "memos"])
    (Some [("deduplicate", VBool true); ("max_results", VInt 5)]).
Proof.
  assert (H1 : reordered (Some ["memos"; "cognee"]) (Some ["cognee"; "memos"]))
    by apply perm_swap.
  assert (H2 : reordered
                 (Some [("max_results", VInt 5); ("deduplicate", VBool true)])
                 (Some [("deduplicate", VBool true); ("max_results", VInt 5)]))
    by apply perm_swap.
  split; [exact H1|]. split; [exact H2|].
  apply (cache_key_order_independent "q" UNIFIED _ _ _ _ H1 H2).
  intros o [= <-]. unfold dict_wf. simpl.
  apply NoDup_cons. split; [|apply NoDup_singleton].
  intros Hin%list_elem_of_singleton. discriminate Hin.
Defined.

Lemma deduplicate_keeps_first_occurrences_witness :
  collision_free length_hash three_results ∧
  _deduplicate_results length_hash
    (_deduplicate_results length_hash three_results)
  = _deduplicate_results length_hash three_results ∧
  NoDup (normalized_content <$> _deduplicate_results length_hash three_results).
Proof.
  assert (Hfree : collision_free length_hash three_results).
  { intros r1 r2 H1 H2. unfold three_results in H1, H2.
    repeat (apply elem_of_cons in H1 as [->|H1]);
      [| | |by apply elem_of_nil in H1];
      repeat (apply elem_of_cons in H2 as [->|H2]);
      try (by apply elem_of_nil in H2);
      vm_compute; congruence. }
  split; [exact Hfree|].
  destruct (deduplicate_keeps_first_occurrences length_hash three_results)
    as (Hidem & _ & _ & _ & Hrest).
  split; [exact Hidem|]. by destruct (Hrest Hfree) as [Hnd _].
Defined.

Lemma hybrid_score_in_unit_interval_witness :
  has_weights default_weights 0.4%R 0.2%R 0.2%R 0.2%R ∧
  ∃ ranked st',
    _rank_hybrid (frozen_clock 0) [fresh_strong] default_weights
                 (started default_settings) = (Ok ranked, st') ∧
    Forall (λ r, (0 <= score r <= 1)%R) ranked.
Proof.
  split; [apply default_weights_has|].
  destruct (hybrid_score_in_unit_interval (frozen_clock 0) default_weights
              0.4%R 0.2%R 0.2%R 0.2%R [fresh_strong] (started default_settings))
    as (ranked & st' & Hrun & _ & Hbounds).
  - apply default_weights_has.
  - lra.
  - lra.
  - lra.
  - lra.
  - lra.
  - intros [|i] r Hi; simpl in Hi; [|discriminate Hi].
    injection Hi as <-. unfold age_hours, frozen_clock. simpl. lra.
  - by exists ranked, st'.
Defined.

Lemma hybrid_order_deterministic_witness :
  ∃ r1' r2' st',
    _rank_hybrid (frozen_clock 0) [week_old_weak; fresh_strong] default_weights
                 (started default_settings) = (Ok [r1'; r2'], st') ∧
    r1' = set_score fresh_strong 0.84%R ∧
    (score r1' > score r2')%R.
Proof.
  destruct (hybrid_order_deterministic (frozen_clock 0)) as [Hpair _].
  destruct (Hpair fresh_strong week_old_weak (started default_settings)
              [week_old_weak; fresh_strong])
    as (r1' & r2' & st' & Hrun & Hr1 & _ & Hgt).
  - reflexivity.
  - reflexivity.
  - reflexivity.
  - reflexivity.
  - right. split; [reflexivity|].
    unfold age_hours, frozen_clock. simpl. split; lra.
  - by exists r1', r2', st'.
Defined.

Lemma update_stats_incremental_witness :
  let s' := _update_stats UNIFIED ["cognee"; "memos"] 2%R QueryStats_default in
  total_queries s' = 1 ∧
  average_latency s' = (0 + (2 - 0) / INR (total_queries s'))%R ∧
  counter (queries_by_mode s') "unified" = 1 ∧
  counter (queries_by_source s') "cognee" = 1 ∧
  counter (queries_by_source s') "memento" = 0.
Proof.
  destruct (update_stats_incremental UNIFIED ["cognee"; "memos"] 2%R
              QueryStats_default)
    as (Htotal & Havg & Hmode & _ & Hsrc & _ & _ & _ & _).
  split; [exact Htotal|]. split; [exact Havg|]. split; [exact Hmode|].
  split; [exact (Hsrc "cognee")|exact (Hsrc "memento")].
Defined.

Lemma cache_hit_frame_witness :
  backend_get (_generate_cache_key "q" UNIFIED None None)
              (frozen_clock 0 (S (ticks warm_state)))
              (backend (cache warm_state)) = Some sample_response ∧
  query default_settings (frozen_clock 0) all_up length_hash list_order
        "q" UNIFIED None None warm_state
  = (Ok sample_response, after_cache_hit warm_state).
Proof.
  assert (Hhit : backend_get (_generate_cache_key "q" UNIFIED None None)
                   (frozen_clock 0 (S (ticks warm_state)))
                   (backend (cache warm_state)) = Some sample_response).
  { unfold backend_get, warm_state. simpl backend.
    rewrite lookup_singleton_eq. simpl.
    destruct (Rlt_dec (frozen_clock 0 1) 10) as [_|Hn]; [reflexivity|].
    destruct Hn. unfold frozen_clock. lra. }
  split; [exact Hhit|].
  exact (proj1 (cache_hit_frame default_settings (frozen_clock 0) all_up
                  length_hash list_order "q" UNIFIED None None warm_state
                  sample_response Hhit)).
Defined.

(* ===================================================================== *)
(** * Further properties of the service *)
(* ===================================================================== *)

(** ** Computations that only observe *)

Lemma extends_refl (st : State) : extends 0 st st.
Proof.
  repeat split; [lia|]. exists []. by rewrite app_nil_r.
Qed.

Lemma extends_trans (n m : nat) (st st1 st2 : State) :
  extends n st st1 → extends m st1 st2 → extends (n + m) st st2.
Proof.
  intros (Ha & Hc & Hs & Ht & l & Hl & Hn) (Ha' & Hc' & Hs' & Ht' & l' & Hl' & Hm).
  repeat split; [congruence..|lia|].
  exists (l ++ l'). rewrite Hl', Hl, <- app_assoc, length_app. split; [done|lia].
Qed.

Lemma extends_le (n m : nat) (st st' : State) :
  n <= m → extends n st st' → extends m st st'.
Proof.
  intros Hle (Ha & Hc & Hs & Ht & l & Hl & Hn).
  repeat split; [done..|]. exists l. split; [done|lia].
Qed.

Lemma extends_with_ticks (n : nat) (st : State) :
  ticks st <= n → extends 0 st (with_ticks n st).
Proof.
  intros Hle. repeat split; [done|]. exists []. by rewrite app_nil_r.
Qed.

Lemma observes_weaken {A : Type} (n m : nat) (c : M A) (P Q : A -> Prop) :
  n <= m → (∀ a, P a → Q a) → observes n c P → observes m c Q.
Proof.
  intros Hle Himpl Hc st r st' Hrun. destruct (Hc st r st' Hrun) as [Hext Hr].
  split; [by eapply extends_le|]. destruct r; auto.
Qed.

Lemma observes_ret {A : Type} (a : A) (P : A -> Prop) : P a → observes 0 (ret a) P.
Proof. intros Ha st r st' [= <- <-]. split; [apply extends_refl|done]. Qed.

Lemma observes_raise {A : Type} (e : Exn) (P : A -> Prop) : observes 0 (raise e) P.
Proof. intros st r st' [= <- <-]. split; [apply extends_refl|done]. Qed.

Lemma observes_bind {A B : Type} (n k : nat) (c : M A) (f : A -> M B)
    (P : A -> Prop) (Q : B -> Prop) :
  observes n c P → (∀ a, P a → observes k (f a) Q) →
  observes (n + k) (bind c f) Q.
Proof.
  intros Hc Hf st r st' Hrun. unfold bind in Hrun.
  destruct (c st) as [[a|e] st1] eqn:Hc1.
  - destruct (Hc st _ _ Hc1) as [Hext Ha].
    destruct (Hf a Ha st1 r st' Hrun) as [Hext' Hr].
    split; [by eapply extends_trans|done].
  - injection Hrun as <- <-. destruct (Hc st _ _ Hc1) as [Hext _].
    split; [|done]. eapply extends_le; [|done]. lia.
Qed.

Lemma observes_try_except {A : Type} (n k : nat) (c : M A) (h : Exn -> M A)
    (P : A -> Prop) :
  observes n c P → (∀ e, observes k (h e) P) →
  observes (n + k) (try_except c h) P.
Proof.
  intros Hc Hh st r st' Hrun. unfold try_except in Hrun.
  destruct (c st) as [[a|e] st1] eqn:Hc1.
  - injection Hrun as <- <-. destruct (Hc st _ _ Hc1) as [Hext Ha].
    split; [|done]. eapply extends_le; [|done]. lia.
  - destruct (Hc st _ _ Hc1) as [Hext _].
    destruct (Hh e st1 r st' Hrun) as [Hext' Hr].
    split; [by eapply extends_trans|done].
Qed.

Lemma observes_attempt {A : Type} (n : nat) (c : M A) (P : A -> Prop) :
  observes n c P →
  observes n (attempt c)
           (λ r, match r with Ok a => P a | Raise _ => True end).
Proof.
  intros Hc st r st' Hrun. unfold attempt in Hrun.
  destruct (c st) as [r1 st1] eqn:Hc1. injection Hrun as <- <-.
  exact (Hc st _ _ Hc1).
Qed.

Lemma observes_utcnow (clock : nat -> R) : observes 0 (utcnow clock) (λ _, True).
Proof.
  intros st r st' [= <- <-]. split; [|done]. apply extends_with_ticks. lia.
Qed.

Lemma observes_get_state (P : State -> Prop) :
  (∀ st, P st) → observes 0 get_state P.
Proof. intros HP st r st' [= <- <-]. split; [apply extends_refl|done]. Qed.

Lemma observes_mapM {A B : Type} (n : nat) (f : A -> M B) (l : list A)
    (P : B -> Prop) :
  (∀ x, x ∈ l → observes n (f x) P) →
  observes (length l * n) (mapM f l) (λ ys, Forall P ys ∧ length ys = length l).
Proof.
  induction l as [|x l IH]; intros Hf; simpl.
  { by apply observes_ret. }
  eapply observes_bind; [apply Hf; by left|]. intros y Hy.
  replace (length l * n) with (length l * n + 0) by lia.
  eapply observes_bind; [apply IH; intros; apply Hf; by right|].
  intros ys [Hys Hlen]. apply observes_ret. split; [by constructor|simpl; lia].
Qed.

Lemma observes_for_each {A B : Type} (n : nat) (l : list A) (acc : B)
    (body : B -> A -> M B) (I : B -> Prop) :
  I acc →
  (∀ acc x, x ∈ l → I acc → observes n (body acc x) I) →
  observes (length l * n) (for_each l acc body) I.
Proof.
  revert acc. induction l as [|x l IH]; intros acc Hacc Hbody; simpl.
  { by apply observes_ret. }
  eapply observes_bind; [apply Hbody; [by left|done]|].
  intros acc' Hacc'. apply IH; [done|].
  intros acc'' y Hy. apply Hbody. by right.
Qed.

Lemma returns_ret {A : Type} (a : A) : returns (ret a).
Proof. intros st. by exists a, st. Qed.

Lemma returns_bind {A B : Type} (c : M A) (f : A -> M B) :
  returns c → (∀ a, returns (f a)) → returns (bind c f).
Proof.
  intros Hc Hf st. destruct (Hc st) as (a & st1 & Hrun).
  destruct (Hf a st1) as (b & st2 & Hrun'). exists b, st2.
  unfold bind. by rewrite Hrun.
Qed.

Lemma returns_attempt {A : Type} (c : M A) : returns (attempt c).
Proof.
  intros st. unfold attempt. destruct (c st) as [r st1]. by exists r, st1.
Qed.


Lemma returns_mapM {A B : Type} (f : A -> M B) (l : list A) :
  (∀ x, returns (f x)) → returns (mapM f l).
Proof.
  intros Hf. induction l as [|x l IH]; simpl; [apply returns_ret|].
  apply returns_bind; [done|]. intros y.
  apply returns_bind; [done|]. intros ys. apply returns_ret.
Qed.


(** ** Single source queries: calls and results *)

Section SingleSourceFacts.
Variable clock : nat -> R.
Variable search : string -> string -> option Options -> nat -> Outcome.

Lemma make_result_observes (src : string) (raw : RawResult) :
  observes 0 (make_result clock src raw) (valid_result src).
Proof.
  unfold make_result.
  replace 0 with (0 + 0) by lia.
  eapply observes_bind; [apply observes_utcnow|]. intros now _.
  destruct (bool_decide (0 <= default 0%R (raw_score raw))%R) eqn:H0;
    [|apply observes_raise].
  destruct (bool_decide (default 0%R (raw_score raw) <= 1)%R) eqn:H1;
    [|apply observes_raise].
  destruct (str_in src MemorySource_values); [|apply observes_raise].
  apply observes_ret. split; [done|]. simpl.
  apply bool_decide_eq_true in H0, H1. lra.
Qed.

Lemma mapM_make_result_observes (src : string) (raws : list RawResult) :
  observes 0 (mapM (make_result clock src) raws) (Forall (valid_result src)).
Proof.
  eapply observes_weaken; [| |apply observes_mapM].
  - apply Nat.eq_le_incl, Nat.mul_0_r.
  - by intros l [Hl _].
  - intros raw _. apply make_result_observes.
Qed.

Lemma log_call_observes (c : Call) :
  observes 1 (modify (fun st => with_calls (calls st ++ [c]) st)) (λ _, True).
Proof.
  intros st r st' [= <- <-]. split; [|done].
  repeat split; [done|]. by exists [c].
Qed.

Lemma single_source_attempt_observes (src text : string)
    (options : option Options) (k : nat) :
  observes 1 (single_source_attempt clock search src text options k)
           (Forall (valid_result src)).
Proof.
  unfold single_source_attempt.
  replace 1 with (0 + 1) by lia.
  eapply observes_bind; [apply (observes_get_state (λ _, True)); done|].
  intros st _. destruct (negb (str_in src (adapters st))).
  { apply (observes_weaken 0 _ _ (Forall (valid_result src))); [lia|done|].
    apply observes_ret. constructor. }
  replace 1 with (1 + 0) by lia.
  eapply observes_bind; [apply log_call_observes|]. intros _ _.
  destruct (search src text options k).
  - apply mapM_make_result_observes.
  - apply observes_raise.
  - apply observes_raise.
Qed.

Lemma query_single_source_observes (src text : string) (options : option Options) :
  observes 3 (_query_single_source clock search src text options)
           (Forall (valid_result src)).
Proof.
  unfold _query_single_source, retry. simpl.
  replace 3 with (1 + (1 + (1 + 0))) by lia.
  apply observes_try_except; [apply single_source_attempt_observes|]. intros e0.
  apply observes_try_except; [apply single_source_attempt_observes|]. intros e1.
  apply observes_try_except; [apply single_source_attempt_observes|]. intros e2.
  apply observes_raise.
Qed.

(** An attempt on a configured source logs exactly its own call; it
    raises exactly when the attempt fails. *)
Lemma single_source_attempt_logs (src text : string)
    (options : option Options) (k : nat) (st : State) :
  str_in src (adapters st) = true →
  ∃ res st',
    single_source_attempt clock search src text options k st = (res, st') ∧
    adapters st' = adapters st ∧
    calls st' = calls st ++ [(src, text, k)] ∧
    match res with
    | Ok l => ¬ attempt_fails search src text options k
    | Raise _ => attempt_fails search src text options k
    end.
Proof.
  intros Hin. unfold single_source_attempt, attempt_fails.
  unfold bind at 1. unfold get_state at 1. rewrite Hin.
  change (negb true) with false. cbv beta iota.
  unfold bind at 1. unfold modify at 1. cbv beta iota.
  set (st1 := with_calls (calls st ++ [(src, text, k)]) st).
  destruct (search src text options k) as [raws| |msg].
  - destruct (mapM_make_result clock src raws st1)
      as [n [(Hv & l & -> & Hl)|(Hv & ->)]];
      eexists _, _; (split; [reflexivity|]); repeat split; try done.
    intros Hnot. by apply Hnot.
  - eexists _, _. split; [reflexivity|]. done.
  - eexists _, _. split; [reflexivity|]. done.
Qed.

End SingleSourceFacts.

(** X1.  A single-source query on a name without adapter returns the
    empty list at once: no call, no clock reading.  On a configured
    source it stops at the first attempt that does not fail: when that
    is attempt [j] (of 0, 1, 2) it returns that attempt's results, all
    carrying the source's name and a score in [0,1], after exactly
    [j + 1] calls; when the three attempts fail it raises [RetryError]
    after exactly three calls.  In every case it leaves the adapters,
    the cache and the statistics alone. *)
Theorem single_source_retry_budget
    (clock : nat -> R)
    (search : string -> string -> option Options -> nat -> Outcome)
    (src text : string) (options : option Options) (st : State) :
  (str_in src (adapters st) = false →
     _query_single_source clock search src text options st = (Ok [], st)) ∧
  (str_in src (adapters st) = true →
     ∀ j, j < 3 →
       (∀ i, i < j → attempt_fails search src text options i) →
       ¬ attempt_fails search src text options j →
       ∃ l st',
         _query_single_source clock search src text options st = (Ok l, st') ∧
         calls st' = calls st ++ attempt_calls src text (S j) ∧
         Forall (valid_result src) l) ∧
  (str_in src (adapters st) = true →
     source_fails search src text options →
     ∃ e st',
       _query_single_source clock search src text options st
       = (Raise (RetryError e), st') ∧
       calls st' = calls st ++ attempt_calls src text 3) ∧
  observes 3 (_query_single_source clock search src text options)
           (Forall (valid_result src)).
Proof.
  split; [|split; [|split; [|apply query_single_source_observes]]].
  - intros Hout. unfold _query_single_source, retry. simpl.
    unfold try_except, single_source_attempt, bind, get_state. by rewrite Hout.
  - intros Hin j Hj Hbefore Hnow.
    assert (Hgoal : ∃ l st',
              _query_single_source clock search src text options st = (Ok l, st') ∧
              calls st' = calls st ++ attempt_calls src text (S j)).
    { unfold _query_single_source, retry. simpl. unfold try_except at 1.
      destruct (single_source_attempt_logs clock search src text options 0 st Hin)
        as ([l|e] & st1 & -> & Ha1 & Hc1 & H1).
      { destruct j as [|j]; [by eexists _, _|].
        destruct H1. apply Hbefore. lia. }
      destruct j as [|j]; [done|].
      unfold try_except at 1.
      destruct (single_source_attempt_logs clock search src text options 1 st1)
        as ([l|e'] & st2 & -> & Ha2 & Hc2 & H2); [congruence|..].
      { destruct j as [|j].
        - eexists _, _. split; [reflexivity|]. rewrite Hc2, Hc1.
          by rewrite <- app_assoc.
        - destruct H2. apply Hbefore. lia. }
      destruct j as [|j]; [done|].
      unfold try_except at 1.
      destruct (single_source_attempt_logs clock search src text options 2 st2)
        as ([l|e''] & st3 & -> & Ha3 & Hc3 & H3); [congruence|..].
      { destruct j as [|j]; [|lia].
        eexists _, _. split; [reflexivity|]. rewrite Hc3, Hc2, Hc1.
        by rewrite <- !app_assoc. }
      destruct j as [|j]; [done|lia]. }
    destruct Hgoal as (l & st' & Hrun & Hcalls). exists l, st'.
    split; [done|]. split; [done|].
    by destruct (query_single_source_observes clock search src text options
                   st _ _ Hrun) as [_ Hvalid].
  - intros Hin Hfails. unfold _query_single_source, retry. simpl.
    unfold try_except at 1.
    destruct (single_source_attempt_logs clock search src text options 0 st Hin)
      as ([l|e] & st1 & -> & Ha1 & Hc1 & H1).
    { destruct H1. apply Hfails. lia. }
    unfold try_except at 1.
    destruct (single_source_attempt_logs clock search src text options 1 st1)
      as ([l|e'] & st2 & -> & Ha2 & Hc2 & H2); [congruence|..].
    { destruct H2. apply Hfails. lia. }
    unfold try_except at 1.
    destruct (single_source_attempt_logs clock search src text options 2 st2)
      as ([l|e''] & st3 & -> & Ha3 & Hc3 & H3); [congruence|..].
    { destruct H3. apply Hfails. lia. }
    eexists _, _. split; [reflexivity|]. rewrite Hc3, Hc2, Hc1.
    by rewrite <- !app_assoc.
Qed.

(** ** Fan-out: calls, results, failures *)

Section FanOutFacts.
Variable clock : nat -> R.
Variable search : string -> string -> option Options -> nat -> Outcome.
Variable set_to_list : list string -> list string.

Lemma valid_result_of (sources : list string) (s : string) (l : list QueryResult) :
  s ∈ sources → Forall (valid_result s) l → Forall (result_of sources) l.
Proof.
  intros Hs Hl. eapply Forall_impl; [exact Hl|]. intros r Hr. by exists s.
Qed.

Lemma flatten_results_Forall (Q : QueryResult -> Prop)
    (outs : list (Res (list QueryResult))) (acc : list QueryResult) :
  Forall (λ r, match r with Ok l => Forall Q l | Raise _ => True end) outs →
  Forall Q acc → Forall Q (flatten_results outs acc).
Proof.
  intros Houts. revert acc.
  induction Houts as [|[l|e] outs Hl _ IH]; intros acc Hacc; simpl; [done| |].
  - apply IH. by apply Forall_app.
  - by apply IH.
Qed.

Lemma query_unified_observes (text : string) (sources : list string)
    (options : option Options) :
  observes (length sources * 3)
           (_query_unified clock search text sources options)
           (Forall (result_of sources)).
Proof.
  unfold _query_unified.
  replace (length sources * 3) with (length sources * 3 + 0) by lia.
  eapply observes_bind.
  - apply (observes_mapM 3 _ sources
             (λ r, match r with
                   | Ok l => Forall (result_of sources) l
                   | Raise _ => True
                   end)).
    intros s Hs. eapply observes_weaken;
      [| |apply observes_attempt, query_single_source_observes]; [done|].
    intros [l|e]; [|done]. by apply valid_result_of.
  - intros outs [Houts _]. apply observes_ret.
    by apply flatten_results_Forall.
Qed.

Lemma query_unified_returns (text : string) (sources : list string)
    (options : option Options) :
  returns (_query_unified clock search text sources options).
Proof.
  unfold _query_unified. apply returns_bind.
  - apply returns_mapM. intros s. apply returns_attempt.
  - intros outs. apply returns_ret.
Qed.

Lemma query_sequential_observes (text : string) (sources : list string)
    (options : option Options) :
  observes (length sources * 3)
           (_query_sequential clock search set_to_list text sources options)
           (Forall (result_of sources)).
Proof.
  unfold _query_sequential.
  replace (length sources * 3) with (length sources * 3 + 0) by lia.
  eapply observes_bind.
  - apply (observes_for_each 3 sources _ _
             (λ acc, Forall (result_of sources) acc.1)); [done|].
    intros [all_results context] s Hs Hacc.
    replace 3 with (3 + 0) by lia.
    apply observes_try_except.
    + replace 3 with (3 + 0) by lia.
      eapply observes_bind; [apply query_single_source_observes|].
      intros l Hl. apply observes_ret. simpl.
      apply Forall_app. split; [done|]. by eapply valid_result_of.
    + intros e. by apply observes_ret.
  - intros acc Hacc. by apply observes_ret.
Qed.


End FanOutFacts.

(** X2.  A unified fan-out never raises, makes at most three adapter
    calls per listed source, leaves the adapters, the cache and the
    statistics alone, and every result it merges carries the name of a
    listed source and a score in [0,1]. *)
Theorem unified_fanout_budget
    (clock : nat -> R)
    (search : string -> string -> option Options -> nat -> Outcome)
    (text : string) (sources : list string) (options : option Options)
    (st : State) :
  ∃ merged st',
    _query_unified clock search text sources options st = (Ok merged, st') ∧
    extends (length sources * 3) st st' ∧
    Forall (result_of sources) merged.
Proof.
  destruct (query_unified_returns clock search text sources options st)
    as (merged & st' & Hrun).
  exists merged, st'. split; [done|].
  exact (query_unified_observes clock search text sources options st _ _ Hrun).
Qed.

Lemma single_source_retry_budget_witness :
  str_in "cognee" (adapters (started default_settings)) = true ∧
  source_fails cognee_down "cognee" "hello" None ∧
  ∃ e st',
    _query_single_source (frozen_clock 0) cognee_down "cognee" "hello" None
                         (started default_settings)
    = (Raise (RetryError e), st') ∧
    calls st' = calls (started default_settings)
                ++ attempt_calls "cognee" "hello" 3.
Proof.
  assert (Hdown : source_fails cognee_down "cognee" "hello" None).
  { intros k _. exact I. }
  split; [reflexivity|]. split; [exact Hdown|].
  destruct (single_source_retry_budget (frozen_clock 0) cognee_down
              "cognee" "hello" None (started default_settings))
    as (_ & _ & Hfail & _).
  apply Hfail; [reflexivity|exact Hdown].
Defined.

(** ** Dicts in insertion order *)

Lemma dict_get_set_eq {V : Type} (k : string) (v : V) (d : list (string * V)) :
  dict_get k (dict_set k v d) = Some v.
Proof.
  induction d as [|[k' v'] d IH]; simpl.
  - by rewrite String.eqb_refl.
  - destruct (String.eqb k' k) eqn:Hk; simpl.
    + by rewrite String.eqb_refl.
    + by rewrite Hk.
Qed.

Lemma dict_get_set_ne {V : Type} (k k0 : string) (v : V)
    (d : list (string * V)) :
  k ≠ k0 → dict_get k0 (dict_set k v d) = dict_get k0 d.
Proof.
  intros Hne. induction d as [|[k' v'] d IH]; simpl.
  - destruct (String.eqb_spec k k0); [done|reflexivity].
  - destruct (String.eqb_spec k' k) as [->|Hk]; simpl.
    + destruct (String.eqb_spec k k0); [done|reflexivity].
    + destruct (String.eqb_spec k' k0); [reflexivity|exact IH].
Qed.

Lemma elem_of_dict_set_keys {V : Type} (k s : string) (v : V)
    (d : list (string * V)) :
  s ∈ (dict_set k v d).*1 ↔ s = k ∨ s ∈ d.*1.
Proof.
  induction d as [|[k' v'] d IH]; simpl.
  - rewrite list_elem_of_singleton. split; [by left|].
    intros [H|H]; [done|]. by apply elem_of_nil in H.
  - destruct (String.eqb_spec k' k) as [->|Hk]; simpl.
    + rewrite !elem_of_cons. tauto.
    + rewrite !elem_of_cons, IH. tauto.
Qed.

Lemma dict_set_wf {V : Type} (k : string) (v : V) (d : list (string * V)) :
  dict_wf (dict_set k v d) ↔ dict_wf d.
Proof.
  unfold dict_wf. induction d as [|[k' v'] d IH]; simpl.
  - split; intros _; [constructor|]. apply NoDup_singleton.
  - destruct (String.eqb_spec k' k) as [->|Hk]; simpl; [done|].
    rewrite !NoDup_cons, IH, elem_of_dict_set_keys.
    split; intros [Hnot Hd]; (split; [|done]); [tauto|].
    intros [Heq|Hin]; [by subst|done].
Qed.

Lemma dict_set_length {V : Type} (k : string) (v : V) (d : list (string * V)) :
  length d <= length (dict_set k v d) <= S (length d).
Proof.
  induction d as [|[k' v'] d IH]; simpl; [lia|].
  destruct (String.eqb k' k); simpl; lia.
Qed.

Lemma dict_get_elem_of {V : Type} (k : string) (v : V) (d : list (string * V)) :
  dict_get k d = Some v → (k, v) ∈ d.
Proof.
  induction d as [|[k' v'] d IH]; simpl; [done|].
  destruct (String.eqb_spec k' k) as [->|Hk].
  - intros [= ->]. by left.
  - intros H. right. by apply IH.
Qed.

Lemma dict_get_is_Some {V : Type} (k : string) (d : list (string * V)) :
  is_Some (dict_get k d) ↔ k ∈ d.*1.
Proof.
  induction d as [|[k' v'] d IH]; simpl.
  - split; [by intros [? ?]|]. intros H. by apply elem_of_nil in H.
  - destruct (String.eqb_spec k' k) as [->|Hk].
    + split; [intros _; by left|by eexists].
    + rewrite IH, elem_of_cons. split; [by right|]. by intros [?|?]; [subst|].
Qed.

(** A dict filled key by key: the keys are those it had and those set,
    no key twice, and a key set holds its value. *)
Lemma dict_fill {V : Type} (val : string -> V) (keys : list string)
    (d : list (string * V)) :
  let d' := fold_left (λ acc k, dict_set k (val k) acc) keys d in
  (dict_wf d → dict_wf d') ∧
  (∀ s, s ∈ d'.*1 ↔ s ∈ d.*1 ∨ s ∈ keys) ∧
  (∀ s, s ∈ keys → dict_get s d' = Some (val s)) ∧
  length d' <= length d + length keys.
Proof.
  revert d. induction keys as [|k keys IH]; intros d; simpl.
  - split; [done|]. split; [|split; [|lia]].
    + intros s. split; [by left|]. intros [H|H]; [done|].
      by apply elem_of_nil in H.
    + intros s H. by apply elem_of_nil in H.
  - destruct (IH (dict_set k (val k) d)) as (Hwf & Hkeys & Hget & Hlen).
    split; [|split; [|split]].
    + intros Hd. by apply Hwf, dict_set_wf.
    + intros s. rewrite Hkeys, elem_of_dict_set_keys, elem_of_cons. tauto.
    + intros s Hs. destruct (decide (s ∈ keys)) as [Hin|Hnot]; [by apply Hget|].
      apply elem_of_cons in Hs as [->|Hs]; [|done].
      clear IH Hwf Hkeys Hget Hlen.
      assert (Hgen : ∀ d0, dict_get k d0 = Some (val k) →
                dict_get k (fold_left (λ acc k0, dict_set k0 (val k0) acc) keys d0)
                = Some (val k)).
      { induction keys as [|k1 keys IH]; intros d0 Hd0; simpl; [done|].
        apply IH.
        - intros Hk. apply Hnot. by right.
        - rewrite dict_get_set_ne; [done|]. intros ->. apply Hnot. by left. }
      apply Hgen, dict_get_set_eq.
    + pose proof (dict_set_length k (val k) d). lia.
Qed.

(** ** Parallel mode *)

Section ParallelFacts.
Variable clock : nat -> R.
Variable search : string -> string -> option Options -> nat -> Outcome.

Lemma query_single_source_unconfigured (src text : string)
    (options : option Options) (st : State) :
  str_in src (adapters st) = false →
  _query_single_source clock search src text options st = (Ok [], st).
Proof.
  intros Hout. unfold _query_single_source, retry. simpl.
  unfold try_except, single_source_attempt, bind, get_state. by rewrite Hout.
Qed.

Lemma parallel_task_run (text : string) (options : option Options)
    (s : string) (st : State) :
  ∃ r st',
    (r0 <- attempt (_query_single_source clock search s text options) ;;
     ret (s, r0)) st = (Ok (s, r), st') ∧
    extends 3 st st' ∧
    collected search (adapters st) text options (s, r).
Proof.
  destruct (query_single_source_run clock search s text options st)
    as (res & st' & Hrun & Hads & Hres).
  destruct (query_single_source_observes clock search s text options
              st _ _ Hrun) as [Hext Hvalid].
  exists res, st'. split; [|split; [done|]].
  - unfold bind, attempt. by rewrite Hrun.
  - unfold collected. simpl. destruct res as [l|e]; [|done].
    destruct Hres as [_ Hres]. split; [done|]. split; [done|].
    intros Hout. rewrite query_single_source_unconfigured in Hrun by done.
    congruence.
Qed.

Lemma parallel_gather_run (text : string) (options : option Options)
    (keys : list string) (st : State) :
  ∃ results st',
    mapM (fun source =>
            r <- attempt (_query_single_source clock search source text options) ;;
            ret (source, r)) keys st = (Ok results, st') ∧
    extends (length keys * 3) st st' ∧
    results.*1 = keys ∧
    Forall (collected search (adapters st) text options) results.
Proof.
  revert st. induction keys as [|s keys IH]; intros st.
  { exists [], st. split; [done|]. split; [apply extends_refl|]. by split. }
  destruct (parallel_task_run text options s st) as (r & st1 & Hrun & Hext & Hr).
  destruct (IH st1) as (results & st' & Hrest & Hext' & Hkeys & Hall).
  exists ((s, r) :: results), st'. split; [|split; [|split]].
  - simpl mapM. unfold bind at 1. rewrite Hrun. unfold bind at 1.
    by rewrite Hrest.
  - simpl length. replace (S (length keys) * 3) with (3 + length keys * 3) by lia.
    by eapply extends_trans.
  - rewrite fmap_cons. simpl. by f_equal.
  - constructor; [done|]. destruct Hext as (Hads & _). by rewrite <- Hads.
Qed.

Lemma group_fold (results : list (string * Res (list QueryResult)))
    (sources : list string) (acc : list (string * list QueryResult)) :
  fold_left
    (fun grouped_results source =>
       match dict_get source results with
       | Some (Ok l) => dict_set source l grouped_results
       | _ => dict_set source [] grouped_results
       end) sources acc
  = fold_left (λ acc k, dict_set k (group_of results k) acc) sources acc.
Proof.
  revert acc. induction sources as [|s sources IH]; intros acc; simpl; [done|].
  rewrite <- IH. f_equal. unfold group_of.
  by destruct (dict_get s results) as [[l|e]|].
Qed.

End ParallelFacts.

Lemma query_parallel_spec
    (clock : nat -> R)
    (search : string -> string -> option Options -> nat -> Outcome)
    (text : string) (sources : list string) (options : option Options)
    (st : State) :
  ∃ grouped st',
    _query_parallel clock search text sources options st = (Ok grouped, st') ∧
    extends (length sources * 3) st st' ∧
    dict_wf grouped ∧
    (∀ s, s ∈ grouped.*1 ↔ s ∈ sources) ∧
    (∀ s l, dict_get s grouped = Some l → Forall (valid_result s) l) ∧
    (∀ s, s ∈ sources →
          str_in s (adapters st) = false ∨ source_fails search s text options →
          dict_get s grouped = Some []).
Proof.
  pose proof (dict_fill (λ _ : string, tt) sources []) as (_ & Htasks & _ & Hlen).
  simpl in Htasks, Hlen.
  destruct (parallel_gather_run clock search text options
              (fold_left (λ tasks source, dict_set source tt tasks) sources []).*1
              st) as (results & st' & Hrun & Hext & Hkeys & Hall).
  pose proof (dict_fill (group_of results) sources [])
    as (Hwf & Hgkeys & Hget & _).
  simpl in Hwf, Hgkeys, Hget.
  assert (Hres : ∀ s, s ∈ sources →
            ∃ r, dict_get s results = Some r ∧
                 collected search (adapters st) text options (s, r)).
  { intros s Hs.
    assert (is_Some (dict_get s results)) as [r Hr].
    { apply (proj2 (dict_get_is_Some s results)). rewrite Hkeys.
      apply Htasks. by right. }
    exists r. split; [done|].
    rewrite Forall_forall in Hall. by apply Hall, dict_get_elem_of. }
  eexists _, st'. split; [|split; [|split; [|split; [|split]]]].
  - unfold _query_parallel. cbv zeta. rewrite (bind_ok _ _ _ _ _ Hrun).
    rewrite group_fold. reflexivity.
  - eapply extends_le; [|exact Hext]. rewrite length_fmap. nia.
  - apply Hwf. constructor.
  - intros s. rewrite Hgkeys. split; [|by right].
    intros [H|H]; [|done]. by apply elem_of_nil in H.
  - intros s l Hl.
    assert (Hs : s ∈ sources).
    { assert (Hin : s ∈ (fold_left (λ acc k, dict_set k (group_of results k) acc)
                           sources []).*1).
      { apply dict_get_is_Some. by eexists. }
      apply Hgkeys in Hin as [Hin|Hin]; [|done]. by apply elem_of_nil in Hin. }
    rewrite (Hget s Hs) in Hl. injection Hl as <-.
    destruct (Hres s Hs) as (r & Hr & Hcol). unfold group_of. rewrite Hr.
    destruct r as [l|e]; [|constructor]. by destruct Hcol.
  - intros s Hs Hbad. rewrite (Hget s Hs). f_equal.
    destruct (Hres s Hs) as (r & Hr & Hcol). unfold group_of. rewrite Hr.
    destruct r as [l|e]; [|done]. destruct Hcol as (_ & Hok & Hout).
    simpl in Hok, Hout.
    destruct (str_in s (adapters st)) eqn:Hin.
    + destruct Hbad as [Hbad|Hbad]; [done|]. by destruct Hok.
    + by apply Hout.
Qed.

(** X4.  A parallel query never raises, makes at most three adapter calls
    per listed source, and leaves the adapters, the cache and the
    statistics alone.  The dict it returns has exactly the listed sources
    as keys, each once; the list under a source holds only results with
    that source's name and a score in [0,1]; and a listed source that has
    no adapter or that fails has the empty list. *)
Theorem parallel_groups_by_source
    (clock : nat -> R)
    (search : string -> string -> option Options -> nat -> Outcome)
    (text : string) (sources : list string) (options : option Options)
    (st : State) :
  ∃ grouped st',
    _query_parallel clock search text sources options st = (Ok grouped, st') ∧
    extends (length sources * 3) st st' ∧
    dict_wf grouped ∧
    (∀ s, s ∈ grouped.*1 ↔ s ∈ sources) ∧
    (∀ s l, dict_get s grouped = Some l → Forall (valid_result s) l) ∧
    (∀ s, s ∈ sources →
          str_in s (adapters st) = false ∨ source_fails search s text options →
          dict_get s grouped = Some []).
Proof. apply query_parallel_spec. Qed.

Lemma parallel_groups_by_source_witness :
  ∃ grouped st',
    _query_parallel (frozen_clock 0) cognee_down "hello" ["cognee"; "memos"]
                    None (started default_settings)
    = (Ok grouped, st') ∧
    dict_get "cognee" grouped = Some [].
Proof.
  destruct (parallel_groups_by_source (frozen_clock 0) cognee_down "hello"
              ["cognee"; "memos"] None (started default_settings))
    as (grouped & st' & Hrun & _ & _ & _ & _ & Hfail).
  exists grouped, st'. split; [exact Hrun|]. apply Hfail.
  - by left.
  - right. intros k _. exact I.
Defined.

(** ** Analysis and source selection *)

Lemma fold_left_append_if {A : Type} (f : A -> bool) (l acc : list A) :
  fold_left (λ selected x, if f x then selected ++ [x] else selected) l acc
  = acc ++ List.filter f l.
Proof.
  revert acc. induction l as [|x l IH]; intros acc; simpl.
  - by rewrite app_nil_r.
  - rewrite IH. destruct (f x); [|done]. by rewrite <- app_assoc.
Qed.

Lemma select_by_feature (available features_needed : list string)
    (config : list (string * SourceConfig)) (selected : list string) :
  ∃ more,
    fold_left
      (fun selected '(source, config) =>
         if str_in source available && negb (str_in source selected)
         then
           if existsb (fun feature =>
                         str_in feature (default [] (cfg_features config)))
                      features_needed
           then selected ++ [source] else selected
         else selected)
      config selected
    = selected ++ more ∧
    Forall (λ s, s ∈ available) more.
Proof.
  revert selected. induction config as [|[s c] config IH]; intros selected.
  { exists []. by rewrite app_nil_r. }
  simpl fold_left.
  destruct (str_in s available && negb (str_in s selected)) eqn:Hs.
  - destruct (existsb _ features_needed).
    + destruct (IH (selected ++ [s])) as (more & -> & Hmore).
      exists (s :: more). rewrite <- app_assoc. split; [done|].
      constructor; [|done]. apply str_in_true.
      by apply andb_true_iff in Hs as [-> _].
    + apply IH.
  - apply IH.
Qed.

Lemma select_sources_spec
    (settings : Settings) (adapters : list string) (analysis : Analysis)
    (available : list string) :
  let selected :=
    _select_sources_for_query settings adapters analysis available in
  (∀ s, s ∈ selected → s ∈ available) ∧
  (available ≠ [] → selected ≠ []) ∧
  List.filter (λ s, str_in s available && str_in s adapters)
              (recommended_sources analysis) `prefix_of` selected.
Proof.
  unfold _select_sources_for_query. cbv zeta.
  rewrite (fold_left_append_if
             (λ s, str_in s available && str_in s adapters)). simpl app.
  destruct (select_by_feature available (features_needed analysis)
              (MEMORY_SYSTEM_CONFIG settings)
              (List.filter (λ s, str_in s available && str_in s adapters)
                           (recommended_sources analysis)))
    as (more & -> & Hmore).
  set (first := List.filter _ (recommended_sources analysis)).
  assert (Hfirst : ∀ s, s ∈ first → s ∈ available).
  { intros s Hs. apply list_elem_of_In, filter_In in Hs as [_ Hs].
    apply andb_true_iff in Hs as [Hs _]. by apply str_in_true. }
  destruct (first ++ more) as [|s0 rest] eqn:Hsel.
  - apply app_eq_nil in Hsel as [-> ->].
    split; [done|]. split; [done|]. apply prefix_nil.
  - rewrite <- Hsel. split; [|split].
    + intros s [Hs|Hs]%elem_of_app; [by apply Hfirst|].
      rewrite Forall_forall in Hmore. by apply Hmore.
    + intros _. by rewrite Hsel.
    + by apply prefix_app_r.
Qed.

(** X5.  The sources selected for a query are all among those on offer;
    some source is selected whenever one is on offer; and the recommended
    sources that are on offer and have an adapter come first, in the order
    of the recommendation. *)
Theorem selected_sources_available
    (settings : Settings) (adapters : list string) (analysis : Analysis)
    (available : list string) :
  let selected :=
    _select_sources_for_query settings adapters analysis available in
  (∀ s, s ∈ selected → s ∈ available) ∧
  (available ≠ [] → selected ≠ []) ∧
  List.filter (λ s, str_in s available && str_in s adapters)
              (recommended_sources analysis) `prefix_of` selected.
Proof. apply select_sources_spec. Qed.

Lemma selected_sources_available_witness :
  ["memos"] ≠ [] ∧
  _select_sources_for_query default_settings
    ["cognee"; "memento"; "memos"; "llamacloud"] (analyze_query "hello")
    ["memos"] ≠ [].
Proof.
  split; [done|].
  pose proof (selected_sources_available default_settings
                ["cognee"; "memento"; "memos"; "llamacloud"]
                (analyze_query "hello") ["memos"]) as H.
  cbv zeta in H. destruct H as (_ & H & _). by apply H.
Defined.

(** X6.  The fields of an analysis agree with each other: the sequential
    mode is recommended exactly when context is required, that is for an
    explanatory query; the unified mode exactly when it is not and the
    query is complex; the smart mode otherwise.  Some source is always
    recommended, none twice, and never any but the graph, document and
    memory-OS sources: the key-value source is not recommended for any
    query.  The type of a query, and with it the recommendation, does not
    depend on the case of its letters. *)
Theorem analysis_coherent (text : string) :
  let a := analyze_query text in
  (analysis_mode a = SEQUENTIAL ↔ requires_context a = true) ∧
  (analysis_mode a = UNIFIED ↔
     requires_context a = false ∧ broad_search a = true) ∧
  (analysis_mode a = SMART ↔
     requires_context a = false ∧ broad_search a = false) ∧
  (requires_context a = true ↔ query_type a = "explanatory") ∧
  (broad_search a = true ↔ complexity a = "complex") ∧
  recommended_sources a ≠ [] ∧
  NoDup (recommended_sources a) ∧
  recommended_sources a ⊆ ["cognee"; "llamacloud"; "memos"] ∧
  (∀ text', Py.lower text' = Py.lower text →
            query_type (analyze_query text') = query_type a ∧
            requires_context (analyze_query text') = requires_context a ∧
            recommended_sources (analyze_query text') = recommended_sources a ∧
            features_needed (analyze_query text') = features_needed a).
Proof.
  cbv zeta. unfold analyze_query.
  split; [|split; [|split; [|split; [|split; [|split; [|split; [|split]]]]]]].
  9: { intros text' ->.
       destruct (any_in ["how"; "why"; "explain"] (Py.lower text));
         [by destruct (_ || _), (_ || _)|].
       destruct (any_in ["when"; "date"; "time"] (Py.lower text));
         [by destruct (_ || _), (_ || _)|].
       destruct (any_in ["who"; "person"; "user"] (Py.lower text));
         [by destruct (_ || _), (_ || _)|].
       destruct (any_in ["document"; "file"; "pdf"] (Py.lower text));
         by destruct (_ || _), (_ || _). }
  all: destruct (any_in ["how"; "why"; "explain"] (Py.lower text));
    [|destruct (any_in ["when"; "date"; "time"] (Py.lower text));
      [|destruct (any_in ["who"; "person"; "user"] (Py.lower text));
        [|destruct (any_in ["document"; "file"; "pdf"] (Py.lower text))]]];
    destruct (_ || _); simpl;
    try (split; [intros; try done; try (split; done)
                |intros; try done; try (by destruct H)]);
    try done;
    try (by apply (bool_decide_unpack _)).
Qed.

Lemma analysis_coherent_witness :
  query_type (analyze_query "WHY") = query_type (analyze_query "why") ∧
  recommended_sources (analyze_query "WHY")
  = recommended_sources (analyze_query "why").
Proof.
  pose proof (analysis_coherent "why") as H. cbv zeta in H.
  destruct H as (_ & _ & _ & _ & _ & _ & _ & _ & H).
  destruct (H "WHY") as (Htype & _ & Hrec & _); [reflexivity|].
  by split.
Defined.

(** ** Smart mode *)

Section SmartFacts.
Variable settings : Settings.
Variable clock : nat -> R.
Variable search : string -> string -> option Options -> nat -> Outcome.
Variable set_to_list : list string -> list string.

Lemma result_of_mono (selected sources : list string) (l : list QueryResult) :
  (∀ s, s ∈ selected → s ∈ sources) →
  Forall (result_of selected) l → Forall (result_of sources) l.
Proof.
  intros Hsub Hl. eapply Forall_impl; [exact Hl|].
  intros r (s & Hs & Hr). exists s. split; [by apply Hsub|done].
Qed.

Lemma options_get_observes (options : option Options) (k : string) (d : OptVal) :
  observes 0 (options_get options k d) (λ _, True).
Proof.
  destruct options as [o|]; simpl; [by apply observes_ret|apply observes_raise].
Qed.

Lemma int_lt_observes (n : Z) (v : OptVal) :
  observes 0 (int_lt n v) (λ _, True).
Proof.
  unfold int_lt. destruct (PyVal.as_int v);
    [by apply observes_ret|apply observes_raise].
Qed.

Lemma query_smart_frame (text : string) (sources : list string)
    (options : option Options) (st : State) (r : Res (list QueryResult))
    (st' : State) :
  _query_smart settings clock search set_to_list text sources options st
  = (r, st') →
  extends (length (_select_sources_for_query settings (adapters st)
                     (analyze_query text) sources) * 3) st st' ∧
  match r with
  | Ok l => Forall (result_of sources) l
  | Raise _ => True
  end.
Proof.
  unfold _query_smart. cbv zeta. unfold bind at 1. simpl get_state.
  pose proof (select_sources_spec settings (adapters st) (analyze_query text)
                sources) as Hsel. cbv zeta in Hsel. destruct Hsel as (Hsub & _ & _).
  set (selected := _select_sources_for_query settings (adapters st)
                     (analyze_query text) sources) in *.
  intros Hrun.
  assert (Hgoal : observes (length selected * 3)
            (if requires_context (analyze_query text)
             then _query_sequential clock search set_to_list text selected options
             else if broad_search (analyze_query text)
             then _query_unified clock search text selected options
             else match selected with
                  | [] => raise IndexError
                  | primary_source :: others =>
                      results <- _query_single_source clock search
                                   primary_source text options ;;
                      max_results <- options_get options "max_results" (VInt 10) ;;
                      insufficient <- int_lt (Z.of_nat (length results))
                                        max_results ;;
                      if insufficient then
                        additional_results <- _query_unified clock search text
                                                others options ;;
                        ret (results ++ additional_results)
                      else ret results
                  end)
            (Forall (result_of sources))).
  { destruct (requires_context (analyze_query text)).
    { eapply observes_weaken; [| |apply query_sequential_observes]; [done|].
      intros l. by apply result_of_mono. }
    destruct (broad_search (analyze_query text)).
    { eapply observes_weaken; [| |apply query_unified_observes]; [done|].
      intros l. by apply result_of_mono. }
    clearbody selected. destruct selected as [|primary others].
    { apply observes_raise. }
    replace (length (primary :: others) * 3)
      with (3 + (0 + (0 + (length others * 3 + 0)))) by (simpl; lia).
    eapply observes_bind; [apply query_single_source_observes|].
    intros l Hl.
    assert (Hl' : Forall (result_of sources) l).
    { eapply result_of_mono; [exact Hsub|].
      eapply valid_result_of; [|exact Hl]. by left. }
    eapply observes_bind; [apply options_get_observes|]. intros max_results _.
    eapply observes_bind; [apply int_lt_observes|]. intros [|] _.
    - eapply observes_bind; [apply query_unified_observes|].
      intros more Hmore. apply observes_ret. apply Forall_app. split; [done|].
      eapply result_of_mono; [|exact Hmore]. intros s Hs. apply Hsub. by right.
    - eapply observes_weaken; [| |by apply observes_ret]; [lia|done]. }
  exact (Hgoal st r st' Hrun).
Qed.

End SmartFacts.



(** ** Ranking by a single key *)

Lemma sorted_desc_Permutation {A : Type} (key : A -> R) (l : list A) :
  Py.sorted_desc key l ≡ₚ l.
Proof. apply sorted_Permutation. Qed.

Lemma sorted_desc_fixed {A : Type} (key : A -> R) (l : list A) :
  StronglySorted (λ a b, (key b <= key a)%R) l → Py.sorted_desc key l = l.
Proof.
  unfold Py.sorted_desc, Py.sorted.
  induction 1 as [|x l Hl IH Hx]; simpl; [done|].
  rewrite IH. destruct Hx as [|y l Hy _]; simpl; [done|].
  apply Rltb_false in Hy. by rewrite Hy.
Qed.

Lemma sorted_desc_idempotent {A : Type} (key : A -> R) (l : list A) :
  Py.sorted_desc key (Py.sorted_desc key l) = Py.sorted_desc key l.
Proof. apply sorted_desc_fixed, sorted_desc_StronglySorted. Qed.

(** X8.  Ranking by relevance and ranking by recency reorder the results
    and nothing more: the outcome is a permutation of the input, in
    descending order of the score (of the timestamp), results with equal
    keys stay in the order they came in, and ranking a ranked list again
    changes nothing. *)
Theorem rank_by_key_sorts (results : list QueryResult) :
  (_rank_by_relevance results ≡ₚ results ∧
   StronglySorted (λ a b, (score b <= score a)%R) (_rank_by_relevance results) ∧
   (∀ v, filter (λ r, score r = v) (_rank_by_relevance results)
         = filter (λ r, score r = v) results) ∧
   _rank_by_relevance (_rank_by_relevance results) = _rank_by_relevance results) ∧
  (_rank_by_recency results ≡ₚ results ∧
   StronglySorted (λ a b, (timestamp b <= timestamp a)%R)
                  (_rank_by_recency results) ∧
   (∀ v, filter (λ r, timestamp r = v) (_rank_by_recency results)
         = filter (λ r, timestamp r = v) results) ∧
   _rank_by_recency (_rank_by_recency results) = _rank_by_recency results).
Proof.
  unfold _rank_by_relevance, _rank_by_recency.
  split; (split; [apply sorted_desc_Permutation|]);
    (split; [apply sorted_desc_StronglySorted|]);
    (split; [intros v; apply sorted_desc_stable|apply sorted_desc_idempotent]).
Qed.

(** ** The strategies of the ranking engine *)

Lemma hybrid_score_missing (clock : nat -> R) (weights : gmap string R)
    (r : QueryResult) (st : State) (k : string) :
  k ∈ ["relevance"; "recency"; "source_trust"; "user_preference"] →
  weights !! k = None →
  ∃ k' st',
    hybrid_score clock weights r st = (Raise (KeyError k'), st') ∧
    weights !! k' = None ∧ extends 0 st st'.
Proof.
  intros Hk Hnone. unfold hybrid_score, weight.
  destruct (weights !! "relevance") as [w1|] eqn:H1.
  2: { exists "relevance", st. split; [done|]. split; [done|apply extends_refl]. }
  unfold bind at 1. unfold ret at 1. unfold bind at 1. unfold utcnow at 1.
  assert (Hext : extends 0 st (with_ticks (S (ticks st)) st)).
  { apply extends_with_ticks. lia. }
  destruct (weights !! "recency") as [w2|] eqn:H2.
  2: { by exists "recency", (with_ticks (S (ticks st)) st). }
  unfold bind at 1. unfold ret at 1.
  destruct (weights !! "source_trust") as [w3|] eqn:H3.
  2: { by exists "source_trust", (with_ticks (S (ticks st)) st). }
  unfold bind at 1. unfold ret at 1.
  destruct (weights !! "user_preference") as [w4|] eqn:H4.
  2: { by exists "user_preference", (with_ticks (S (ticks st)) st). }
  exfalso.
  repeat (apply elem_of_cons in Hk as [->|Hk]; [congruence|]).
  by apply elem_of_nil in Hk.
Qed.

(** X9.  The edges of [rank].  An empty list is returned as it is, whatever
    the strategy and the weights.  Ranking by relevance or by recency
    never raises, reads no clock and changes no state.  Every other
    strategy value is ranked as hybrid, and there a weights dict that
    lacks one of the four keys makes a non-empty ranking raise [KeyError]
    for a key that is missing. *)
Theorem rank_edges (clock : nat -> R) (results : list QueryResult)
    (strategy : OptVal) (weights : option (gmap string R)) (st : State) :
  rank clock [] strategy weights st = (Ok [], st) ∧
  (strategy_is strategy RELEVANCE = true ∨
   strategy_is strategy RECENCY = true →
   ∃ ranked, rank clock results strategy weights st = (Ok ranked, st) ∧
             ranked ≡ₚ results) ∧
  (strategy_is strategy RELEVANCE = false →
   strategy_is strategy RECENCY = false →
   results ≠ [] →
   rank clock results strategy weights st
   = _rank_hybrid clock results (default default_weights weights) st ∧
   ∀ k, k ∈ ["relevance"; "recency"; "source_trust"; "user_preference"] →
        default default_weights weights !! k = None →
        ∃ k' st',
          rank clock results strategy weights st = (Raise (KeyError k'), st') ∧
          default default_weights weights !! k' = None ∧
          extends 0 st st').
Proof.
  split; [done|]. split.
  - intros Hstrategy. destruct results as [|r results]; [by exists []|].
    unfold rank.
    destruct (strategy_is strategy RELEVANCE).
    { eexists. split; [done|]. apply sorted_desc_Permutation. }
    destruct Hstrategy as [Hs|Hs]; [done|]. rewrite Hs.
    eexists. split; [done|]. apply sorted_desc_Permutation.
  - intros Hrel Hrec Hne. destruct results as [|r results]; [done|].
    assert (Hhybrid : rank clock (r :: results) strategy weights st
                      = _rank_hybrid clock (r :: results)
                          (default default_weights weights) st).
    { unfold rank. by rewrite Hrel, Hrec. }
    split; [done|]. intros k Hk Hnone. rewrite Hhybrid.
    destruct (hybrid_score_missing clock (default default_weights weights)
                r st k Hk Hnone) as (k' & st' & Hrun & Hk' & Hext).
    exists k', st'. split; [|done].
    unfold _rank_hybrid. simpl mapM. unfold bind at 1. unfold bind at 1.
    by rewrite Hrun.
Qed.

Lemma rank_edges_witness :
  strategy_is (VStr "relevance") RELEVANCE = true ∧
  ∃ ranked,
    rank (frozen_clock 0) three_results (VStr "relevance") None
         (started default_settings)
    = (Ok ranked, started default_settings) ∧
    ranked ≡ₚ three_results.
Proof.
  split; [reflexivity|].
  destruct (rank_edges (frozen_clock 0) three_results (VStr "relevance") None
              (started default_settings)) as (_ & H & _).
  apply H. by left.
Defined.

(** ** A query from the cache miss to the response *)

Lemma observes_bind0 {A B : Type} (c : M A) (f : A -> M B)
    (P : A -> Prop) (Q : B -> Prop) :
  observes 0 c P → (∀ a, P a → observes 0 (f a) Q) → observes 0 (bind c f) Q.
Proof. apply (observes_bind 0 0). Qed.

Lemma weight_observes (weights : gmap string R) (k : string) :
  observes 0 (weight weights k) (λ _, True).
Proof.
  unfold weight. destruct (weights !! k);
    [by apply observes_ret|apply observes_raise].
Qed.

Lemma hybrid_score_observes (clock : nat -> R) (weights : gmap string R)
    (r : QueryResult) :
  observes 0 (hybrid_score clock weights r) (λ _, True).
Proof.
  unfold hybrid_score.
  eapply (observes_bind0 _ _ (λ _, True)); [apply weight_observes|].
  intros w1 _. cbv zeta.
  eapply (observes_bind0 _ _ (λ _, True)); [apply observes_utcnow|].
  intros now _. cbv zeta.
  eapply (observes_bind0 _ _ (λ _, True)); [apply weight_observes|].
  intros w2 _. cbv zeta.
  eapply (observes_bind0 _ _ (λ _, True)); [apply weight_observes|].
  intros w3 _. cbv zeta.
  eapply (observes_bind0 _ _ (λ _, True)); [apply weight_observes|].
  intros w4 _. cbv zeta.
  by apply observes_ret.
Qed.

Lemma rank_observes (clock : nat -> R) (results : list QueryResult)
    (strategy : OptVal) (weights : option (gmap string R)) :
  observes 0 (rank clock results strategy weights) (λ _, True).
Proof.
  unfold rank. destruct results as [|r results]; [by apply observes_ret|].
  cbv zeta. destruct (strategy_is strategy RELEVANCE); [by apply observes_ret|].
  destruct (strategy_is strategy RECENCY); [by apply observes_ret|].
  unfold _rank_hybrid. eapply (observes_bind0 _ _ (λ _, True)).
  - eapply observes_weaken;
      [| |apply (observes_mapM 0 _ _ (λ _, True))]; [lia|done|].
    intros r0 _. apply hybrid_score_observes.
  - intros scored _. by apply observes_ret.
Qed.

Lemma slice_results_observes (v : OptVal) (results : list QueryResult) :
  observes 0 (slice_results v results) (λ _, True).
Proof.
  unfold slice_results.
  destruct v; simpl; try (by apply observes_ret); apply observes_raise.
Qed.

Lemma process_results_observes (settings : Settings) (clock : nat -> R)
    (hash : string -> Z) (results : list QueryResult)
    (options : option Options) :
  observes 0 (_process_results settings clock hash results options)
           (λ _, True).
Proof.
  unfold _process_results.
  destruct results as [|r results]; [by apply observes_ret|].
  eapply (observes_bind0 _ _ (λ _, True)); [apply options_get_observes|].
  intros deduplicate _. cbv zeta.
  eapply (observes_bind0 _ _ (λ _, True)); [apply options_get_observes|].
  intros ranking_strategy _.
  eapply (observes_bind0 _ _ (λ _, True)); [apply rank_observes|].
  intros ranked _.
  eapply (observes_bind0 _ _ (λ _, True)); [apply options_get_observes|].
  intros max_results _. apply slice_results_observes.
Qed.

Lemma bind_run {A B : Type} (m : M A) (k : A -> M B) (st : State)
    (r : Res B) (st' : State) :
  bind m k st = (r, st') →
  (∃ a st1, m st = (Ok a, st1) ∧ k a st1 = (r, st')) ∨
  (∃ e, m st = (Raise e, st') ∧ r = Raise e).
Proof.
  unfold bind. destruct (m st) as [[a|e] st1].
  - intros Hk. left. by exists a, st1.
  - intros [= <- <-]. right. by exists e.
Qed.

Lemma framed_refl (st : State) : framed st st.
Proof. exists 0. apply extends_refl. Qed.

Lemma framed_trans (st st1 st2 : State) :
  framed st st1 → framed st1 st2 → framed st st2.
Proof. intros [n Hn] [m Hm]. exists (n + m). by eapply extends_trans. Qed.

Lemma bind_ret_framed {A B : Type} (m : M A) (f : A -> B) (st : State)
    (r : Res B) (st1 : State) :
  (∀ r0 st0, m st = (r0, st0) → framed st st0) →
  (x <- m ;; ret (f x)) st = (r, st1) → framed st st1.
Proof.
  intros Hm. unfold bind. destruct (m st) as [[a|e] st0] eqn:Hrun;
    intros [= <- <-]; by eapply Hm.
Qed.

Section MissFacts.
Variable settings : Settings.
Variable clock : nat -> R.
Variable search : string -> string -> option Options -> nat -> Outcome.
Variable hash : string -> Z.
Variable set_to_list : list string -> list string.

Lemma dispatch_framed (text : string) (mode : QueryMode) (srcs : list string)
    (options : option Options) (st : State) (r : Res Results) (st1 : State) :
  match mode with
  | UNIFIED => l <- _query_unified clock search text srcs options ;; ret (Flat l)
  | SEQUENTIAL =>
      l <- _query_sequential clock search set_to_list text srcs options ;;
      ret (Flat l)
  | PARALLEL =>
      g <- _query_parallel clock search text srcs options ;; ret (Grouped g)
  | SMART =>
      l <- _query_smart settings clock search set_to_list text srcs options ;;
      ret (Flat l)
  end st = (r, st1) →
  framed st st1.
Proof.
  destruct mode; apply bind_ret_framed; intros r0 st0 Hrun.
  - eexists. exact (proj1 (query_unified_observes clock search text srcs
                             options st _ _ Hrun)).
  - eexists. exact (proj1 (query_sequential_observes clock search set_to_list
                             text srcs options st _ _ Hrun)).
  - destruct (query_parallel_spec clock search text srcs options st)
      as (g & st' & Hrun' & Hext & _).
    rewrite Hrun in Hrun'. injection Hrun' as -> ->. by eexists.
  - eexists. exact (proj1 (query_smart_frame settings clock search set_to_list
                             text srcs options st _ _ Hrun)).
Qed.

(** What a query that misses the cache comes to: either it raises before
    the response is built, having touched only the clock, the call log and
    the miss counter, or it builds the response from the final results,
    files it under the key and updates the statistics. *)
Lemma query_miss_outcome (text : string) (mode : QueryMode)
    (sources : option (list string)) (options : option Options) (st : State)
    (r : Res Response) (st' : State) :
  backend_get (_generate_cache_key text mode sources options)
              (clock (S (ticks st))) (backend (cache st)) = None →
  query settings clock search hash set_to_list text mode sources options st
  = (r, st') →
  ∃ st2,
    framed (after_cache_miss st) st2 ∧
    ((∃ e, r = Raise e ∧ st' = st2) ∨
     (∃ results,
        let srcs := resolve_sources (adapters st) sources in
        let response := built_response clock text mode results srcs
                                       (clock (ticks st)) st2 in
        r = Ok response ∧
        st' = after_response clock
                (_generate_cache_key text mode sources options)
                response mode srcs (clock (ticks st)) st2)).
Proof.
  intros Hmiss. rewrite query_miss by done. cbv zeta.
  intros [(results & st1 & Hdispatch & Hrest)|(e & Hdispatch & ->)]%bind_run.
  2: { exists st'. split; [|left; by eexists]. by eapply dispatch_framed. }
  apply dispatch_framed in Hdispatch.
  assert (Hprocessed : ∀ r0 st0,
            match results with
            | Flat l =>
                l' <- _process_results settings clock hash l options ;;
                ret (Flat l')
            | Grouped g => ret (Grouped g)
            end st1 = (r0, st0) → framed st1 st0).
  { intros r0 st0. destruct results as [l|g].
    - apply bind_ret_framed. intros r1 st2 Hrun.
      eexists. exact (proj1 (process_results_observes settings clock hash l
                               options st1 _ _ Hrun)).
    - intros [= _ <-]. apply framed_refl. }
  apply bind_run in Hrest
    as [(results' & st2 & Hprocess & Hrest)|(e & Hprocess & ->)].
  2: { exists st'. split; [|left; by eexists].
       eapply framed_trans; [exact Hdispatch|]. by eapply Hprocessed. }
  rewrite query_finish in Hrest. injection Hrest as <- <-.
  exists st2. split.
  - eapply framed_trans; [exact Hdispatch|]. by eapply Hprocessed.
  - right. by exists results'.
Qed.

End MissFacts.

Lemma query_hit_run (settings : Settings) (clock : nat -> R)
    (search : string -> string -> option Options -> nat -> Outcome)
    (hash : string -> Z) (set_to_list : list string -> list string)
    (text : string) (mode : QueryMode) (sources : option (list string))
    (options : option Options) (st : State) (cached : Response) :
  backend_get (_generate_cache_key text mode sources options)
              (clock (S (ticks st))) (backend (cache st)) = Some cached →
  query settings clock search hash set_to_list text mode sources options st
  = (Ok cached, after_cache_hit st).
Proof.
  intros Hhit. unfold query, QueryCache_get, bind, utcnow, get_state,
    put_state, modify, ret. simpl. by rewrite Hhit.
Qed.

(** X10.  A query that raises leaves no trace in the books: the adapters,
    the statistics and the stored responses are as before, nothing is
    cached under the key of the failed request, and the only counters that
    move are the cache's miss counter, by one, and the clock; the call log
    only grows. *)
Theorem failed_query_leaves_no_trace
    (settings : Settings) (clock : nat -> R)
    (search : string -> string -> option Options -> nat -> Outcome)
    (hash : string -> Z) (set_to_list : list string -> list string)
    (text : string) (mode : QueryMode) (sources : option (list string))
    (options : option Options) (st : State) (e : Exn) (st' : State) :
  query settings clock search hash set_to_list text mode sources options st
  = (Raise e, st') →
  adapters st' = adapters st ∧
  stats st' = stats st ∧
  backend (cache st') = backend (cache st) ∧
  ttl (cache st') = ttl (cache st) ∧
  hits (cache st') = hits (cache st) ∧
  misses (cache st') = misses (cache st) + 1 ∧
  ticks st + 2 <= ticks st' ∧
  ∃ l, calls st' = calls st ++ l.
Proof.
  intros Hrun.
  destruct (backend_get (_generate_cache_key text mode sources options)
              (clock (S (ticks st))) (backend (cache st)))
    as [cached|] eqn:Hget.
  { by rewrite (query_hit_run _ _ _ _ _ _ _ _ _ _ _ Hget) in Hrun. }
  destruct (query_miss_outcome _ _ _ _ _ _ _ _ _ _ _ _ Hget Hrun)
    as (st2 & [n Hext] & [(e' & _ & ->)|(results & Hok & _)]);
    [|by cbv zeta in Hok].
  destruct Hext as (Hads & Hcache & Hstats & Hticks & l & Hcalls & _).
  rewrite Hads, Hcache, Hstats, Hcalls. simpl in *.
  repeat split; try done; try lia. by exists l.
Qed.

(** X11.  A query that misses the cache and is answered is recorded in
    full.  The response names the query, the mode and the resolved
    sources, counts its results and says it is no cache hit; the
    statistics are those of [_update_stats] for this request, so one more
    query is counted; the miss is counted; and the response is stored
    under the request's key with the cache's lifetime.  Until that
    lifetime is over, every request with the same key is served the very
    same response from the cache, without any adapter call. *)
Theorem answered_query_is_recorded
    (settings : Settings) (clock : nat -> R)
    (search : string -> string -> option Options -> nat -> Outcome)
    (hash : string -> Z) (set_to_list : list string -> list string)
    (text : string) (mode : QueryMode) (sources : option (list string))
    (options : option Options) (st : State) (response : Response)
    (st' : State) :
  let key := _generate_cache_key text mode sources options in
  let srcs := resolve_sources (adapters st) sources in
  backend_get key (clock (S (ticks st))) (backend (cache st)) = None →
  query settings clock search hash set_to_list text mode sources options st
  = (Ok response, st') →
  (resp_query response = text ∧
   resp_mode response = mode ∧
   resp_sources_queried response = srcs ∧
   resp_total_results response = Results_len (resp_results response) ∧
   resp_cache_hit response = false ∧
   resp_processing_time response
   = (clock (ticks st' - 4)%nat - clock (ticks st))%R) ∧
  (adapters st' = adapters st ∧
   stats st' = _update_stats mode srcs
                 (clock (ticks st' - 1)%nat - clock (ticks st))%R (stats st) ∧
   total_queries (stats st') = total_queries (stats st) + 1 ∧
   hits (cache st') = hits (cache st) ∧
   misses (cache st') = misses (cache st) + 1 ∧
   backend (cache st')
   = backend_set key response (ttl (cache st)) (clock (ticks st' - 2)%nat)
                 (backend (cache st)) ∧
   ticks st + 6 <= ticks st') ∧
  ((clock (S (ticks st')) < clock (ticks st' - 2)%nat + ttl (cache st))%R →
   ∀ text2 mode2 sources2 options2,
     _generate_cache_key text2 mode2 sources2 options2 = key →
     query settings clock search hash set_to_list text2 mode2 sources2
           options2 st'
     = (Ok response, after_cache_hit st')).
Proof.
  intros key srcs Hget Hrun.
  destruct (query_miss_outcome _ _ _ _ _ _ _ _ _ _ _ _ Hget Hrun)
    as (st2 & [n Hext] & [(e' & He & _)|(results & Hok)]); [done|].
  cbv zeta in Hok. destruct Hok as [Hresp Hst'].
  injection Hresp as Hresp.
  destruct Hext as (Hads & Hcache & Hstats & Hticks & l & Hcalls & _).
  simpl in Hads, Hcache, Hstats, Hticks.
  assert (Ht : ticks st' = S (S (S (S (ticks st2))))) by (by rewrite Hst').
  assert (Hbackend :
            backend (cache st')
            = backend_set key response (ttl (cache st)) (clock (ticks st' - 2)%nat)
                          (backend (cache st))).
  { rewrite Ht. replace (S (S (S (S (ticks st2)))) - 2) with (S (S (ticks st2)))
      by lia.
    rewrite Hst'. simpl. rewrite Hcache. simpl. by rewrite <- Hresp. }
  split; [|split].
  - rewrite Ht. replace (S (S (S (S (ticks st2)))) - 4) with (ticks st2) by lia.
    by rewrite Hresp.
  - rewrite Ht.
    replace (S (S (S (S (ticks st2)))) - 1) with (S (S (S (ticks st2)))) by lia.
    split; [by rewrite Hst'|]. split; [by rewrite Hst'; simpl; rewrite Hstats|].
    split; [by rewrite Hst'; simpl; rewrite Hstats|].
    split; [by rewrite Hst'; simpl; rewrite Hcache|].
    split; [by rewrite Hst'; simpl; rewrite Hcache|].
    split; [by rewrite <- Ht|lia].
  - intros Hlive text2 mode2 sources2 options2 Hkey.
    apply query_hit_run. rewrite Hkey, Hbackend.
    unfold backend_get, backend_set. rewrite lookup_insert_eq. simpl.
    by destruct (Rlt_dec _ _).
Qed.

Lemma failed_query_leaves_no_trace_witness :
  let st := started cognee_only in
  let out := query cognee_only (frozen_clock 0) all_up length_hash list_order
                   "hello" SMART (Some ["memento"]) (Some []) st in
  out.1 = Raise IndexError ∧
  stats out.2 = stats st ∧
  backend (cache out.2) = backend (cache st) ∧
  misses (cache out.2) = misses (cache st) + 1.
Proof.
  intros st out.
  assert (H1 : out.1 = Raise IndexError) by (vm_compute; reflexivity).
  split; [exact H1|].
  assert (Hout : out = (Raise IndexError, out.2)).
  { rewrite <- H1. apply surjective_pairing. }
  destruct (failed_query_leaves_no_trace cognee_only (frozen_clock 0) all_up
              length_hash list_order "hello" SMART (Some ["memento"])
              (Some []) st IndexError out.2 Hout)
    as (_ & Hstats & Hbackend & _ & _ & Hmisses & _).
  by split; [|split].
Defined.

Lemma answered_query_is_recorded_witness :
  let st := started cognee_only in
  let out := query cognee_only (frozen_clock 0) all_up length_hash list_order
                   "hello" UNIFIED (Some ["memento"]) (Some []) st in
  ∃ response,
    out.1 = Ok response ∧
    resp_cache_hit response = false ∧
    total_queries (stats out.2) = total_queries (stats st) + 1.
Proof.
  intros st out.
  assert (Hok : ∃ response, out.1 = Ok response).
  { vm_compute. eexists. reflexivity. }
  destruct Hok as [response H1]. exists response. split; [exact H1|].
  assert (Hout : out = (Ok response, out.2)).
  { rewrite <- H1. apply surjective_pairing. }
  assert (Hmiss : backend_get
                    (_generate_cache_key "hello" UNIFIED (Some ["memento"])
                                         (Some []))
                    (frozen_clock 0 (S (ticks st))) (backend (cache st)) = None).
  { reflexivity. }
  destruct (answered_query_is_recorded cognee_only (frozen_clock 0) all_up
              length_hash list_order "hello" UNIFIED (Some ["memento"])
              (Some []) st response out.2 Hmiss Hout)
    as ((_ & _ & _ & _ & Hhit & _) & (_ & _ & Htotal & _) & _).
  by split.
Defined.

(** ** Statistics over many requests *)

(** X12.  The statistics over any run of updates: the number of queries
    grows by the length of the run; the average latency stays a true mean,
    its product with the number of queries growing by the sum of the
    latencies, so from fresh statistics it is that sum divided by the
    number of queries; each mode's counter grows by the number of updates
    in that mode; and the error rate and the cache-hit counter are never
    touched. *)
Theorem stats_running_mean (updates : list (QueryMode * list string * R))
    (s : QueryStats) :
  let s' := stats_after updates s in
  total_queries s' = total_queries s + length updates ∧
  (average_latency s' * INR (total_queries s')
   = average_latency s * INR (total_queries s) + total_latency updates)%R ∧
  (∀ m, counter (queries_by_mode s') (QueryMode_value m)
        = counter (queries_by_mode s) (QueryMode_value m)
          + length (filter (λ u, u.1.1 = m) updates)) ∧
  error_rate s' = error_rate s ∧
  cache_hit_rate s' = cache_hit_rate s.
Proof.
  cbv zeta. revert s. induction updates as [|[[mode sources] latency] updates IH];
    intros s.
  { simpl. split; [lia|]. split; [lra|]. split; [intros; lia|done]. }
  unfold stats_after. simpl fold_left.
  destruct (IH (_update_stats mode sources latency s))
    as (Htotal & Havg & Hmode & Herr & Hhit).
  unfold stats_after in Htotal, Havg, Hmode, Herr, Hhit.
  assert (Hstep : (average_latency (_update_stats mode sources latency s)
                   * INR (total_queries (_update_stats mode sources latency s))
                   = average_latency s * INR (total_queries s) + latency)%R).
  { simpl. replace (total_queries s + 1 - 1) with (total_queries s) by lia.
    field. apply not_0_INR. lia. }
  split; [|split; [|split; [|split]]].
  - rewrite Htotal. simpl. lia.
  - rewrite Havg, Hstep. simpl total_latency. lra.
  - intros m. rewrite Hmode. simpl queries_by_mode. rewrite counter_count_up.
    rewrite filter_cons. simpl.
    destruct (decide (mode = m)) as [->|Hne].
    + rewrite decide_True by done. simpl. lia.
    + rewrite decide_False; [lia|]. by intros ?%QueryMode_value_inj.
  - by rewrite Herr.
  - by rewrite Hhit.
Qed.

(** ** The counters of the cache *)

Lemma QueryCache_get_run (clock : nat -> R) (key : string) (st : State) :
  ∃ st1,
    QueryCache_get clock key st
    = (Ok (backend_get key (clock (ticks st)) (backend (cache st))), st1) ∧
    adapters st1 = adapters st ∧ stats st1 = stats st ∧
    calls st1 = calls st ∧ ticks st1 = S (ticks st) ∧
    backend (cache st1) = backend (cache st) ∧
    ttl (cache st1) = ttl (cache st) ∧
    max_size (cache st1) = max_size (cache st) ∧
    hits (cache st1)
    = hits (cache st)
      + (if backend_get key (clock (ticks st)) (backend (cache st)) is Some _
         then 1 else 0) ∧
    misses (cache st1)
    = misses (cache st)
      + (if backend_get key (clock (ticks st)) (backend (cache st)) is Some _
         then 0 else 1).
Proof.
  unfold QueryCache_get, bind, utcnow, get_state, put_state, ret. simpl.
  destruct (backend_get key (clock (ticks st)) (backend (cache st)));
    eexists; (split; [reflexivity|]); simpl; repeat split; lia.
Qed.

(** X13.  Every lookup is counted once and changes nothing else.  A run of
    lookups returns, for each key, what the store serves for it at the
    time of that lookup; the hit counter grows by the number of lookups
    that found a response and the miss counter by the number that did not,
    so the total of the cache statistics grows by the number of lookups;
    the stored entries, the query statistics and the call log stay as
    they are. *)
Theorem cache_counts_every_get (clock : nat -> R) (keys : list string)
    (st : State) :
  ∃ outs st',
    mapM (QueryCache_get clock) keys st = (Ok outs, st') ∧
    outs = imap (λ i key, backend_get key (clock (ticks st + i))
                                      (backend (cache st))) keys ∧
    hits (cache st') = hits (cache st) + length (filter is_Some outs) ∧
    misses (cache st')
    = misses (cache st) + (length keys - length (filter is_Some outs)) ∧
    cs_total_requests (QueryCache_get_stats (cache st'))
    = cs_total_requests (QueryCache_get_stats (cache st)) + length keys ∧
    backend (cache st') = backend (cache st) ∧
    stats st' = stats st ∧
    calls st' = calls st ∧
    ticks st' = ticks st + length keys.
Proof.
  revert st. induction keys as [|key keys IH]; intros st.
  { exists [], st. simpl. repeat split; lia. }
  destruct (QueryCache_get_run clock key st)
    as (st1 & Hrun & Hads & Hstats & Hcalls & Hticks & Hbackend & _ & _
        & Hhits & Hmisses).
  destruct (IH st1) as (outs & st' & Hrest & Houts & Hh & Hm & _ & Hb & Hs
                        & Hc & Ht).
  exists (backend_get key (clock (ticks st)) (backend (cache st)) :: outs), st'.
  assert (Hfilter : length (filter is_Some outs) <= length keys).
  { rewrite Houts. etransitivity; [apply length_filter|]. by rewrite length_imap. }
  split; [|split; [|split; [|split; [|split]]]].
  - simpl mapM. rewrite (bind_ok _ _ _ _ _ Hrun), (bind_ok _ _ _ _ _ Hrest).
    reflexivity.
  - simpl. rewrite Nat.add_0_r. f_equal. rewrite Houts, Hbackend, Hticks.
    apply imap_ext. intros i k _. simpl. do 2 f_equal. lia.
  - rewrite Hh, Hhits, filter_cons.
    destruct (backend_get key (clock (ticks st)) (backend (cache st))) eqn:Hget.
    + rewrite decide_True by done. simpl. lia.
    + rewrite decide_False by (by intros [? ?]). lia.
  - rewrite Hm, Hmisses, filter_cons.
    destruct (backend_get key (clock (ticks st)) (backend (cache st))) eqn:Hget.
    + rewrite decide_True by done. simpl. lia.
    + rewrite decide_False by (by intros [? ?]). simpl. lia.
  - simpl. rewrite Hh, Hm, Hhits, Hmisses.
    destruct (backend_get key (clock (ticks st)) (backend (cache st))); lia.
  - simpl. repeat split; [congruence|congruence|congruence|lia].
Qed.

(** X14.  The cache statistics: the total is the sum of hits and misses;
    the hit rate is a number between 0 and 1 whose product with the total
    is the number of hits; with no request so far it is 0, not a division
    by zero. *)
Theorem cache_hit_rate_is_a_rate (c : QueryCache) :
  let s := QueryCache_get_stats c in
  cs_hits s = hits c ∧ cs_misses s = misses c ∧
  cs_total_requests s = hits c + misses c ∧
  (0 <= cs_hit_rate s <= 1)%R ∧
  (cs_hit_rate s * INR (cs_total_requests s) = INR (hits c))%R ∧
  (cs_total_requests s = 0 → cs_hit_rate s = 0%R).
Proof.
  cbv zeta. unfold QueryCache_get_stats. simpl.
  split; [done|]. split; [done|]. split; [done|].
  destruct (Nat.ltb_spec 0 (hits c + misses c)) as [Hpos|Hzero].
  - assert (Ht : (0 < INR (hits c + misses c))%R) by (apply lt_0_INR; lia).
    assert (Hh : (0 <= INR (hits c))%R) by apply pos_INR.
    assert (Hle : (INR (hits c) <= INR (hits c + misses c))%R)
      by (apply le_INR; lia).
    split; [|split; [|lia]].
    + split.
      * apply Rmult_le_pos; [done|]. left. by apply Rinv_0_lt_compat.
      * apply (Rmult_le_reg_r (INR (hits c + misses c))); [done|].
        unfold Rdiv. rewrite Rmult_assoc, Rinv_l by lra. lra.
    + field. lra.
  - assert (hits c = 0 ∧ misses c = 0) as [Hh Hm] by lia.
    rewrite Hh, Hm. simpl. split; [lra|]. split; [lra|done].
Qed.

Lemma cache_hit_rate_is_a_rate_witness :
  cs_total_requests (QueryCache_get_stats (QueryCache_init default_settings)) = 0 ∧
  cs_hit_rate (QueryCache_get_stats (QueryCache_init default_settings)) = 0%R.
Proof.
  split; [reflexivity|].
  pose proof (cache_hit_rate_is_a_rate (QueryCache_init default_settings)) as H.
  cbv zeta in H. destruct H as (_ & _ & _ & _ & _ & H). by apply H.
Defined.

(** ** Health *)

Section HealthFacts.
Variable clock : nat -> R.
Variable health_check : string -> nat -> HealthOutcome.

Lemma check_adapter_run (name : string) (st : State) :
  check_adapter clock health_check name st
  = (Ok (health_entry clock health_check name (ticks st)),
     with_ticks (3 + ticks st) st).
Proof.
  unfold check_adapter, health_entry, bind, utcnow, get_state, ret. simpl.
  by destruct (health_check name (S (ticks st))) as [[|]|msg].
Qed.

Lemma health_loop_run (names : list string) (acc : list SystemHealth)
    (st : State) :
  for_each names acc
    (fun health_checks name =>
       h <- check_adapter clock health_check name ;;
       ret (health_checks ++ [h])) st
  = (Ok (acc ++ imap (λ i name, health_entry clock health_check name
                                  (ticks st + 3 * i)) names),
     with_ticks (ticks st + 3 * length names) st).
Proof.
  revert acc st. induction names as [|name names IH]; intros acc st.
  { simpl. rewrite app_nil_r. unfold ret. do 2 f_equal.
    destruct st. unfold with_ticks. simpl. f_equal. lia. }
  simpl for_each. unfold bind at 1. unfold bind at 1.
  rewrite check_adapter_run. unfold ret at 1. rewrite IH. simpl.
  f_equal.
  - f_equal. rewrite <- app_assoc. simpl. f_equal. rewrite Nat.add_0_r.
    f_equal. apply imap_ext. intros i x _. simpl. f_equal. lia.
  - unfold with_ticks. simpl. f_equal. lia.
Qed.

Lemma health_entry_healthy (name : string) (t : nat) :
  sys_status (health_entry clock health_check name t) = "healthy" ↔
  health_check name (S t) = HealthReturned true.
Proof.
  unfold health_entry. simpl.
  by destruct (health_check name (S t)) as [[|]|msg].
Qed.

Lemma health_entry_error (name : string) (t : nat) :
  (sys_status (health_entry clock health_check name t) = "error" ↔
   is_Some (sys_error (health_entry clock health_check name t))) ∧
  (is_Some (sys_error (health_entry clock health_check name t)) ↔
   ∃ msg, health_check name (S t) = HealthRaised msg).
Proof.
  unfold health_entry. simpl.
  destruct (health_check name (S t)) as [[|]|msg];
    split; (split; intros H); try done; try (by destruct H);
    by eexists.
Qed.

Lemma healthy_entries (names : list string) (t : nat) :
  (∃ h, h ∈ imap (λ i name, health_entry clock health_check name (t + 3 * i))
                 names ∧ sys_status h = "healthy") ↔
  some_healthy health_check names t.
Proof.
  unfold some_healthy. split.
  - intros (h & Hh & Hstatus). apply elem_of_lookup_imap in Hh
      as (i & name & -> & Hi).
    exists i, name. split; [done|]. by apply health_entry_healthy.
  - intros (i & name & Hi & Hcheck).
    exists (health_entry clock health_check name (t + 3 * i)). split.
    + apply elem_of_lookup_imap. by exists i, name.
    + by apply health_entry_healthy.
Qed.

Lemma filter_length_pos {A : Type} (P : A -> Prop) `{!∀ a, Decision (P a)}
    (l : list A) :
  0 < length (filter P l) ↔ ∃ a, a ∈ l ∧ P a.
Proof.
  split.
  - destruct (filter P l) as [|a l'] eqn:Hf; simpl; [lia|]. intros _.
    exists a. apply and_comm, (list_elem_of_filter P). rewrite Hf. by left.
  - intros (a & Ha & HP).
    assert (Hin : a ∈ filter P l) by (by apply list_elem_of_filter).
    destruct (filter P l); [by apply elem_of_nil in Hin|simpl; lia].
Qed.

Lemma existsb_healthy (l : list SystemHealth) :
  existsb (fun system => String.eqb (sys_status system) "healthy") l = true ↔
  ∃ h, h ∈ l ∧ sys_status h = "healthy".
Proof.
  rewrite existsb_exists. split.
  - intros (h & Hh & Heq). exists h. split; [by apply list_elem_of_In|].
    by apply String.eqb_eq.
  - intros (h & Hh & Heq). exists h. split; [by apply list_elem_of_In|].
    by apply String.eqb_eq.
Qed.

Lemma check_health_run (st : State) :
  let systems := imap (λ i name, health_entry clock health_check name
                                   (ticks st + 3 * i)) (adapters st) in
  let healthy_count :=
    length (filter (λ h, sys_status h = "healthy") systems) in
  check_health clock health_check st
  = (Ok {| hr_service := "unified-query-service";
           hr_status := if (0 <? healthy_count)%nat
                        then "healthy" else "unhealthy";
           hr_version := "1.0.0";
           hr_systems := systems;
           hr_healthy_systems := healthy_count;
           hr_total_systems := length systems |},
     with_ticks (ticks st + 3 * length (adapters st)) st).
Proof.
  cbv zeta. unfold check_health. unfold bind at 1. unfold get_state at 1.
  cbv beta iota. unfold bind at 1. rewrite health_loop_run. reflexivity.
Qed.

End HealthFacts.

(** X15.  The health report.  [check_health] never raises, whatever the
    adapters' checks do, and only reads the clock, three times per adapter.
    The report lists the adapters in their order, one entry each; an entry
    is healthy exactly when the adapter's check answered true, and carries
    an error text exactly when the check raised.  The number of healthy
    systems is at most the number of systems, and the overall status is
    healthy exactly when some adapter's check answered true. *)
Theorem health_report_counts (clock : nat -> R)
    (health_check : string -> nat -> HealthOutcome) (st : State) :
  ∃ report,
    check_health clock health_check st
    = (Ok report, with_ticks (ticks st + 3 * length (adapters st)) st) ∧
    sys_name <$> hr_systems report = adapters st ∧
    hr_total_systems report = length (adapters st) ∧
    hr_healthy_systems report <= hr_total_systems report ∧
    (hr_status report = "healthy" ↔
     some_healthy health_check (adapters st) (ticks st)) ∧
    (hr_status report = "unhealthy" ↔ hr_healthy_systems report = 0) ∧
    (∀ i h, hr_systems report !! i = Some h →
       ∃ name, adapters st !! i = Some name ∧
         (sys_status h = "healthy" ↔
          health_check name (S (ticks st + 3 * i)) = HealthReturned true) ∧
         (sys_status h = "error" ↔ is_Some (sys_error h)) ∧
         (is_Some (sys_error h) ↔
          ∃ msg, health_check name (S (ticks st + 3 * i)) = HealthRaised msg)).
Proof.
  eexists. split; [apply check_health_run|]. cbv zeta.
  cbn [hr_systems hr_total_systems hr_healthy_systems hr_status].
  set (systems := imap _ (adapters st)).
  split; [|split; [|split; [|split; [|split]]]].
  - unfold systems. rewrite fmap_imap. apply list_eq. intros i.
    rewrite list_lookup_imap. by destruct (adapters st !! i).
  - unfold systems. by rewrite length_imap.
  - apply length_filter.
  - rewrite <- (healthy_entries clock health_check). fold systems.
    rewrite <- (filter_length_pos (λ h, sys_status h = "healthy")).
    destruct (Nat.ltb_spec 0 (length (filter (λ h, sys_status h = "healthy")
                                             systems)));
      split; intros; try done; exfalso; lia.
  - destruct (Nat.ltb_spec 0 (length (filter (λ h, sys_status h = "healthy")
                                             systems)));
      split; intros; try done; try lia; exfalso; lia.
  - intros i h Hh. unfold systems in Hh. rewrite list_lookup_imap in Hh.
    destruct (adapters st !! i) as [name|] eqn:Hname; [|done].
    assert (Hentry : h = health_entry clock health_check name (ticks st + 3 * i))
      by (by injection Hh).
    rewrite Hentry. exists name. split; [done|].
    split; [apply health_entry_healthy|apply health_entry_error].
Qed.

(** X16.  The health endpoint never raises.  It answers 503 exactly when
    no adapter's check answers true, in particular when there is no
    adapter at all; otherwise it answers 200 with the report of
    [check_health], whose status is then healthy. *)
Theorem health_endpoint_status (clock : nat -> R)
    (health_check : string -> nat -> HealthOutcome) (st : State) :
  ∃ reply,
    health_endpoint clock health_check st
    = (Ok reply, with_ticks (ticks st + 3 * length (adapters st)) st) ∧
    (reply = ReplyError 503 ↔
     ¬ some_healthy health_check (adapters st) (ticks st)) ∧
    (∀ body, reply = Reply200 body ↔
       some_healthy health_check (adapters st) (ticks st) ∧
       (check_health clock health_check st).1 = Ok body) ∧
    (∀ body, reply = Reply200 body →
       hr_status body = "healthy" ∧ 0 < hr_healthy_systems body) ∧
    (adapters st = [] → reply = ReplyError 503).
Proof.
  unfold health_endpoint. unfold bind at 1. rewrite check_health_run.
  cbv zeta. cbn [hr_systems].
  set (systems := imap _ (adapters st)).
  set (report := {| hr_service := _ |}).
  pose proof (healthy_entries clock health_check (adapters st) (ticks st))
    as Hsome. fold systems in Hsome.
  pose proof (existsb_healthy systems) as Hexists.
  pose proof (filter_length_pos (λ h, sys_status h = "healthy") systems)
    as Hpos.
  destruct (existsb _ systems) eqn:Hany; cbn [negb].
  - assert (Hs : some_healthy health_check (adapters st) (ticks st)).
    { apply Hsome, Hexists. done. }
    exists (Reply200 report). split; [done|].
    split; [split; [done|by intros []]|].
    split; [|split].
    + intros body. split; [by intros [= <-]|]. by intros [_ [= <-]].
    + intros body [= <-]. unfold report. cbn [hr_status hr_healthy_systems].
      assert (Hlt : 0 < length (filter (λ h, sys_status h = "healthy") systems)).
      { apply Hpos, Hsome, Hs. }
      split; [|done]. by apply Nat.ltb_lt in Hlt as ->.
    + intros Hnone. destruct Hs as (i & name & Hi & _).
      by rewrite Hnone in Hi.
  - assert (Hs : ¬ some_healthy health_check (adapters st) (ticks st)).
    { intros Hs. apply Hsome, Hexists in Hs. done. }
    exists (ReplyError 503). split; [done|].
    split; [done|]. split; [|split]; [|done|done].
    intros body. split; [done|]. by intros [? _].
Qed.

Lemma health_report_counts_witness :
  ∃ report h,
    (check_health (frozen_clock 0) (λ _ _, HealthRaised "down")
                  (started default_settings)).1 = Ok report ∧
    hr_systems report !! 0 = Some h ∧
    sys_status h = "error".
Proof.
  destruct (health_report_counts (frozen_clock 0) (λ _ _, HealthRaised "down")
              (started default_settings))
    as (report & Hrun & Hnames & _ & _ & _ & _ & Hentries).
  assert (is_Some (hr_systems report !! 0)) as [h Hh].
  { apply lookup_lt_is_Some.
    assert (Hlen : length (sys_name <$> hr_systems report) = 4)
      by (rewrite Hnames; reflexivity).
    rewrite length_fmap in Hlen. lia. }
  exists report, h. split; [by rewrite Hrun|]. split; [exact Hh|].
  destruct (Hentries 0 h Hh) as (name & _ & _ & Herr & Hraised).
  apply Herr, Hraised. by eexists.
Defined.

Lemma health_endpoint_status_witness :
  adapters (QueryOrchestrator_init default_settings) = [] ∧
  (health_endpoint (frozen_clock 0) (λ _ _, HealthReturned true)
                   (QueryOrchestrator_init default_settings)).1
  = Ok (ReplyError 503).
Proof.
  split; [reflexivity|].
  destruct (health_endpoint_status (frozen_clock 0)
              (λ _ _, HealthReturned true)
              (QueryOrchestrator_init default_settings))
    as (reply & Hrun & _ & _ & _ & Hnone).
  rewrite Hrun. simpl. f_equal. by apply Hnone.
Defined.

(** ** The context of a sequential query *)

Lemma String_prefix_app (a b : string) : String.prefix a (a +:+ b) = true.
Proof.
  induction a as [|c a IH]; simpl; [by destruct b|].
  by destruct (ascii_dec c c).
Qed.

Lemma String_prefix_refl (a : string) : String.prefix a a = true.
Proof.
  induction a as [|c a IH]; simpl; [done|]. by destruct (ascii_dec c c).
Qed.

Lemma context_step_keys (context : Context) (results : list QueryResult)
    (k : string) :
  k ∈ (fold_left
         (λ (context : Context) (result : QueryResult),
            match dict_get "entities" (metadata result) with
            | Some en =>
                context_extend "entities" en
                  match dict_get "keywords" (metadata result) with
                  | Some kw => context_extend "key_terms" kw context
                  | None => context
                  end
            | None =>
                match dict_get "keywords" (metadata result) with
                | Some kw => context_extend "key_terms" kw context
                | None => context
                end
            end) results context).*1 →
  k ∈ context.*1 ∨ k = "key_terms" ∨ k = "entities".
Proof.
  revert context. induction results as [|r results IH]; intros context;
    simpl; [by left|].
  intros [Hk|Hk]%IH; [|by right].
  unfold context_extend in Hk.
  destruct (dict_get "entities" (metadata r)),
           (dict_get "keywords" (metadata r));
    repeat (apply elem_of_dict_set_keys in Hk as [->|Hk]); tauto.
Qed.

(** X17.  The context that links the steps of a sequential query.  The
    enhanced query always begins with the original query, and is the
    original query when the context is empty or holds neither key terms
    nor entities.  An updated context holds at most ten key terms and at
    most ten entities, and no keys but those it had and these two. *)
Theorem context_stays_small (set_to_list : list string -> list string)
    (text : string) (context : Context) (results : list QueryResult) :
  String.prefix text (_enhance_query_with_context text context) = true ∧
  (default [] (dict_get "key_terms" context) = [] →
   default [] (dict_get "entities" context) = [] →
   _enhance_query_with_context text context = text) ∧
  (∀ l, dict_get "key_terms" (_update_context set_to_list context results)
        = Some l → length l <= 10) ∧
  (∀ l, dict_get "entities" (_update_context set_to_list context results)
        = Some l → length l <= 10) ∧
  (∀ k, k ∈ (_update_context set_to_list context results).*1 →
        k ∈ context.*1 ∨ k = "key_terms" ∨ k = "entities").
Proof.
  split; [|split].
  - unfold _enhance_query_with_context.
    destruct context as [|entry context]; [apply String_prefix_refl|].
    cbv zeta.
    destruct (_ ++ _); [apply String_prefix_refl|].
    apply String_prefix_app.
  - intros Hterms Hentities. unfold _enhance_query_with_context.
    destruct context as [|entry context]; [done|]. cbv zeta.
    by rewrite Hterms, Hentities.
  - unfold _update_context. cbv zeta.
    set (c1 := fold_left _ (take 5 results) context).
    assert (Hkeys1 : ∀ k, k ∈ c1.*1 →
                          k ∈ context.*1 ∨ k = "key_terms" ∨ k = "entities").
    { intros k. apply context_step_keys. }
    clearbody c1.
    set (c2 := match dict_get "key_terms" c1 with
               | Some l => dict_set "key_terms" (take 10 (set_to_list l)) c1
               | None => c1
               end).
    assert (Hterms2 : ∀ l, dict_get "key_terms" c2 = Some l → length l <= 10).
    { intros l. unfold c2.
      destruct (dict_get "key_terms" c1) as [l1|] eqn:H1.
      - rewrite dict_get_set_eq. intros [= <-]. rewrite length_take. lia.
      - by rewrite H1. }
    assert (Hkeys2 : ∀ k, k ∈ c2.*1 → k ∈ c1.*1 ∨ k = "key_terms").
    { intros k. unfold c2. destruct (dict_get "key_terms" c1); [|by left].
      rewrite elem_of_dict_set_keys. tauto. }
    clearbody c2. split; [|split].
    + intros l. destruct (dict_get "entities" c2) as [l2|] eqn:H2.
      * rewrite dict_get_set_ne by done. apply Hterms2.
      * apply Hterms2.
    + intros l. destruct (dict_get "entities" c2) as [l2|] eqn:H2.
      * rewrite dict_get_set_eq. intros [= <-]. rewrite length_take. lia.
      * by rewrite H2.
    + intros k Hk.
      assert (Hk2 : k ∈ c2.*1 ∨ k = "entities").
      { destruct (dict_get "entities" c2); [|by left].
        apply elem_of_dict_set_keys in Hk. tauto. }
      destruct Hk2 as [Hk2|Hk2]; [|tauto].
      apply Hkeys2 in Hk2 as [Hk1|Hk1]; [|tauto].
      by apply Hkeys1.
Qed.

Lemma context_stays_small_witness :
  _enhance_query_with_context "why" [("key_terms", [])] = "why".
Proof.
  destruct (context_stays_small list_order "why" [("key_terms", [])] [])
    as (_ & H & _).
  by apply H.
Defined.

(** ** Post-processing *)

Lemma hybrid_score_rescores (clock : nat -> R) (weights : gmap string R)
    (r : QueryResult) :
  observes 0 (hybrid_score clock weights r) (rescored r).
Proof.
  unfold hybrid_score.
  eapply (observes_bind0 _ _ (λ _, True)); [apply weight_observes|].
  intros w1 _. cbv zeta.
  eapply (observes_bind0 _ _ (λ _, True)); [apply observes_utcnow|].
  intros now _. cbv zeta.
  eapply (observes_bind0 _ _ (λ _, True)); [apply weight_observes|].
  intros w2 _. cbv zeta.
  eapply (observes_bind0 _ _ (λ _, True)); [apply weight_observes|].
  intros w3 _. cbv zeta.
  eapply (observes_bind0 _ _ (λ _, True)); [apply weight_observes|].
  intros w4 _. cbv zeta.
  by apply observes_ret.
Qed.

Lemma mapM_hybrid_rescores (clock : nat -> R) (weights : gmap string R)
    (l scored : list QueryResult) (st st' : State) :
  mapM (hybrid_score clock weights) l st = (Ok scored, st') →
  Forall2 rescored l scored.
Proof.
  revert scored st. induction l as [|r l IH]; intros scored st; simpl.
  { intros [= <- <-]. constructor. }
  intros [(r' & st1 & Hr & Hrest)|(e & _ & ?)]%bind_run; [|done].
  apply bind_run in Hrest as [(l' & st2 & Hl & Hret)|(e & _ & ?)]; [|done].
  injection Hret as <- <-. constructor; [|by eapply IH].
  exact (proj2 (hybrid_score_rescores clock weights r st _ _ Hr)).
Qed.

Lemma Forall2_rescored_content (l l' : list QueryResult) :
  Forall2 rescored l l' → content <$> l' = content <$> l.
Proof.
  induction 1 as [|r r' l l' Hr _ IH]; [done|].
  rewrite !fmap_cons, IH. f_equal. by rewrite Hr.
Qed.

Lemma rank_rescores (clock : nat -> R) (l ranked : list QueryResult)
    (strategy : OptVal) (weights : option (gmap string R)) (st st' : State) :
  rank clock l strategy weights st = (Ok ranked, st') →
  ∃ scored, Forall2 rescored l scored ∧ ranked ≡ₚ scored.
Proof.
  unfold rank. destruct l as [|r l].
  { intros [= <- <-]. exists []. split; [constructor|done]. }
  cbv zeta.
  assert (Hsame : Forall2 rescored (r :: l) (r :: l)).
  { apply Forall2_same_length_lookup_2; [done|].
    intros i x y Hx Hy. rewrite Hx in Hy. injection Hy as <-.
    apply rescored_refl. }
  destruct (strategy_is strategy RELEVANCE).
  { intros Heq.
    assert (ranked = Py.sorted_desc score (r :: l)) as -> by (by injection Heq).
    exists (r :: l). split; [done|apply sorted_desc_Permutation]. }
  destruct (strategy_is strategy RECENCY).
  { intros Heq.
    assert (ranked = Py.sorted_desc timestamp (r :: l)) as ->
      by (by injection Heq).
    exists (r :: l). split; [done|apply sorted_desc_Permutation]. }
  unfold _rank_hybrid.
  intros [(scored & st1 & Hscored & Hret)|(e & _ & ?)]%bind_run; [|done].
  assert (ranked = Py.sorted_desc score scored) as -> by (by injection Hret).
  exists scored.
  split; [by eapply mapM_hybrid_rescores|apply sorted_desc_Permutation].
Qed.

Lemma content_hash_fmap (hash : string -> Z) (l : list QueryResult) :
  content_hash hash <$> l
  = (λ c, hash (Py.strip (Py.lower c))) <$> (content <$> l).
Proof. by rewrite <- list_fmap_compose. Qed.

Lemma slice_results_run (v : OptVal) (l sliced : list QueryResult)
    (st st' : State) :
  slice_results v l st = (Ok sliced, st') →
  sublist sliced l ∧
  ∀ n, PyVal.as_int v = Some n →
       ((0 <= n)%Z → length sliced <= Z.to_nat n) ∧
       ((n < 0)%Z → length sliced <= length l - Z.to_nat (- n)).
Proof.
  unfold slice_results.
  assert (Hint : ∀ n, PyVal.as_int v = Some n → v ≠ VNone →
            match v with
            | VNone => ret l
            | _ => match PyVal.as_int v with
                   | Some n => ret (Py.slice_to n l)
                   | None => raise TypeError
                   end
            end = ret (Py.slice_to n l)).
  { intros n Hn Hv. rewrite Hn. by destruct v. }
  destruct (PyVal.as_int v) as [n|] eqn:Hn.
  - rewrite (Hint n eq_refl) by (by intros ->).
    intros [= <- <-]. split; [apply slice_to_sublist|].
    intros n' [= <-]. unfold Py.slice_to.
    destruct (Z.leb_spec 0 n); (split; [|]); intros; try lia;
      rewrite length_take; lia.
  - destruct v; try done. intros [= <- <-]. split; [done|]. by intros n.
Qed.

Lemma process_results_spec
    (settings : Settings) (clock : nat -> R) (hash : string -> Z)
    (results : list QueryResult) (options : option Options)
    (processed : list QueryResult) (st st' : State) :
  _process_results settings clock hash [] options st = (Ok [], st) ∧
  (_process_results settings clock hash results options st
   = (Ok processed, st') →
   length processed <= length results ∧
   (∀ r, r ∈ processed → ∃ r0, r0 ∈ results ∧ rescored r0 r) ∧
   (results ≠ [] →
    ∃ o, options = Some o ∧
      (PyVal.truthy (default (VBool true) (dict_get "deduplicate" o)) = true →
       NoDup (content_hash hash <$> processed)) ∧
      (∀ n, PyVal.as_int (default (VInt 10) (dict_get "max_results" o))
            = Some n →
            ((0 <= n)%Z → length processed <= Z.to_nat n) ∧
            ((n < 0)%Z → length processed
                         <= length results - Z.to_nat (- n))))).
Proof.
  split; [done|]. unfold _process_results.
  destruct results as [|r0 results].
  { intros [= <- <-]. split; [done|]. split; [|done].
    intros r Hr. by apply elem_of_nil in Hr. }
  set (input := r0 :: results).
  destruct options as [o|]; [|done]. unfold options_get.
  unfold bind at 1. unfold ret at 1. cbv zeta.
  unfold bind at 1. unfold ret at 1.
  set (deduped := if PyVal.truthy (default (VBool true)
                                     (dict_get "deduplicate" o))
                  then _deduplicate_results hash input else input).
  intros [(ranked & st1 & Hrank & Hrest)|(e & _ & ?)]%bind_run; [|done].
  unfold bind at 1, ret at 1 in Hrest.
  apply rank_rescores in Hrank as (scored & Hscored & Hperm).
  apply slice_results_run in Hrest as [Hsub Hmax].
  assert (Hdsub : sublist deduped input).
  { unfold deduped. destruct (PyVal.truthy _); [|done].
    apply dedup_loop_sublist. }
  assert (Hlen : length ranked = length deduped).
  { rewrite Hperm. symmetry. by eapply Forall2_length. }
  split; [|split].
  - apply sublist_length in Hsub, Hdsub. lia.
  - intros r Hr.
    assert (Hr' : r ∈ scored).
    { rewrite <- Hperm. by eapply elem_of_sublist. }
    apply list_elem_of_lookup in Hr' as [i Hi].
    destruct (Forall2_lookup_r _ _ _ _ _ Hscored Hi) as (r1 & Hr1 & Hres).
    exists r1. split; [|done].
    eapply elem_of_sublist; [|exact Hdsub]. by eapply list_elem_of_lookup_2.
  - intros _. exists o. split; [done|]. split.
    + intros Hdedup.
      eapply sublist_NoDup; [|by apply (fmap_sublist (content_hash hash))].
      rewrite content_hash_fmap, Hperm, (Forall2_rescored_content _ _ Hscored).
      rewrite <- content_hash_fmap. unfold deduped. rewrite Hdedup.
      apply dedup_loop_NoDup.
    + intros n Hn. destruct (Hmax n Hn) as [Hpos Hneg].
      apply sublist_length in Hdsub. split; intros; [by apply Hpos|].
      etransitivity; [by apply Hneg|]. lia.
Qed.

(** X18.  What post-processing returns.  An empty list comes back empty,
    whatever the options, even none.  Otherwise, when it returns: every
    result is one of the input with at most its score changed, and there
    are no more of them than came in; with deduplication on (the default)
    no two results have the same content key; and with [max_results] a
    non-negative integer (10 by default) at most that many results are
    returned, while a negative one drops that many results from the
    end. *)
Theorem processed_results_bounded
    (settings : Settings) (clock : nat -> R) (hash : string -> Z)
    (results : list QueryResult) (options : option Options)
    (processed : list QueryResult) (st st' : State) :
  _process_results settings clock hash [] options st = (Ok [], st) ∧
  (_process_results settings clock hash results options st
   = (Ok processed, st') →
   length processed <= length results ∧
   (∀ r, r ∈ processed → ∃ r0, r0 ∈ results ∧ rescored r0 r) ∧
   (results ≠ [] →
    ∃ o, options = Some o ∧
      (PyVal.truthy (default (VBool true) (dict_get "deduplicate" o)) = true →
       NoDup (content_hash hash <$> processed)) ∧
      (∀ n, PyVal.as_int (default (VInt 10) (dict_get "max_results" o))
            = Some n →
            ((0 <= n)%Z → length processed <= Z.to_nat n) ∧
            ((n < 0)%Z → length processed
                         <= length results - Z.to_nat (- n))))).
Proof. apply process_results_spec. Qed.

Lemma processed_results_bounded_witness :
  let input := [sample_result "1" "Hello" "cognee" 0%R 0%R] in
  let o := [("ranking_strategy", VStr "relevance"); ("max_results", VInt 1)] in
  _process_results default_settings (frozen_clock 0) length_hash input (Some o)
                   (started default_settings)
  = (Ok input, started default_settings) ∧
  length input <= 1 ∧
  NoDup (content_hash length_hash <$> input).
Proof.
  intros input o.
  assert (Hrun : _process_results default_settings (frozen_clock 0) length_hash
                   input (Some o) (started default_settings)
                 = (Ok input, started default_settings)) by reflexivity.
  split; [exact Hrun|].
  destruct (processed_results_bounded default_settings (frozen_clock 0)
              length_hash input (Some o) input (started default_settings)
              (started default_settings)) as [_ H].
  destruct (H Hrun) as (_ & _ & Hmore).
  destruct Hmore as (o' & Ho & Hdedup & Hmax); [done|].
  injection Ho as <-. split.
  - destruct (Hmax 1%Z) as [Hle _]; [reflexivity|]. apply Hle. lia.
  - by apply Hdedup.
Defined.

(** ** Initialisation *)

Lemma elem_of_enable_adapter (settings : Settings) (name s : string)
    (a : list string) :
  s ∈ enable_adapter settings name a ↔
  s ∈ a ∨ (s = name ∧ name ∈ ENABLED_MEMORY_SYSTEMS settings).
Proof.
  unfold enable_adapter, add_adapter.
  destruct (str_in name (ENABLED_MEMORY_SYSTEMS settings)) eqn:Hen.
  - apply str_in_true in Hen.
    destruct (str_in name a) eqn:Hin.
    + apply str_in_true in Hin. split; [by left|]. by intros [?|[-> _]].
    + rewrite elem_of_app, list_elem_of_singleton. tauto.
  - split; [by left|]. intros [?|[_ Hn]]; [done|].
    apply str_in_true in Hn. congruence.
Qed.

Lemma enable_adapter_NoDup (settings : Settings) (name : string)
    (a : list string) :
  NoDup a → NoDup (enable_adapter settings name a).
Proof.
  intros Ha. unfold enable_adapter, add_adapter.
  destruct (str_in name (ENABLED_MEMORY_SYSTEMS settings)); [|done].
  destruct (str_in name a) eqn:Hin; [done|].
  apply NoDup_app. split; [done|]. split; [|apply NoDup_singleton].
  intros s Hs ->%list_elem_of_singleton.
  apply str_in_true in Hs. congruence.
Qed.

Lemma enable_adapter_fixed (settings : Settings) (name : string)
    (a : list string) :
  (name ∈ ENABLED_MEMORY_SYSTEMS settings → name ∈ a) →
  enable_adapter settings name a = a.
Proof.
  intros Hin. unfold enable_adapter, add_adapter.
  destruct (str_in name (ENABLED_MEMORY_SYSTEMS settings)) eqn:Hen; [|done].
  apply str_in_true in Hen. apply Hin, str_in_true in Hen. by rewrite Hen.
Qed.

Lemma initialize_run (settings : Settings) (st : State) :
  initialize settings st
  = (Ok tt,
     with_adapters
       (enable_adapter settings "llamacloud"
          (enable_adapter settings "memos"
             (enable_adapter settings "memento"
                (enable_adapter settings "cognee" (adapters st))))) st).
Proof. reflexivity. Qed.

(** X19.  Initialisation creates adapters and touches nothing else.  It
    never raises; afterwards the adapters are those there were before
    together with those of the four known systems that are enabled; no
    adapter appears twice; running it again changes nothing; and on a
    fresh orchestrator the adapters are the enabled ones among the graph,
    key-value, memory-OS and document sources, in this order, so all of
    them are members of [MemorySource]. *)
Theorem initialize_creates_enabled (settings : Settings) (st : State) :
  ∃ st',
    initialize settings st = (Ok tt, st') ∧
    cache st' = cache st ∧ stats st' = stats st ∧
    ticks st' = ticks st ∧ calls st' = calls st ∧
    (∀ s, s ∈ adapters st' ↔
          s ∈ adapters st ∨
          (s ∈ ["cognee"; "memento"; "memos"; "llamacloud"] ∧
           s ∈ ENABLED_MEMORY_SYSTEMS settings)) ∧
    (NoDup (adapters st) → NoDup (adapters st')) ∧
    initialize settings st' = (Ok tt, st') ∧
    (adapters st = [] →
     adapters st'
     = List.filter (λ s, str_in s (ENABLED_MEMORY_SYSTEMS settings))
                   ["cognee"; "memento"; "memos"; "llamacloud"] ∧
     Forall (λ s, s ∈ MemorySource_values) (adapters st')).
Proof.
  eexists. split; [apply initialize_run|].
  cbn [cache stats ticks calls adapters with_adapters].
  split; [done|]. split; [done|]. split; [done|]. split; [done|].
  assert (Helem : ∀ s,
            s ∈ enable_adapter settings "llamacloud"
                  (enable_adapter settings "memos"
                     (enable_adapter settings "memento"
                        (enable_adapter settings "cognee" (adapters st)))) ↔
            s ∈ adapters st ∨
            (s ∈ ["cognee"; "memento"; "memos"; "llamacloud"] ∧
             s ∈ ENABLED_MEMORY_SYSTEMS settings)).
  { intros s. rewrite !elem_of_enable_adapter, !elem_of_cons, elem_of_nil.
    split.
    - intros [[[[?|[-> ?]]|[-> ?]]|[-> ?]]|[-> ?]]; tauto.
    - intros [?|[[->|[->|[->|[->|[]]]]] ?]]; tauto. }
  split; [exact Helem|]. split; [|split].
  - intros Hnd. by do 4 apply enable_adapter_NoDup.
  - set (a := enable_adapter settings "llamacloud" _) in *.
    assert (Hin : ∀ name, name ∈ ["cognee"; "memento"; "memos"; "llamacloud"] →
                          name ∈ ENABLED_MEMORY_SYSTEMS settings → name ∈ a).
    { intros name Hname Hen. apply Helem. by right. }
    assert (Hfix : enable_adapter settings "llamacloud"
                     (enable_adapter settings "memos"
                        (enable_adapter settings "memento"
                           (enable_adapter settings "cognee" a))) = a).
    { rewrite (enable_adapter_fixed settings "cognee" a)
        by (apply Hin; rewrite !elem_of_cons; tauto).
      rewrite (enable_adapter_fixed settings "memento" a)
        by (apply Hin; rewrite !elem_of_cons; tauto).
      rewrite (enable_adapter_fixed settings "memos" a)
        by (apply Hin; rewrite !elem_of_cons; tauto).
      apply enable_adapter_fixed. apply Hin. rewrite !elem_of_cons. tauto. }
    rewrite initialize_run. unfold with_adapters.
    cbn [adapters cache stats ticks calls]. by rewrite Hfix.
  - intros Hempty. rewrite Hempty in Helem |- *. split.
    + unfold enable_adapter. simpl List.filter.
      by destruct (str_in "cognee" (ENABLED_MEMORY_SYSTEMS settings)),
                  (str_in "memento" (ENABLED_MEMORY_SYSTEMS settings)),
                  (str_in "memos" (ENABLED_MEMORY_SYSTEMS settings)),
                  (str_in "llamacloud" (ENABLED_MEMORY_SYSTEMS settings)).
    + apply Forall_forall. intros s [Hs|[Hs _]]%Helem.
      * by apply elem_of_nil in Hs.
      * unfold MemorySource_values. rewrite !elem_of_cons in Hs |- *. tauto.
Qed.

Lemma initialize_creates_enabled_witness :
  adapters (QueryOrchestrator_init cognee_only) = [] ∧
  adapters (started cognee_only) = ["cognee"].
Proof.
  split; [reflexivity|].
  destruct (initialize_creates_enabled cognee_only
              (QueryOrchestrator_init cognee_only))
    as (st' & Hrun & _ & _ & _ & _ & _ & _ & _ & Hfresh).
  unfold started. rewrite Hrun. simpl.
  destruct Hfresh as [Hads _]; [reflexivity|]. by rewrite Hads.
Defined.

(** ** The endpoints *)

(** X20.  The analysis endpoint passes the query and the analysis on and
    names the analysis's mode, which is never the parallel one.  Its list
    of recommended sources is read from a key the analysis does not have:
    it is empty for every query, although the analysis itself always
    recommends some source. *)
Theorem analyze_endpoint_sources_empty (text : string) :
  ar_query (analyze_endpoint text) = text ∧
  ar_analysis (analyze_endpoint text) = analyze_query text ∧
  ar_recommended_mode (analyze_endpoint text)
  = QueryMode_value (analysis_mode (analyze_query text)) ∧
  ar_recommended_mode (analyze_endpoint text) ≠ "parallel" ∧
  ar_recommended_sources (analyze_endpoint text) = [] ∧
  recommended_sources (ar_analysis (analyze_endpoint text)) ≠ [].
Proof.
  unfold analyze_endpoint. cbv zeta. simpl.
  split; [done|]. split; [done|]. split; [done|].
  unfold Analysis_get_mode, analyze_query.
  destruct (any_in ["how"; "why"; "explain"] (Py.lower text));
    [|destruct (any_in ["when"; "date"; "time"] (Py.lower text));
      [|destruct (any_in ["who"; "person"; "user"] (Py.lower text));
        [|destruct (any_in ["document"; "file"; "pdf"] (Py.lower text))]]];
    by destruct (_ || _).
Qed.

Lemma QueryResponse_validate_ok (result response : Response) (st st' : State) :
  QueryResponse_validate result st = (Ok response, st') →
  response = result ∧ st' = st ∧
  (∃ l, resp_results result = Flat l) ∧
  Forall (λ s, s ∈ MemorySource_values) (resp_sources_queried result).
Proof.
  unfold QueryResponse_validate.
  destruct (resp_results result) as [l|g]; [|done].
  destruct (forallb _ (resp_sources_queried result)) eqn:Hall; [|done].
  intros [= <- <-]. split; [done|]. split; [done|]. split; [by eexists|].
  apply Forall_forall. intros s Hs. apply str_in_true.
  rewrite forallb_forall in Hall. by apply Hall, list_elem_of_In.
Qed.

(** X21.  The query endpoint never raises: it answers 200 with a response
    or 500, and nothing else.  A response it hands out has a list of
    results and names only members of [MemorySource] as the sources
    queried; the checks are those of the declared [QueryResponse] fields.
    A request in parallel mode that misses the cache is always answered
    500, because the results of that mode are a dict and not a list. *)
Theorem query_endpoint_replies
    (settings : Settings) (clock : nat -> R)
    (search : string -> string -> option Options -> nat -> Outcome)
    (hash : string -> Z) (set_to_list : list string -> list string)
    (request : QueryRequest) (st : State) :
  let options := Some (match req_options request with
                       | Some o => QueryOptions_dict o
                       | None => []
                       end) in
  (∃ reply st',
     unified_query settings clock search hash set_to_list request st
     = (Ok reply, st') ∧
     (reply = ReplyError 500 ∨
      ∃ response,
        reply = Reply200 response ∧
        (query settings clock search hash set_to_list (req_query request)
               (req_mode request) (req_sources request) options st).1
        = Ok response ∧
        (∃ l, resp_results response = Flat l) ∧
        Forall (λ s, s ∈ MemorySource_values) (resp_sources_queried response))) ∧
  (req_mode request = PARALLEL →
   backend_get (_generate_cache_key (req_query request) PARALLEL
                                    (req_sources request) options)
               (clock (S (ticks st))) (backend (cache st)) = None →
   ∃ st', unified_query settings clock search hash set_to_list request st
          = (Ok (ReplyError 500), st')).
Proof.
  cbv zeta. unfold unified_query, try_except. split.
  - destruct (bind _ _ st) as [[reply|e] st1] eqn:Hrun.
    + exists reply, st1. split; [done|]. right.
      apply bind_run in Hrun as [(result & st2 & Hquery & Hrest)|(e & _ & ?)];
        [|done].
      apply bind_run in Hrest as [(response & st3 & Hvalid & Hret)|(e & _ & ?)];
        [|done].
      injection Hret as <- <-.
      apply QueryResponse_validate_ok in Hvalid as (-> & _ & Hflat & Hsources).
      exists result. rewrite Hquery. by repeat split.
    + exists (ReplyError 500), st1. split; [done|by left].
  - intros Hmode Hmiss. rewrite Hmode.
    set (options := Some _) in *.
    assert (Hquery : ∃ response st1,
              query settings clock search hash set_to_list (req_query request)
                    PARALLEL (req_sources request) options st
              = (Ok response, st1) ∧
              ∃ g, resp_results response = Grouped g).
    { rewrite query_miss by done. cbv zeta.
      destruct (query_parallel_spec clock search (req_query request)
                  (resolve_sources (adapters st) (req_sources request))
                  options (after_cache_miss st))
        as (g & st1 & Hrun & _).
      unfold bind at 1. unfold bind at 1. rewrite Hrun. unfold ret at 1.
      unfold bind at 1. unfold ret at 1. rewrite query_finish.
      eexists _, _. split; [reflexivity|]. by exists g. }
    destruct Hquery as (response & st1 & Hquery & g & Hg).
    exists st1. unfold bind at 1. rewrite Hquery.
    unfold bind at 1. unfold QueryResponse_validate. by rewrite Hg.
Qed.

Lemma query_endpoint_replies_witness :
  ∃ st',
    unified_query cognee_only (frozen_clock 0) all_up length_hash list_order
      {| req_query := "hello"; req_mode := PARALLEL; req_sources := None;
         req_options := None |}
      (started cognee_only)
    = (Ok (ReplyError 500), st').
Proof.
  pose proof (query_endpoint_replies cognee_only (frozen_clock 0) all_up
                length_hash list_order
                {| req_query := "hello"; req_mode := PARALLEL;
                   req_sources := None; req_options := None |}
                (started cognee_only)) as H.
  cbv zeta in H. destruct H as [_ H]. apply H; reflexivity.
Defined.

(** ** Clearing the cache *)

(** X22.  Clearing the cache empties the store and keeps the books:
    the hit and miss counters and the statistics drawn from them are as
    before, and so are the lifetime and the size bound; every lookup after
    it is a miss, and is counted as one. *)
Theorem cache_clear_keeps_counters (clock : nat -> R) (st : State) :
  ∃ st',
    QueryCache_clear st = (Ok tt, st') ∧
    hits (cache st') = hits (cache st) ∧
    misses (cache st') = misses (cache st) ∧
    ttl (cache st') = ttl (cache st) ∧
    max_size (cache st') = max_size (cache st) ∧
    QueryCache_get_stats (cache st') = QueryCache_get_stats (cache st) ∧
    stats st' = stats st ∧ adapters st' = adapters st ∧
    ticks st' = ticks st ∧ calls st' = calls st ∧
    ∀ key, ∃ st2,
      QueryCache_get clock key st' = (Ok None, st2) ∧
      misses (cache st2) = misses (cache st) + 1 ∧
      hits (cache st2) = hits (cache st).
Proof.
  eexists. split; [reflexivity|]. simpl.
  repeat (split; [reflexivity|]).
  intros key. eexists. split; [|split].
  - unfold QueryCache_get, bind, utcnow, get_state, put_state, ret. simpl.
    unfold backend_get. rewrite lookup_empty. reflexivity.
  - reflexivity.
  - reflexivity.
Qed.

(** ** The sources of a query *)

(** X23.  The sources a query settles on.  With no list of sources, or an
    empty one, they are all the adapters.  Otherwise they are the named
    sources that have an adapter, in the order and as often as they were
    named: every one of them has an adapter, and a request that names only
    sources without an adapter is left with no source at all, not with all
    of them. *)
Theorem resolved_sources_have_adapters (adapters : list string)
    (sources : option (list string)) :
  (∀ s, s ∈ resolve_sources adapters sources → s ∈ adapters) ∧
  (sources = None ∨ sources = Some [] →
   resolve_sources adapters sources = adapters) ∧
  (∀ l, sources = Some l → l ≠ [] →
        resolve_sources adapters sources = filter (λ s, s ∈ adapters) l ∧
        resolve_sources adapters sources `sublist_of` l ∧
        ((∀ s, s ∈ l → s ∉ adapters) → resolve_sources adapters sources = [])).
Proof.
  assert (Hfilter : ∀ l : list string,
            filter (λ s, str_in s adapters = true) l
            = filter (λ s, s ∈ adapters) l).
  { intros l. apply list_filter_iff. intros s. apply str_in_true. }
  split; [|split].
  - intros s. unfold resolve_sources. destruct sources as [[|s0 l]|]; try done.
    rewrite Hfilter. by intros [? _]%list_elem_of_filter.
  - by intros [->| ->].
  - intros l -> Hne. destruct l as [|s0 l]; [done|].
    unfold resolve_sources. rewrite Hfilter.
    split; [done|]. split; [apply sublist_filter|].
    intros Hnone.
    destruct (filter (λ s, s ∈ adapters) (s0 :: l)) as [|s l'] eqn:Hf; [done|].
    assert (Hs : s ∈ filter (λ s, s ∈ adapters) (s0 :: l))
      by (rewrite Hf; by left).
    apply list_elem_of_filter in Hs as [Hin Hs]. by destruct (Hnone s Hs).
Qed.

Lemma resolved_sources_have_adapters_witness :
  resolve_sources ["cognee"] (Some ["memento"]) = [].
Proof.
  destruct (resolved_sources_have_adapters ["cognee"] (Some ["memento"]))
    as (_ & _ & H).
  destruct (H ["memento"] eq_refl) as (_ & _ & Hnone); [done|].
  apply Hnone. intros s Hs Hin.
  apply list_elem_of_singleton in Hs. apply list_elem_of_singleton in Hin.
  by subst.
Defined.

(** ** From the request to the reply *)

Section ReplyFacts.
Variable settings : Settings.
Variable clock : nat -> R.
Variable search : string -> string -> option Options -> nat -> Outcome.
Variable hash : string -> Z.
Variable set_to_list : list string -> list string.

(** In the modes that return a list, the results of an answered query
    that missed the cache are what post-processing made of the results of
    the mode. *)
Lemma query_miss_flat (text : string) (mode : QueryMode)
    (sources : option (list string)) (options : option Options) (st : State)
    (response : Response) (st' : State) :
  backend_get (_generate_cache_key text mode sources options)
              (clock (S (ticks st))) (backend (cache st)) = None →
  mode ≠ PARALLEL →
  query settings clock search hash set_to_list text mode sources options st
  = (Ok response, st') →
  ∃ l processed st1 st2,
    _process_results settings clock hash l options st1 = (Ok processed, st2) ∧
    resp_results response = Flat processed ∧
    resp_total_results response = length processed.
Proof.
  intros Hmiss Hmode. rewrite query_miss by done. cbv zeta.
  intros [(results & st1 & Hdispatch & Hrest)|(e & _ & ?)]%bind_run; [|done].
  assert (Hflat : ∃ l, results = Flat l).
  { destruct mode; [| |done|];
      apply bind_run in Hdispatch as [(l & st0 & _ & Hret)|(e & _ & ?)];
      try done; injection Hret as <- _; by eexists. }
  destruct Hflat as [l ->].
  apply bind_run in Hrest as [(results' & st2 & Hprocess & Hrest)|(e & _ & ?)];
    [|done].
  apply bind_run in Hprocess as [(processed & st3 & Hp & Hret)|(e & _ & ?)];
    [|done].
  injection Hret as <- <-. rewrite query_finish in Hrest.
  injection Hrest as <- _. by exists l, processed, st1, st3.
Qed.

End ReplyFacts.

(** X24.  The bound of the request model holds for the reply.  When a
    valid request in a mode other than the parallel one misses the cache
    and is answered 200, the response holds a list of at most
    [max_results] results ([max_results] being 10 when the request has no
    options), hence never more than 100, and [total_results] is the length
    of that list. *)
Theorem reply_respects_max_results
    (settings : Settings) (clock : nat -> R)
    (search : string -> string -> option Options -> nat -> Outcome)
    (hash : string -> Z) (set_to_list : list string -> list string)
    (request : QueryRequest) (st : State) (response : Response) (st' : State) :
  let options := Some (match req_options request with
                       | Some o => QueryOptions_dict o
                       | None => []
                       end) in
  let max_results := match req_options request with
                     | Some o => opt_max_results o
                     | None => 10%Z
                     end in
  QueryRequest_valid request →
  req_mode request ≠ PARALLEL →
  backend_get (_generate_cache_key (req_query request) (req_mode request)
                                   (req_sources request) options)
              (clock (S (ticks st))) (backend (cache st)) = None →
  unified_query settings clock search hash set_to_list request st
  = (Ok (Reply200 response), st') →
  ∃ l, resp_results response = Flat l ∧
       resp_total_results response = length l ∧
       length l <= Z.to_nat max_results ∧
       length l <= 100.
Proof.
  intros options max_results (_ & _ & Hvalid) Hmode Hmiss.
  unfold unified_query, try_except.
  destruct (bind _ _ st) as [[reply|e] st1] eqn:Hrun; [|done].
  intros [= -> ->].
  apply bind_run in Hrun as [(result & st2 & Hquery & Hrest)|(e & _ & ?)];
    [|done].
  apply bind_run in Hrest as [(response' & st3 & Hcheck & Hret)|(e & _ & ?)];
    [|done].
  injection Hret as <- _.
  apply QueryResponse_validate_ok in Hcheck as (-> & _ & _ & _).
  destruct (query_miss_flat _ _ _ _ _ _ _ _ _ _ _ _ Hmiss Hmode Hquery)
    as (l & processed & st4 & st5 & Hprocess & Hflat & Htotal).
  exists processed. split; [done|]. split; [done|].
  assert (Hbound : (1 <= max_results <= 100)%Z).
  { unfold max_results. destruct (req_options request) as [o|]; [|lia].
    by apply Hvalid. }
  assert (Hint : PyVal.as_int
                   (default (VInt 10)
                      (dict_get "max_results"
                         match req_options request with
                         | Some o => QueryOptions_dict o
                         | None => []
                         end)) = Some max_results).
  { unfold max_results. by destruct (req_options request). }
  destruct (process_results_spec settings clock hash l options processed
              st4 st5) as [_ Hspec].
  destruct (Hspec Hprocess) as (Hlen & _ & Hmore).
  destruct l as [|r0 l].
  { simpl in Hlen. lia. }
  destruct Hmore as (o' & Ho' & _ & Hmax); [done|].
  injection Ho' as <-. destruct (Hmax _ Hint) as [Hpos _].
  specialize (Hpos ltac:(lia)). lia.
Qed.

Lemma reply_respects_max_results_witness :
  let request := {| req_query := "hello"; req_mode := UNIFIED;
                    req_sources := Some ["memento"]; req_options := None |} in
  let out := unified_query cognee_only (frozen_clock 0) all_up length_hash
                           list_order request (started cognee_only) in
  QueryRequest_valid request ∧
  ∃ response l,
    out.1 = Ok (Reply200 response) ∧
    resp_results response = Flat l ∧ length l <= 10.
Proof.
  intros request out.
  assert (Hvalid : QueryRequest_valid request).
  { split; [simpl; lia|]. split.
    - intros l [= <-]. repeat constructor.
    - by intros o. }
  split; [exact Hvalid|].
  assert (Hok : ∃ response, out.1 = Ok (Reply200 response)).
  { vm_compute. eexists. reflexivity. }
  destruct Hok as [response H1].
  assert (Hout : out = (Ok (Reply200 response), out.2)).
  { rewrite <- H1. apply surjective_pairing. }
  destruct (reply_respects_max_results cognee_only (frozen_clock 0) all_up
              length_hash list_order request (started cognee_only) response
              out.2 Hvalid) as (l & Hflat & _ & Hlen & _).
  - done.
  - reflexivity.
  - exact Hout.
  - exists response, l. by repeat split.
Defined.

(** ** The chain of a sequential query *)


Section SequentialFacts.
Variable clock : nat -> R.
Variable search : string -> string -> option Options -> nat -> Outcome.
Variable set_to_list : list string -> list string.





End SequentialFacts.


(** ** A source that answers *)

Section AnswerFacts.
Variable clock : nat -> R.
Variable search : string -> string -> option Options -> nat -> Outcome.




End AnswerFacts.


(** ** Partial failure in unified mode, from the fan-out to the response *)

Section ReturnedFacts.
Variable settings : Settings.
Variable clock : nat -> R.
Variable hash : string -> Z.








End ReturnedFacts.


